(** * Incremental loaders of the warehouse: a shallow embedding

    The development follows the Python sources under [src/dags]:
    - [lib/utils.py], [lib/etl_settings_repository.py], [lib/connect.py],
      [lib/crud.py]: serialisation of settings, the checkpoint table, the
      transactional connection scope;
    - [dwh/dds/dm_orders_loader.py], [dwh/dds/fct_product_sales_loader.py]:
      keyset readers with the gap filter, single-batch drivers;
    - [dwh/dds/dm_couriers_loader.py], [dwh/cdm/dm_settlement_report_loader.py]:
      the plain single-batch driver and the drain loop;
    - [dwh/dds/dm_restaurants_loader.py], [dwh/dds/dm_products_loader.py]:
      the type-2 writers;
    - [dwh/stg/stg_2/order_system_orders_loader.py],
      [dwh/stg/stg_3/delivery_system_deliveries_loader.py]: the document
      store reader and the paginated HTTP reader.

    SQL statements are embedded as list programs over tables (lists of
    rows): WHERE is [filter], ORDER BY is a stable insertion sort of the
    rows in the order in which the execution meets them (SQL promises no
    order among rows that ORDER BY does not tell apart, so this order
    belongs to one execution), LIMIT is [firstn], OFFSET is [skipn]. *)

From Stdlib Require Import ZArith QArith String Ascii Bool Lia Arith List.
From Stdlib Require Import DecimalString.
From Stdlib Require Import Sorting.Sorted Sorting.Permutation.
Import ListNotations.

Local Open Scope string_scope.
Local Open Scope Z_scope.
Local Open Scope list_scope.

Set Implicit Arguments.

(** ** Comparable values

    Python compares tuples lexicographically, component by component, and
    the SQL row comparisons of the readers are written out the same way.
    [Ord] is the interface of the values that appear as key fields. *)

Class Ord (A : Type) := {
  cmp : A -> A -> comparison;
  cmp_refl : forall x, cmp x x = Eq;
  cmp_eq : forall x y, cmp x y = Eq -> x = y;
  cmp_antisym : forall x y, cmp y x = CompOpp (cmp x y);
  cmp_trans : forall x y z, cmp x y = Lt -> cmp y z = Lt -> cmp x z = Lt
}.

Definition ltb {A} `{Ord A} (x y : A) : bool :=
  match cmp x y with Lt => true | _ => false end.

Definition leb {A} `{Ord A} (x y : A) : bool :=
  match cmp x y with Gt => false | _ => true end.

Definition eqb {A} `{Ord A} (x y : A) : bool :=
  match cmp x y with Eq => true | _ => false end.

Definition lex (c1 c2 : comparison) : comparison :=
  match c1 with Eq => c2 | _ => c1 end.

#[export, refine] Instance Ord_Z : Ord Z := {| cmp := Z.compare |}.
Proof.
  - apply Z.compare_refl.
  - intros x y; apply Z.compare_eq.
  - intros x y; apply Z.compare_antisym.
  - intros x y z; rewrite !Z.compare_lt_iff; lia.
Defined.

Lemma ascii_compare_refl (a : ascii) : Ascii.compare a a = Eq.
Proof. unfold Ascii.compare; apply N.compare_refl. Qed.

Lemma ascii_compare_trans (a b c : ascii) :
  Ascii.compare a b = Lt -> Ascii.compare b c = Lt -> Ascii.compare a c = Lt.
Proof. unfold Ascii.compare; rewrite !N.compare_lt_iff; lia. Qed.

Lemma string_compare_refl (s : string) : String.compare s s = Eq.
Proof.
  induction s as [|a s IH]; simpl; [reflexivity|].
  now rewrite ascii_compare_refl.
Qed.

Lemma string_compare_trans (s1 s2 s3 : string) :
  String.compare s1 s2 = Lt -> String.compare s2 s3 = Lt ->
  String.compare s1 s3 = Lt.
Proof.
  revert s2 s3; induction s1 as [|a s1 IH]; intros [|b s2] [|c s3];
    simpl; try congruence.
  destruct (Ascii.compare a b) eqn:Hab; try discriminate;
    destruct (Ascii.compare b c) eqn:Hbc; try discriminate; intros H1 H2.
  - apply Ascii.compare_eq_iff in Hab, Hbc; subst.
    rewrite ascii_compare_refl; eauto.
  - apply Ascii.compare_eq_iff in Hab; subst; now rewrite Hbc.
  - apply Ascii.compare_eq_iff in Hbc; subst; now rewrite Hab.
  - now rewrite (ascii_compare_trans _ _ _ Hab Hbc).
Qed.

#[export, refine] Instance Ord_string : Ord string :=
  {| cmp := String.compare |}.
Proof.
  - apply string_compare_refl.
  - apply String.compare_eq_iff.
  - intros x y; apply String.compare_antisym.
  - apply string_compare_trans.
Defined.

(** The order of Python tuples [(a, b) < (a', b')]. *)
#[export, refine] Instance Ord_pair {A B} `{Ord A} `{Ord B} : Ord (A * B) :=
  {| cmp := fun p q => lex (cmp (fst p) (fst q)) (cmp (snd p) (snd q)) |}.
Proof.
  - intros [a b]; simpl; now rewrite !cmp_refl.
  - intros [a b] [a' b']; simpl; unfold lex.
    destruct (cmp a a') eqn:Ha; try discriminate.
    intros Hb; apply cmp_eq in Ha, Hb; congruence.
  - intros [a b] [a' b']; simpl; unfold lex.
    rewrite (cmp_antisym a a'), (cmp_antisym b b').
    destruct (cmp a a'); reflexivity.
  - intros [a b] [a' b'] [a'' b'']; simpl; unfold lex.
    destruct (cmp a a') eqn:H1; try discriminate;
      destruct (cmp a' a'') eqn:H2; try discriminate; intros Hb1 Hb2.
    + apply cmp_eq in H1, H2; subst; rewrite cmp_refl; eauto using cmp_trans.
    + apply cmp_eq in H1; subst; now rewrite H2.
    + apply cmp_eq in H2; subst; now rewrite H1.
    + now rewrite (cmp_trans _ _ _ H1 H2).
Defined.

Section OrdFacts.
Context {A : Type} `{Ord A}.

Lemma ltb_irrefl (x : A) : ltb x x = false.
Proof. unfold ltb; now rewrite cmp_refl. Qed.

Lemma ltb_trans (x y z : A) :
  ltb x y = true -> ltb y z = true -> ltb x z = true.
Proof.
  unfold ltb; destruct (cmp x y) eqn:H1; try discriminate;
    destruct (cmp y z) eqn:H2; try discriminate; intros _ _.
  now rewrite (cmp_trans _ _ _ H1 H2).
Qed.

Lemma leb_refl (x : A) : leb x x = true.
Proof. unfold leb; now rewrite cmp_refl. Qed.

Lemma leb_ltb (x y : A) : leb x y = negb (ltb y x).
Proof.
  unfold leb, ltb; rewrite (cmp_antisym x y); now destruct (cmp x y).
Qed.

Lemma ltb_leb (x y : A) : ltb x y = true -> leb x y = true.
Proof. unfold ltb, leb; now destruct (cmp x y). Qed.

Lemma leb_total (x y : A) : leb x y = true \/ leb y x = true.
Proof.
  unfold leb; rewrite (cmp_antisym x y); destruct (cmp x y); simpl; auto.
Qed.

Lemma leb_trans (x y z : A) :
  leb x y = true -> leb y z = true -> leb x z = true.
Proof.
  unfold leb; destruct (cmp x y) eqn:H1; try discriminate;
    destruct (cmp y z) eqn:H2; try discriminate; intros _ _.
  - apply cmp_eq in H1; subst; now rewrite H2.
  - apply cmp_eq in H1; subst; now rewrite H2.
  - apply cmp_eq in H2; subst; now rewrite H1.
  - now rewrite (cmp_trans _ _ _ H1 H2).
Qed.

Lemma ltb_leb_trans (x y z : A) :
  ltb x y = true -> leb y z = true -> ltb x z = true.
Proof.
  unfold leb, ltb; destruct (cmp x y) eqn:H1; try discriminate;
    destruct (cmp y z) eqn:H2; try discriminate; intros _ _.
  - apply cmp_eq in H2; subst; now rewrite H1.
  - now rewrite (cmp_trans _ _ _ H1 H2).
Qed.

Lemma leb_antisym (x y : A) : leb x y = true -> leb y x = true -> x = y.
Proof.
  unfold leb; rewrite (cmp_antisym x y); destruct (cmp x y) eqn:E;
    simpl; try discriminate; intros _ _; now apply cmp_eq.
Qed.

Lemma eqb_true (x y : A) : eqb x y = true <-> x = y.
Proof.
  unfold eqb; split.
  - destruct (cmp x y) eqn:E; try discriminate; intros _; now apply cmp_eq.
  - intros ->; now rewrite cmp_refl.
Qed.

Lemma leb_false_ltb (x y : A) : leb x y = false -> ltb y x = true.
Proof. rewrite leb_ltb; now destruct (ltb y x). Qed.
End OrdFacts.

(** ** Dates and timestamps

    A naive Python [datetime] is its seven fields, compared field by field
    from the year down to the microsecond; a [date] is the first three. *)

Record datetime := mk_datetime {
  year : Z; month : Z; day : Z;
  hour : Z; minute : Z; second : Z; microsecond : Z
}.

Record date := mk_date { d_year : Z; d_month : Z; d_day : Z }.

Definition datetime_tuple (t : datetime) :=
  (year t, (month t, (day t, (hour t, (minute t, (second t, microsecond t)))))).

Definition date_tuple (d : date) := (d_year d, (d_month d, d_day d)).

Lemma datetime_tuple_inj (s t : datetime) :
  datetime_tuple s = datetime_tuple t -> s = t.
Proof. destruct s, t; unfold datetime_tuple; simpl; congruence. Qed.

Lemma date_tuple_inj (s t : date) : date_tuple s = date_tuple t -> s = t.
Proof. destruct s, t; unfold date_tuple; simpl; congruence. Qed.

(** An order carried along an injection into an ordered type. *)
Definition Ord_via {A B} `{Ord B} (f : A -> B)
  (f_inj : forall x y, f x = f y -> x = y) : Ord A.
Proof.
  refine {| cmp := fun x y => cmp (f x) (f y) |}.
  - intros x; apply cmp_refl.
  - intros x y E; apply f_inj; now apply cmp_eq.
  - intros x y; apply cmp_antisym.
  - intros x y z; apply cmp_trans.
Defined.

#[export] Instance Ord_datetime : Ord datetime :=
  Ord_via datetime_tuple datetime_tuple_inj.

#[export] Instance Ord_date : Ord date := Ord_via date_tuple date_tuple_inj.

(** [datetime.min], [date.min] and [datetime(2099, 12, 31)]. *)
Definition datetime_min : datetime := mk_datetime 1 1 1 0 0 0 0.
Definition date_min : date := mk_date 1 1 1.
Definition open_ended : datetime := mk_datetime 2099 12 31 0 0 0 0.

Definition valid_datetime (t : datetime) : Prop :=
  1 <= year t <= 9999 /\ 1 <= month t <= 12 /\ 1 <= day t <= 31 /\
  0 <= hour t <= 23 /\ 0 <= minute t <= 59 /\ 0 <= second t <= 59 /\
  0 <= microsecond t <= 999999.

Definition valid_date (d : date) : Prop :=
  1 <= d_year d <= 9999 /\ 1 <= d_month d <= 12 /\ 1 <= d_day d <= 31.

(** [str(ObjectId('0' * 24))]. *)
Definition zero_oid : string := "000000000000000000000000".

(** ** The relational fragment used by the readers *)

Lemma In_firstn {A} (n : nat) (l : list A) (x : A) :
  In x (firstn n l) -> In x l.
Proof.
  revert l; induction n as [|n IH]; intros [|a l]; simpl; try tauto.
  intros [->|Hin]; auto.
Qed.

Lemma In_skipn {A} (n : nat) (l : list A) (x : A) :
  In x (skipn n l) -> In x l.
Proof.
  revert l; induction n as [|n IH]; intros [|a l]; simpl; auto.
Qed.

Section Relational.
Context {R K : Type} `{Ord K}.
Variable key : R -> K.

(** ORDER BY [key]: insertion sort, stable on equal keys. *)
Fixpoint insert_by (r : R) (l : list R) : list R :=
  match l with
  | [] => [r]
  | x :: l' => if leb (key r) (key x) then r :: l else x :: insert_by r l'
  end.

Fixpoint order_by (l : list R) : list R :=
  match l with
  | [] => []
  | r :: l' => insert_by r (order_by l')
  end.

Definition key_le (a b : R) : Prop := leb (key a) (key b) = true.

Lemma insert_by_perm (r : R) (l : list R) : Permutation (r :: l) (insert_by r l).
Proof.
  induction l as [|x l IH]; simpl; [reflexivity|].
  destruct (leb (key r) (key x)); [reflexivity|].
  rewrite perm_swap; now constructor.
Qed.

Lemma order_by_perm (l : list R) : Permutation l (order_by l).
Proof.
  induction l as [|r l IH]; simpl; [constructor|].
  rewrite <- insert_by_perm; now constructor.
Qed.

Lemma insert_by_sorted (r : R) (l : list R) :
  Sorted key_le l -> Sorted key_le (insert_by r l).
Proof.
  induction l as [|x l IH]; simpl; intros Hs.
  - repeat constructor.
  - destruct (leb (key r) (key x)) eqn:E.
    + constructor; [assumption|now constructor].
    + inversion Hs as [|? ? Hs' Hhd]; subst.
      constructor; [now apply IH|].
      assert (Hxr : key_le x r).
      { unfold key_le; destruct (leb_total (key x) (key r)); congruence. }
      destruct l as [|y l]; simpl; [now constructor|].
      destruct (leb (key r) (key y)); constructor; try assumption.
      now inversion Hhd.
Qed.

Lemma order_by_sorted (l : list R) : Sorted key_le (order_by l).
Proof.
  induction l as [|r l IH]; simpl; [constructor|now apply insert_by_sorted].
Qed.

Lemma order_by_In (l : list R) (r : R) : In r (order_by l) <-> In r l.
Proof.
  split; apply Permutation_in;
    [apply Permutation_sym|]; apply order_by_perm.
Qed.

Lemma order_by_length (l : list R) : length (order_by l) = length l.
Proof. symmetry; apply Permutation_length, order_by_perm. Qed.

Lemma key_le_trans : Relations_1.Transitive key_le.
Proof. intros a b c; unfold key_le; apply leb_trans. Qed.

Lemma order_by_strongly_sorted (l : list R) : StronglySorted key_le (order_by l).
Proof. apply Sorted_StronglySorted; [apply key_le_trans|apply order_by_sorted]. Qed.

(** A sorted list is left alone by ORDER BY. *)
Lemma insert_by_head (r : R) (l : list R) :
  Forall (key_le r) l -> insert_by r l = r :: l.
Proof.
  destruct l as [|x l]; simpl; [reflexivity|].
  intros Hf; inversion Hf; subst.
  unfold key_le in *; now match goal with H : leb _ _ = true |- _ => rewrite H end.
Qed.

Lemma order_by_id (l : list R) : StronglySorted key_le l -> order_by l = l.
Proof.
  induction 1 as [|r l Hs IH Hf]; simpl; [reflexivity|].
  rewrite IH; now apply insert_by_head.
Qed.

Lemma order_by_idem (l : list R) : order_by (order_by l) = order_by l.
Proof. apply order_by_id, order_by_strongly_sorted. Qed.

(** Truncation keeps a list sorted. *)
Lemma Sorted_firstn (n : nat) (l : list R) :
  Sorted key_le l -> Sorted key_le (firstn n l).
Proof.
  intros Hs; apply StronglySorted_Sorted.
  apply Sorted_StronglySorted in Hs; [|apply key_le_trans].
  revert n; induction Hs as [|r l Hs IH Hf]; intros [|n]; simpl;
    try constructor; auto.
  rewrite Forall_forall in *; intros x Hx; apply Hf.
  now apply In_firstn in Hx.
Qed.

Lemma Sorted_skipn (n : nat) (l : list R) :
  Sorted key_le l -> Sorted key_le (skipn n l).
Proof.
  revert l; induction n as [|n IH]; intros [|r l] Hs; simpl; auto.
  apply IH; now inversion Hs.
Qed.

(** The keyset page: rows strictly after the watermark, in key order, at
    most [limit] of them.
    [WHERE key > wm ORDER BY key LIMIT limit]. *)
Definition keyset_page (wm : K) (limit : nat) (rows : list R) : list R :=
  firstn limit (order_by (filter (fun r => ltb wm (key r)) rows)).

Lemma keyset_page_after (wm : K) (limit : nat) (rows : list R) (r : R) :
  In r (keyset_page wm limit rows) -> ltb wm (key r) = true /\ In r rows.
Proof.
  unfold keyset_page; intros Hin.
  apply In_firstn, order_by_In, filter_In in Hin; tauto.
Qed.

Lemma keyset_page_sorted (wm : K) (limit : nat) (rows : list R) :
  Sorted key_le (keyset_page wm limit rows).
Proof. apply Sorted_firstn, order_by_sorted. Qed.

Lemma keyset_page_length (wm : K) (limit : nat) (rows : list R) :
  (length (keyset_page wm limit rows) <= limit)%nat.
Proof. unfold keyset_page; rewrite length_firstn; lia. Qed.

End Relational.

(** ** Python idioms shared by the loaders *)

(** Truth value of an [Optional[int]] and of an [Optional[str]]: [None],
    [0] and the empty string are false. *)
Definition truthy_int (v : option Z) : bool :=
  match v with Some n => negb (n =? 0) | None => false end.

Definition truthy_str (v : option string) : bool :=
  match v with Some s => negb (String.eqb s "") | None => false end.

(** [all([...])]. *)
Definition all (l : list bool) : bool := forallb (fun b => b) l.

(** The truncation loop of the readers that join against dimensions:
<<
    for idx, x in enumerate(xs):
        if not ok(x):
            xs = xs[:idx]
            break
    return xs
>>
    [rest] is what the iterator has still to yield, [idx] its position. *)
Fixpoint truncate_loop {A} (ok : A -> bool) (xs : list A) (idx : nat)
  (rest : list A) : list A :=
  match rest with
  | [] => xs
  | x :: rest' =>
      if ok x then truncate_loop ok xs (S idx) rest' else firstn idx xs
  end.

Definition truncate_at_gap {A} (ok : A -> bool) (xs : list A) : list A :=
  truncate_loop ok xs 0 xs.

(** [max(xs)] for objects that define [__lt__] only: [item > best] is
    answered by the reflected [best.__lt__(item)], the first of several
    maximal items is kept, and the empty list raises [ValueError]. *)
Definition py_max {A} (lt : A -> A -> bool) (xs : list A) : option A :=
  match xs with
  | [] => None
  | x :: xs' =>
      Some (fold_left (fun best item => if lt best item then item else best)
                      xs' x)
  end.

(** [MAX(col)] over the joined rows of a group: NULL when the LEFT JOIN
    found no partner. *)
Definition sql_max (l : list Z) : option Z :=
  fold_left (fun acc x => match acc with
                          | None => Some x
                          | Some m => Some (Z.max m x)
                          end) l None.

Definition joined_max_id {K} `{Ord K} (dim : list (Z * K)) (k : K) : option Z :=
  sql_max (map fst (filter (fun d => eqb (snd d) k) dim)).

Section TruncateFacts.
Context {A : Type}.
Variable ok : A -> bool.

(** The longest prefix of accepted records. *)
Fixpoint kept_prefix (l : list A) : list A :=
  match l with
  | [] => []
  | x :: l' => if ok x then x :: kept_prefix l' else []
  end.

Lemma truncate_loop_spec (pre rest : list A) :
  truncate_loop ok (pre ++ rest) (length pre) rest = pre ++ kept_prefix rest.
Proof.
  revert pre; induction rest as [|x rest IH]; intros pre; simpl.
  - reflexivity.
  - destruct (ok x) eqn:Hx.
    + replace (pre ++ x :: rest) with ((pre ++ [x]) ++ rest)
        by now rewrite <- app_assoc.
      replace (S (length pre)) with (length (pre ++ [x]))
        by (rewrite length_app; simpl; lia).
      rewrite IH; now rewrite <- app_assoc.
    + rewrite firstn_app, Nat.sub_diag, firstn_all; reflexivity.
Qed.

Lemma truncate_at_gap_prefix (xs : list A) :
  truncate_at_gap ok xs = kept_prefix xs.
Proof. exact (truncate_loop_spec [] xs). Qed.

Lemma kept_prefix_all (l : list A) :
  forallb ok l = true -> kept_prefix l = l.
Proof.
  induction l as [|x l IH]; simpl; [reflexivity|].
  destruct (ok x); simpl; [intros; f_equal; auto|discriminate].
Qed.

Lemma kept_prefix_firstn (xs : list A) :
  kept_prefix xs = firstn (length (kept_prefix xs)) xs.
Proof.
  induction xs as [|x xs IH]; simpl; [reflexivity|].
  destruct (ok x); simpl; [now f_equal|reflexivity].
Qed.

Lemma kept_prefix_ok (xs : list A) : forallb ok (kept_prefix xs) = true.
Proof.
  induction xs as [|x xs IH]; simpl; [reflexivity|].
  destruct (ok x) eqn:E; simpl; [now rewrite E|reflexivity].
Qed.

Lemma kept_prefix_stop (xs : list A) (x : A) :
  nth_error xs (length (kept_prefix xs)) = Some x -> ok x = false.
Proof.
  induction xs as [|y xs IH]; simpl; [discriminate|].
  destruct (ok y) eqn:E; simpl; [exact IH|congruence].
Qed.

Lemma kept_prefix_length (xs : list A) :
  (length (kept_prefix xs) <= length xs)%nat.
Proof.
  induction xs as [|y xs IH]; simpl; [lia|].
  destruct (ok y); simpl; lia.
Qed.

(** The index-based description of the loop: it returns [xs[:i]] for the
    least index [i] whose record is refused, and [xs] when there is none. *)
Lemma truncate_at_gap_first (xs : list A) (i : nat) (x : A) :
  nth_error xs i = Some x -> ok x = false ->
  forallb ok (firstn i xs) = true ->
  truncate_at_gap ok xs = firstn i xs.
Proof.
  rewrite truncate_at_gap_prefix.
  revert i; induction xs as [|y xs IH]; intros [|i]; simpl; try discriminate.
  - intros [= ->] -> _; reflexivity.
  - intros Hn Hx; destruct (ok y); simpl; [|discriminate].
    intros Hp; f_equal; now apply IH.
Qed.

Lemma truncate_at_gap_all (xs : list A) :
  forallb ok xs = true -> truncate_at_gap ok xs = xs.
Proof.
  intros; rewrite truncate_at_gap_prefix; now apply kept_prefix_all.
Qed.

End TruncateFacts.

(** [max] returns a member of the list that no member exceeds. *)
Section PyMax.
Context {A K : Type} `{Ord K}.
Variable key : A -> K.

Lemma fold_max_spec (l : list A) (x : A) :
  let m := fold_left (fun best item =>
                        if ltb (key best) (key item) then item else best) l x in
  In m (x :: l) /\ leb (key x) (key m) = true /\
  Forall (fun y => leb (key y) (key m) = true) l.
Proof.
  revert x; induction l as [|y l IH]; intros x; simpl.
  - repeat split; [now left|apply leb_refl|constructor].
  - destruct (IH (if ltb (key x) (key y) then y else x)) as (Hin & Hle & Hall).
    destruct (ltb (key x) (key y)) eqn:E.
    + repeat split; [simpl in Hin; tauto| |constructor; assumption].
      eapply leb_trans; [apply ltb_leb, E|exact Hle].
    + repeat split; [simpl in Hin; tauto|assumption|constructor; [|assumption]].
      eapply leb_trans; [|exact Hle].
      rewrite leb_ltb, E; reflexivity.
Qed.

Lemma py_max_spec (l : list A) (m : A) :
  py_max (fun a b => ltb (key a) (key b)) l = Some m ->
  In m l /\ Forall (fun y => leb (key y) (key m) = true) l.
Proof.
  destruct l as [|x l]; simpl; [discriminate|].
  intros [= <-]; destruct (fold_max_spec l x) as (Hin & Hle & Hall).
  split; [exact Hin|constructor; assumption].
Qed.

Lemma py_max_nonempty (l : list A) :
  l <> [] -> exists m, py_max (fun a b => ltb (key a) (key b)) l = Some m.
Proof. destruct l; [congruence|simpl; eauto]. Qed.

End PyMax.

(** ** Object ids

    A BSON [ObjectId] is twelve bytes; MongoDB and [bson] compare ids byte by
    byte, [str(oid)] is the lower-case hexadecimal text and [ObjectId(s)]
    reads 24 hexadecimal digits back. *)

Fixpoint cmp_list {A} `{Ord A} (l1 l2 : list A) : comparison :=
  match l1, l2 with
  | [], [] => Eq
  | [], _ :: _ => Lt
  | _ :: _, [] => Gt
  | x :: l1', y :: l2' => lex (cmp x y) (cmp_list l1' l2')
  end.

#[export, refine] Instance Ord_list {A} `{Ord A} : Ord (list A) :=
  {| cmp := cmp_list |}.
Proof.
  - induction x as [|a x IH]; simpl; [reflexivity|now rewrite cmp_refl].
  - induction x as [|a x IH]; intros [|b y]; simpl; try congruence.
    unfold lex; destruct (cmp a b) eqn:E; try discriminate.
    intros Hl; apply cmp_eq in E; subst; f_equal; auto.
  - induction x as [|a x IH]; intros [|b y]; simpl; try reflexivity.
    unfold lex; rewrite (cmp_antisym a b), IH; now destruct (cmp a b).
  - induction x as [|a x IH]; intros [|b y] [|c z]; simpl; try congruence.
    unfold lex; destruct (cmp a b) eqn:H1; try discriminate;
      destruct (cmp b c) eqn:H2; try discriminate; intros Hx Hy.
    + apply cmp_eq in H1, H2; subst; rewrite cmp_refl; eauto.
    + apply cmp_eq in H1; subst; now rewrite H2.
    + apply cmp_eq in H2; subst; now rewrite H1.
    + now rewrite (cmp_trans _ _ _ H1 H2).
Defined.

Record ObjectId := mk_oid { oid_bytes : list Byte.byte }.

Definition byte_val (b : Byte.byte) : Z := Z.of_N (Byte.to_N b).

Lemma byte_val_inj (a b : Byte.byte) : byte_val a = byte_val b -> a = b.
Proof.
  unfold byte_val; intros E; apply N2Z.inj in E.
  generalize (f_equal Byte.of_N E); rewrite !Byte.of_to_N; congruence.
Qed.

Lemma oid_key_inj (a b : ObjectId) :
  map byte_val (oid_bytes a) = map byte_val (oid_bytes b) -> a = b.
Proof.
  destruct a as [x], b as [y]; simpl; intros E; f_equal.
  revert y E; induction x as [|a x IH]; intros [|b y]; simpl; try congruence.
  intros [= E1 E2]; f_equal; [now apply byte_val_inj|now apply IH].
Qed.

#[export] Instance Ord_ObjectId : Ord ObjectId :=
  Ord_via (fun o => map byte_val (oid_bytes o)) oid_key_inj.

Definition valid_oid (o : ObjectId) : Prop := length (oid_bytes o) = 12%nat.

Definition hex_digit (n : Z) : ascii :=
  if n <? 10 then ascii_of_nat (48 + Z.to_nat n)
  else ascii_of_nat (87 + Z.to_nat n).

Definition hex_val (c : ascii) : option Z :=
  let n := Z.of_nat (nat_of_ascii c) in
  if (48 <=? n) && (n <=? 57) then Some (n - 48)
  else if (97 <=? n) && (n <=? 102) then Some (n - 87)
  else if (65 <=? n) && (n <=? 70) then Some (n - 55)
  else None.

Fixpoint hex_of_bytes (l : list Byte.byte) : string :=
  match l with
  | [] => ""
  | b :: l' =>
      String (hex_digit (byte_val b / 16))
        (String (hex_digit (byte_val b mod 16)) (hex_of_bytes l'))
  end.

Fixpoint bytes_of_hex (s : string) : option (list Byte.byte) :=
  match s with
  | EmptyString => Some []
  | String _ EmptyString => None
  | String c1 (String c2 s') =>
      match hex_val c1, hex_val c2, bytes_of_hex s' with
      | Some h, Some l, Some bs =>
          match Byte.of_N (Z.to_N (16 * h + l)) with
          | Some b => Some (b :: bs)
          | None => None
          end
      | _, _, _ => None
      end
  end.

(** [str(oid)] and [ObjectId(s)]; the latter raises [InvalidId] ([None])
    unless [s] is 24 hexadecimal digits. *)
Definition oid_str (o : ObjectId) : string := hex_of_bytes (oid_bytes o).

Definition ObjectId_of_str (s : string) : option ObjectId :=
  if Nat.eqb (String.length s) 24 then
    match bytes_of_hex s with Some bs => Some (mk_oid bs) | None => None end
  else None.

Lemma byte_hex_roundtrip (b : Byte.byte) :
  match hex_val (hex_digit (byte_val b / 16)),
        hex_val (hex_digit (byte_val b mod 16)) with
  | Some h, Some l => Byte.of_N (Z.to_N (16 * h + l))
  | _, _ => None
  end = Some b.
Proof. destruct b; reflexivity. Qed.

Lemma bytes_hex_roundtrip (l : list Byte.byte) :
  bytes_of_hex (hex_of_bytes l) = Some l.
Proof.
  induction l as [|b l IH]; cbn [hex_of_bytes bytes_of_hex]; [reflexivity|].
  rewrite IH; generalize (byte_hex_roundtrip b).
  destruct (hex_val _); [|discriminate].
  destruct (hex_val _); [|discriminate].
  now intros ->.
Qed.

Lemma hex_of_bytes_length (l : list Byte.byte) :
  String.length (hex_of_bytes l) = (2 * length l)%nat.
Proof. induction l as [|b l IH]; simpl; [reflexivity|rewrite IH; lia]. Qed.

Lemma ObjectId_str_roundtrip (o : ObjectId) :
  valid_oid o -> ObjectId_of_str (oid_str o) = Some o.
Proof.
  unfold valid_oid, ObjectId_of_str, oid_str; intros Hv.
  rewrite hex_of_bytes_length, Hv; simpl.
  rewrite bytes_hex_roundtrip; now destruct o.
Qed.

(** [ObjectId('0' * 24)]. *)
Definition zero_ObjectId : ObjectId := mk_oid (repeat Byte.x00 12).

Lemma zero_oid_str : oid_str zero_ObjectId = zero_oid.
Proof. reflexivity. Qed.

(** ** [lib/utils.py]: values and their serialisation *)

(** The Python values that reach [to_dict]. A pydantic model is carried as
    the items of its [.dict()], keyed by field name. *)
#[warnings="-register-all"]
Inductive pyval :=
| PyNone
| PyInt (n : Z)
| PyStr (s : string)
| PyDatetime (t : datetime)
| PyDate (d : date)
| PyObjectId (o : ObjectId)
| PyDict (items : list (string * pyval))
| PyModel (fields : list (string * pyval))
| PyList (items : list pyval).

Definition dict := list (string * pyval).

Fixpoint dict_get (k : string) (d : dict) : option pyval :=
  match d with
  | [] => None
  | (k', v) :: d' => if String.eqb k' k then Some v else dict_get k d'
  end.

(** [d[k] = v]. *)
Fixpoint dict_set (k : string) (v : pyval) (d : dict) : dict :=
  match d with
  | [] => [(k, v)]
  | (k', v') :: d' =>
      if String.eqb k' k then (k, v) :: d' else (k', v') :: dict_set k v d'
  end.

(** Decimal digits, [%02d] and [%04d]. *)
Definition digit (n : Z) : ascii := ascii_of_nat (48 + Z.to_nat n).

Definition digit_val (c : ascii) : option Z :=
  let n := Z.of_nat (nat_of_ascii c) in
  if (48 <=? n) && (n <=? 57) then Some (n - 48) else None.

Definition pad2 (n : Z) : list ascii := [digit (n / 10); digit (n mod 10)].

Definition pad4 (n : Z) : list ascii :=
  [digit (n / 1000); digit (n / 100 mod 10); digit (n / 10 mod 10);
   digit (n mod 10)].

(** [obj.strftime("%Y-%m-%d %H:%M:%S")] and [obj.strftime("%Y-%m-%d")]. *)
Definition strftime_datetime (t : datetime) : string :=
  string_of_list_ascii
    (pad4 (year t) ++ ["-"%char] ++ pad2 (month t) ++ ["-"%char] ++
     pad2 (day t) ++ [" "%char] ++ pad2 (hour t) ++ [":"%char] ++
     pad2 (minute t) ++ [":"%char] ++ pad2 (second t)).

Definition strftime_date (d : date) : string :=
  string_of_list_ascii
    (pad4 (d_year d) ++ ["-"%char] ++ pad2 (d_month d) ++ ["-"%char] ++
     pad2 (d_day d)).

Fixpoint to_dict (obj : pyval) : pyval :=
  match obj with
  | PyDatetime t => PyStr (strftime_datetime t)
  | PyDate d => PyStr (strftime_date d)
  | PyObjectId o => PyStr (oid_str o)
  | PyDict items =>
      PyDict (map (fun kv => (fst kv, to_dict (snd kv))) items)
  | PyModel fields =>
      PyDict (map (fun kv => (fst kv, to_dict (snd kv))) fields)
  | PyList items => PyList (map to_dict items)
  | PyNone | PyInt _ | PyStr _ => obj
  end.

(** [json.dumps(..., sort_keys=True)]: the JSON text is represented by the
    value it denotes, every object with its keys in order. *)
Fixpoint sort_keys (v : pyval) : pyval :=
  match v with
  | PyDict items =>
      PyDict (order_by fst (map (fun kv => (fst kv, sort_keys (snd kv))) items))
  | PyList items => PyList (map sort_keys items)
  | _ => v
  end.

Definition json2str (obj : pyval) : pyval := sort_keys (to_dict obj).

(** ** pydantic: reading a field

    Strings in the layout that [strftime] writes are read back by the
    [datetime] and [date] validators; out-of-range fields raise. *)

Definition num2 (a b : ascii) : option Z :=
  match digit_val a, digit_val b with
  | Some x, Some y => Some (10 * x + y)
  | _, _ => None
  end.

Definition num4 (a b c d : ascii) : option Z :=
  match num2 a b, num2 c d with
  | Some x, Some y => Some (100 * x + y)
  | _, _ => None
  end.

Definition in_range (lo hi n : Z) : bool := (lo <=? n) && (n <=? hi).

Definition parse_date_chars (l : list ascii) : option date :=
  match l with
  | [y1; y2; y3; y4; s1; m1; m2; s2; d1; d2] =>
      match num4 y1 y2 y3 y4, num2 m1 m2, num2 d1 d2 with
      | Some y, Some m, Some d =>
          if Ascii.eqb s1 "-" && Ascii.eqb s2 "-" && in_range 1 9999 y &&
             in_range 1 12 m && in_range 1 31 d
          then Some (mk_date y m d) else None
      | _, _, _ => None
      end
  | _ => None
  end.

Definition parse_time_chars (l : list ascii) : option (Z * Z * Z) :=
  match l with
  | [h1; h2; c1; m1; m2; c2; s1; s2] =>
      match num2 h1 h2, num2 m1 m2, num2 s1 s2 with
      | Some h, Some m, Some s =>
          if Ascii.eqb c1 ":" && Ascii.eqb c2 ":" && in_range 0 23 h &&
             in_range 0 59 m && in_range 0 59 s
          then Some (h, m, s) else None
      | _, _, _ => None
      end
  | _ => None
  end.

Definition parse_date (s : string) : option date :=
  parse_date_chars (list_ascii_of_string s).

Definition parse_datetime (s : string) : option datetime :=
  let l := list_ascii_of_string s in
  match parse_date_chars (firstn 10 l), skipn 10 l with
  | Some d, sep :: tl =>
      if Ascii.eqb sep " " || Ascii.eqb sep "T" then
        match parse_time_chars tl with
        | Some (h, m, sec) =>
            Some (mk_datetime (d_year d) (d_month d) (d_day d) h m sec 0)
        | None => None
        end
      else None
  | _, _ => None
  end.

Definition as_datetime (v : pyval) : option datetime :=
  match v with
  | PyDatetime t => Some t
  | PyStr s => parse_datetime s
  | _ => None
  end.

Definition as_date (v : pyval) : option date :=
  match v with
  | PyDate d => Some d
  | PyDatetime t => Some (mk_date (year t) (month t) (day t))
  | PyStr s => parse_date s
  | _ => None
  end.

Definition as_str (v : pyval) : option string :=
  match v with PyStr s => Some s | _ => None end.

Definition as_int (v : pyval) : option Z :=
  match v with PyInt n => Some n | _ => None end.

(** The [pre=True] validator of the staging order settings, [ObjectId(oid)]. *)
Definition as_ObjectId (v : pyval) : option ObjectId :=
  match v with
  | PyObjectId o => Some o
  | PyStr s => ObjectId_of_str s
  | _ => None
  end.

(** A field declared [Field(alias=..., default=...)] in a model with
    [allow_population_by_field_name]: the alias is looked up first, then the
    field name; a missing value takes the default, and a required field
    ([default = None] here) raises [ValidationError]. *)
Definition field {T} (alias name : string) (conv : pyval -> option T)
  (default : option T) (kwargs : dict) : option T :=
  match dict_get alias kwargs with
  | Some v => conv v
  | None =>
      match dict_get name kwargs with
      | Some v => conv v
      | None => default
      end
  end.

(** Whole seconds of a timestamp: what the serialised text retains. *)
Definition whole_seconds (t : datetime) : datetime :=
  mk_datetime (year t) (month t) (day t) (hour t) (minute t) (second t) 0.

Lemma digit_val_digit (n : Z) : 0 <= n <= 9 -> digit_val (digit n) = Some n.
Proof.
  intros Hn; rewrite <- (Z2Nat.id n) by lia.
  assert (Hk : (Z.to_nat n < 10)%nat) by lia.
  remember (Z.to_nat n) as k eqn:Ek; clear Ek Hn.
  do 10 (destruct k as [|k]; [reflexivity|]); lia.
Qed.

Lemma num2_pad2 (n : Z) :
  0 <= n <= 99 -> num2 (digit (n / 10)) (digit (n mod 10)) = Some n.
Proof.
  intros Hn; unfold num2.
  rewrite !digit_val_digit by (Z.to_euclidean_division_equations; lia).
  f_equal; Z.to_euclidean_division_equations; lia.
Qed.

Lemma num4_pad4 (n : Z) :
  0 <= n <= 9999 ->
  num4 (digit (n / 1000)) (digit (n / 100 mod 10)) (digit (n / 10 mod 10))
       (digit (n mod 10)) = Some n.
Proof.
  intros Hn; unfold num4, num2.
  rewrite !digit_val_digit by (Z.to_euclidean_division_equations; lia).
  f_equal; Z.to_euclidean_division_equations; lia.
Qed.

Lemma in_range_true (lo hi n : Z) : lo <= n <= hi -> in_range lo hi n = true.
Proof. unfold in_range; intros; apply andb_true_iff; split; lia. Qed.

Lemma parse_strftime_date (d : date) :
  valid_date d -> parse_date (strftime_date d) = Some d.
Proof.
  intros (Hy & Hm & Hd); unfold parse_date, strftime_date.
  rewrite list_ascii_of_string_of_list_ascii.
  cbn [pad4 pad2 app parse_date_chars].
  rewrite num4_pad4, !num2_pad2 by lia.
  rewrite !in_range_true by lia.
  now destruct d.
Qed.

Lemma parse_strftime_datetime (t : datetime) :
  valid_datetime t -> parse_datetime (strftime_datetime t) = Some (whole_seconds t).
Proof.
  intros (Hy & Hmo & Hd & Hh & Hmi & Hs & _).
  unfold parse_datetime, strftime_datetime.
  rewrite list_ascii_of_string_of_list_ascii.
  cbn [pad4 pad2 app firstn skipn parse_date_chars parse_time_chars].
  rewrite num4_pad4, !num2_pad2 by lia.
  rewrite !in_range_true by lia.
  reflexivity.
Qed.

(** Timestamps that differ below the second have the same text. *)
Lemma strftime_whole_seconds (t : datetime) :
  strftime_datetime (whole_seconds t) = strftime_datetime t.
Proof. reflexivity. Qed.

(** ** [lib/connect.py], [lib/crud.py]: connections and statements

    A run talks to a source it only reads and to a destination it writes
    inside one transaction. [committed] is the durable destination,
    [working] the destination as the open transaction sees it. Every call
    to a database (connect, execute, commit) is a step; [fails] tells which
    steps raise. *)

Inductive exn :=
| DatabaseError (step : nat)
| ValidationError
| ValueError.

Inductive result (A : Type) :=
| Ok (a : A)
| Raise (e : exn).

Arguments Ok {A} a.
Arguments Raise {A} e.

Record world (S T : Type) := mk_world {
  source : S;
  committed : T;
  working : T;
  steps : nat
}.

Arguments mk_world {S T}.

Definition M (S T A : Type) := world S T -> result A * world S T.

Definition ret {S T A} (a : A) : M S T A := fun w => (Ok a, w).

Definition bind {S T A B} (m : M S T A) (k : A -> M S T B) : M S T B :=
  fun w => match m w with
           | (Ok a, w') => k a w'
           | (Raise e, w') => (Raise e, w')
           end.

Definition raise {S T A} (e : exn) : M S T A := fun w => (Raise e, w).

(** A pydantic constructor or a builtin that may raise. *)
Definition lift {S T A} (e : exn) (o : option A) : M S T A :=
  match o with Some a => ret a | None => raise e end.

Notation "x <- m ;; k" := (bind m (fun x => k))
  (at level 61, m at next level, right associativity).
Notation "m ;;; k" := (bind m (fun _ => k))
  (at level 61, right associativity).

Fixpoint for_each {S T A} (f : A -> M S T unit) (l : list A) : M S T unit :=
  match l with
  | [] => ret tt
  | x :: l' => f x ;;; for_each f l'
  end.

Section Connections.
Context {S T : Type}.
Variable fails : nat -> bool.

Definition db_call {A} (f : world S T -> A * world S T) : M S T A :=
  fun w =>
    let w' := mk_world (source w) (committed w) (working w) (Datatypes.S (steps w)) in
    if fails (steps w) then (Raise (DatabaseError (steps w)), w')
    else let (a, w'') := f w' in (Ok a, w'').

(** [PgReader.list], [MongoReader.list], [HttpReader.list] on the source. *)
Definition source_list {A} (q : S -> A) : M S T A :=
  db_call (fun w => (q (source w), w)).

(** [PgReader.retrieve] on the destination connection. *)
Definition target_retrieve {A} (q : T -> A) : M S T A :=
  db_call (fun w => (q (working w), w)).

(** [PgSaver.insert]: [cur.execute(query, params)] on the destination. *)
Definition target_insert (stmt : T -> T) : M S T unit :=
  db_call (fun w =>
    (tt, mk_world (source w) (committed w) (stmt (working w)) (steps w))).

Definition connect : M S T unit := db_call (fun w => (tt, w)).

Definition target_commit : M S T unit :=
  db_call (fun w =>
    (tt, mk_world (source w) (working w) (working w) (steps w))).

Definition target_rollback (w : world S T) : world S T :=
  mk_world (source w) (committed w) (committed w) (steps w).

Definition source_commit : M S T unit := db_call (fun w => (tt, w)).

(** [PgConnect.connection] for the destination:
<<
    conn = self.client()
    try:
        yield conn
        conn.commit()
    except Exception as e:
        conn.rollback()
        raise e
    finally:
        conn.close()
>> *)
Definition target_connection {A} (body : M S T A) : M S T A :=
  fun w =>
    match connect w with
    | (Raise e, w0) => (Raise e, w0)
    | (Ok _, w0) =>
        match body w0 with
        | (Ok a, w1) =>
            match target_commit w1 with
            | (Ok _, w2) => (Ok a, w2)
            | (Raise e, w2) => (Raise e, target_rollback w2)
            end
        | (Raise e, w1) => (Raise e, target_rollback w1)
        end
    end.

(** The same scope around a PostgreSQL source, which the run never writes
    (its commit and rollback leave the data as it is). *)
Definition source_connection {A} (body : M S T A) : M S T A :=
  fun w =>
    match connect w with
    | (Raise e, w0) => (Raise e, w0)
    | (Ok _, w0) =>
        match body w0 with
        | (Ok a, w1) =>
            match source_commit w1 with
            | (Ok _, w2) => (Ok a, w2)
            | (Raise e, w2) => (Raise e, w2)
            end
        | (Raise e, w1) => (Raise e, w1)
        end
    end.

(** [with origin.connection() as source, dest.connection() as target:] *)
Definition with_connections {A} (body : M S T A) : M S T A :=
  source_connection (target_connection body).

(** The world a run starts in: nothing pending, no call made. *)
Definition start (src : S) (dst : T) : world S T := mk_world src dst dst 0.

(** No statement touches the durable destination. *)
Definition keeps_committed {A} (m : M S T A) : Prop :=
  forall w, committed (snd (m w)) = committed w.

Lemma keeps_ret {A} (a : A) : keeps_committed (ret a).
Proof. intros w; reflexivity. Qed.

Lemma keeps_raise {A} (e : exn) : keeps_committed (@raise S T A e).
Proof. intros w; reflexivity. Qed.

Lemma keeps_lift {A} (e : exn) (o : option A) : keeps_committed (lift e o).
Proof. destruct o; [apply keeps_ret|apply keeps_raise]. Qed.

Lemma keeps_bind {A B} (m : M S T A) (k : A -> M S T B) :
  keeps_committed m -> (forall a, keeps_committed (k a)) ->
  keeps_committed (bind m k).
Proof.
  intros Hm Hk w; unfold bind.
  generalize (Hm w); destruct (m w) as [[a|e] w']; simpl; intros <-;
    [apply Hk|reflexivity].
Qed.

Lemma keeps_db_call {A} (f : world S T -> A * world S T) :
  (forall w, committed (snd (f w)) = committed w) ->
  keeps_committed (db_call f).
Proof.
  intros Hf w; unfold db_call.
  destruct (fails (steps w)); simpl; [reflexivity|].
  match goal with |- context [f ?x] => generalize (Hf x); destruct (f x) end.
  simpl; auto.
Qed.

Lemma keeps_source_list {A} (q : S -> A) : keeps_committed (source_list q).
Proof. apply keeps_db_call; reflexivity. Qed.

Lemma keeps_target_retrieve {A} (q : T -> A) :
  keeps_committed (target_retrieve q).
Proof. apply keeps_db_call; reflexivity. Qed.

Lemma keeps_target_insert (stmt : T -> T) : keeps_committed (target_insert stmt).
Proof. apply keeps_db_call; reflexivity. Qed.

Lemma keeps_for_each {A} (f : A -> M S T unit) (l : list A) :
  (forall a, keeps_committed (f a)) -> keeps_committed (for_each f l).
Proof.
  intros Hf; induction l as [|x l IH]; simpl;
    [apply keeps_ret|apply keeps_bind; auto].
Qed.

(** Inside the destination scope, an exception of the body or of the commit
    leaves the durable destination as it was. *)
Lemma target_connection_raise {A} (body : M S T A) (w w' : world S T) (e : exn) :
  keeps_committed body ->
  target_connection body w = (Raise e, w') -> committed w' = committed w.
Proof.
  intros Hb; unfold target_connection.
  generalize (keeps_db_call (fun w => (tt, w)) (fun _ => eq_refl) w).
  fold connect; destruct (connect w) as [[[]|e0] w0]; simpl; intros Hc.
  - generalize (Hb w0); destruct (body w0) as [[a|e1] w1]; simpl; intros H1.
    + unfold target_commit, db_call.
      destruct (fails (steps w1)); [|discriminate].
      intros [= _ <-]; simpl; congruence.
    + intros [= _ <-]; simpl; congruence.
  - intros [= _ <-]; exact Hc.
Qed.

(** A scope that returns has run its body to the end and committed what the
    body left in the transaction. *)
Lemma target_connection_ok {A} (body : M S T A) (w w' : world S T) (a : A) :
  target_connection body w = (Ok a, w') ->
  exists w0 w1, connect w = (Ok tt, w0) /\ body w0 = (Ok a, w1) /\
                committed w' = working w1 /\ working w' = working w1 /\
                source w' = source w1.
Proof.
  unfold target_connection.
  destruct (connect w) as [[[]|e0] w0]; [|discriminate].
  destruct (body w0) as [[a'|e1] w1] eqn:Eb; [|discriminate].
  unfold target_commit, db_call.
  destruct (fails (steps w1)); [discriminate|].
  intros [= -> <-]; exists w0, w1; simpl; repeat split; auto.
Qed.

End Connections.

(** *** Reading off what a returning computation has done *)

Section Inversion.
Context {S T : Type}.
Variable fails : nat -> bool.

Lemma bind_ok {A B} (m : M S T A) (k : A -> M S T B) (w w' : world S T) (b : B) :
  bind m k w = (Ok b, w') ->
  exists a w1, m w = (Ok a, w1) /\ k a w1 = (Ok b, w').
Proof.
  unfold bind; destruct (m w) as [[a|e] w1]; [|discriminate].
  intros Hk; now exists a, w1.
Qed.

Lemma lift_ok {A} (e : exn) (o : option A) (w w' : world S T) a :
  lift e o w = (Ok a, w') -> o = Some a /\ w' = w.
Proof. destruct o; simpl; unfold ret, raise; intros [= <- <-]; auto. Qed.

Lemma db_call_ok {A} (f : world S T -> A * world S T) (w w' : world S T) (a : A) :
  db_call fails f w = (Ok a, w') ->
  fails (steps w) = false /\
  f (mk_world (source w) (committed w) (working w) (Datatypes.S (steps w))) = (a, w').
Proof.
  unfold db_call; destruct (fails (steps w)); [discriminate|].
  destruct (f _) as [a0 w0]; intros [= <- <-]; auto.
Qed.

Lemma target_insert_ok (stmt : T -> T) (w w' : world S T) (u : unit) :
  target_insert fails stmt w = (Ok u, w') ->
  source w' = source w /\ committed w' = committed w /\
  working w' = stmt (working w).
Proof.
  intros H; apply db_call_ok in H; destruct H as [_ [= _ <-]]; simpl; auto.
Qed.

Lemma target_retrieve_ok {A} (q : T -> A) (w w' : world S T) (a : A) :
  target_retrieve fails q w = (Ok a, w') ->
  source w' = source w /\ committed w' = committed w /\
  working w' = working w /\ a = q (working w).
Proof.
  intros H; apply db_call_ok in H; destruct H as [_ [= <- <-]]; simpl; auto.
Qed.

Lemma source_list_ok {A} (q : S -> A) (w w' : world S T) (a : A) :
  source_list fails q w = (Ok a, w') ->
  source w' = source w /\ committed w' = committed w /\
  working w' = working w /\ a = q (source w).
Proof.
  intros H; apply db_call_ok in H; destruct H as [_ [= <- <-]]; simpl; auto.
Qed.

Lemma for_each_insert_ok {A} (g : A -> T -> T) (l : list A) (w w' : world S T) (u : unit) :
  for_each (fun x => target_insert fails (g x)) l w = (Ok u, w') ->
  source w' = source w /\ committed w' = committed w /\
  working w' = fold_left (fun d x => g x d) l (working w).
Proof.
  revert w; induction l as [|x l IH]; simpl; intros w.
  - unfold ret; intros [= _ <-]; auto.
  - intros H; apply bind_ok in H; destruct H as (u1 & w1 & H1 & H2).
    apply target_insert_ok in H1; destruct H1 as (Hs & Hc & Hw).
    apply IH in H2; destruct H2 as (Hs' & Hc' & Hw').
    rewrite Hs', Hc', Hw', Hs, Hc, Hw; auto.
Qed.

(** A run is a body inside the two scopes. If a body that returns has
    turned the open transaction [d] into [eff src d] and no statement
    touches the durable destination, then the run commits [eff src d] when
    it returns, and on any outcome leaves the durable destination as it was
    or as [eff src d] makes it. *)
Definition body_effect {A} (src : S) (body : M S T A)
  (eff : S -> T -> option T) : Prop :=
  forall w w' a, source w = src -> body w = (Ok a, w') ->
    eff src (working w) = Some (working w').

Lemma with_connections_ok {A} (body : M S T A) (eff : S -> T -> option T)
  (src : S) (d : T) (a : A) (w' : world S T) :
  body_effect src body eff ->
  with_connections fails body (start src d) = (Ok a, w') ->
  eff src d = Some (committed w').
Proof.
  intros He; unfold with_connections, source_connection.
  destruct (connect fails (start src d)) as [[[]|e0] w0] eqn:Ec; [|discriminate].
  apply db_call_ok in Ec; destruct Ec as [_ [= <-]].
  destruct (target_connection _ _ _) as [[a'|e1] w1] eqn:Et; [|discriminate].
  apply target_connection_ok in Et.
  destruct Et as (w2 & w3 & Hc2 & Hb & Hcm & _ & _).
  apply db_call_ok in Hc2; destruct Hc2 as [_ [= <-]].
  apply He in Hb; [|reflexivity]; simpl in Hb.
  unfold source_commit; intros H.
  destruct (db_call _ _ w1) as [[[]|e2] w4] eqn:Es; [|discriminate].
  apply db_call_ok in Es; destruct Es as [_ [= <-]].
  injection H as _ <-; simpl; congruence.
Qed.

Lemma with_connections_atomic {A} (body : M S T A) (eff : S -> T -> option T)
  (src : S) (d : T) (r : result A) (w' : world S T) :
  keeps_committed body -> body_effect src body eff ->
  with_connections fails body (start src d) = (r, w') ->
  committed w' = d \/ eff src d = Some (committed w').
Proof.
  intros Hk He; destruct r as [a|e];
    [right; eapply with_connections_ok; eauto|].
  unfold with_connections, source_connection.
  destruct (connect fails (start src d)) as [[[]|e0] w0] eqn:Ec.
  - apply db_call_ok in Ec; destruct Ec as [_ [= <-]].
    destruct (target_connection _ _ _) as [[a|e1] w1] eqn:Et.
    + apply target_connection_ok in Et.
      destruct Et as (w2 & w3 & Hc2 & Hb & Hcm & _ & _).
      apply db_call_ok in Hc2; destruct Hc2 as [_ [= <-]].
      apply He in Hb; [|reflexivity]; simpl in Hb.
      unfold source_commit, db_call.
      destruct (fails (steps w1)); intros [= _ <-]; simpl; right; congruence.
    + apply target_connection_raise in Et; [|assumption].
      intros [= _ <-]; left; exact Et.
  - unfold connect, db_call in Ec; simpl in Ec.
    destruct (fails 0); inversion Ec; subst.
    intros [= _ <-]; left; reflexivity.
Qed.

(** Without a failing step the calls return. *)
Hypothesis no_fault : forall n, fails n = false.

Lemma db_call_run {A} (f : world S T -> A * world S T) (w : world S T) :
  db_call fails f w =
  (Ok (fst (f (mk_world (source w) (committed w) (working w) (Datatypes.S (steps w))))),
   snd (f (mk_world (source w) (committed w) (working w) (Datatypes.S (steps w))))).
Proof. unfold db_call; rewrite no_fault; now destruct (f _). Qed.

Lemma for_each_insert_run {A} (g : A -> T -> T) (l : list A) (w : world S T) :
  for_each (fun x => target_insert fails (g x)) l w =
  (Ok tt, mk_world (source w) (committed w)
            (fold_left (fun d x => g x d) l (working w))
            (length l + steps w)).
Proof.
  revert w; induction l as [|x l IH]; simpl; intros w.
  - now destruct w.
  - unfold bind, target_insert at 1; rewrite db_call_run; simpl.
    rewrite IH; simpl; do 2 f_equal; lia.
Qed.

Lemma bind_raise {A B} (m : M S T A) (k : A -> M S T B) (w w' : world S T)
  (e : exn) :
  bind m k w = (Raise e, w') ->
  m w = (Raise e, w') \/ exists a w1, m w = (Ok a, w1) /\ k a w1 = (Raise e, w').
Proof.
  unfold bind; destruct (m w) as [[a|e0] w1]; intros H; [right; eauto|].
  injection H as -> ->; now left.
Qed.

Lemma lift_raise {A} (e0 e : exn) (o : option A) (w w' : world S T) :
  lift e0 o w = (Raise e, w') -> o = None.
Proof. destruct o; simpl; unfold ret; [discriminate|reflexivity]. Qed.

Lemma db_call_no_raise {A} (f : world S T -> A * world S T) (w w' : world S T)
  (e : exn) : db_call fails f w = (Raise e, w') -> False.
Proof. rewrite db_call_run; discriminate. Qed.

Lemma for_each_insert_no_raise {A} (g : A -> T -> T) (l : list A)
  (w w' : world S T) (e : exn) :
  for_each (fun x => target_insert fails (g x)) l w = (Raise e, w') -> False.
Proof. rewrite for_each_insert_run; discriminate. Qed.

End Inversion.

(** ** Tables and upserts *)

(** A table with a serial [id]: its rows and the last value of the
    sequence. The sequence advances on every INSERT, also when the row is
    then diverted by ON CONFLICT. *)
Record table (Row : Type) := mk_table { rows : list Row; seq : Z }.

Arguments mk_table {Row}.

(** [INSERT ... ON CONFLICT (key) DO UPDATE SET ...] (or [DO NOTHING] with
    [update] the identity): [conflict] recognises the row that holds the
    key of the new one. *)
Fixpoint upsert_rows {Row} (conflict : Row -> bool) (update : Row -> Row)
  (new : Row) (l : list Row) : list Row :=
  match l with
  | [] => [new]
  | r :: l' =>
      if conflict r then update r :: l'
      else r :: upsert_rows conflict update new l'
  end.

Definition insert_on_conflict {Row} (conflict : Row -> bool)
  (update : Row -> Row) (new : Z -> Row) (t : table Row) : table Row :=
  mk_table (upsert_rows conflict update (new (seq t + 1)) (rows t)) (seq t + 1).

(** ** [lib/etl_settings_repository.py] *)

(** A row of [srv_wf_settings]; the JSON column holds what [json2str] wrote. *)
Record SettingsRow := mk_SettingsRow {
  row_id : Z;
  row_workflow_key : string;
  row_workflow_settings : pyval
}.

Record EtlSetting := mk_EtlSetting {
  id : Z;
  workflow_key : string;
  workflow_settings : dict
}.

(** [class_row(EtlSetting)]: the JSON column must be an object. *)
Definition EtlSetting_of_row (r : SettingsRow) : option EtlSetting :=
  match row_workflow_settings r with
  | PyDict items => Some (mk_EtlSetting (row_id r) (row_workflow_key r) items)
  | _ => None
  end.

Definition select_setting (wf_key : string) (t : table SettingsRow) :
  option SettingsRow :=
  find (fun r => String.eqb (row_workflow_key r) wf_key) (rows t).

Definition upsert_setting (wf_key : string) (blob : pyval)
  (t : table SettingsRow) : table SettingsRow :=
  insert_on_conflict
    (fun r => String.eqb (row_workflow_key r) wf_key)
    (fun r => mk_SettingsRow (row_id r) (row_workflow_key r) blob)
    (fun i => mk_SettingsRow i wf_key blob) t.

(** The destination of a loader: the table it fills and the checkpoint
    table of the same schema. *)
Record dest (Row : Type) := mk_dest {
  dest_table : table Row;
  srv_wf_settings : table SettingsRow
}.

Arguments mk_dest {Row}.

Section Repository.
Context {S Row : Type}.
Variable fails : nat -> bool.

Definition get_setting (wf_key : string) : M S (dest Row) EtlSetting :=
  etl_setting <- target_retrieve fails
                   (fun d => select_setting wf_key (srv_wf_settings d)) ;;
  match etl_setting with
  | Some r => lift ValidationError (EtlSetting_of_row r)
  | None => ret (mk_EtlSetting 0 wf_key [])
  end.

Definition save_setting (wf_key : string) (wf_settings : pyval) :
  M S (dest Row) unit :=
  let wf_settings_json := json2str wf_settings in
  target_insert fails
    (fun d => mk_dest (dest_table d)
                (upsert_setting wf_key wf_settings_json (srv_wf_settings d))).

End Repository.

(** What [save_setting] leaves in the table, read back as the next
    [get_setting] and the settings constructor read it. *)
Definition save_then_load {St} (dict_of : St -> dict)
  (init : dict -> option St) (wf_key : string) (st : St)
  (t : table SettingsRow) : option St :=
  match select_setting wf_key
          (upsert_setting wf_key (json2str (PyModel (dict_of st))) t) with
  | Some r =>
      match EtlSetting_of_row r with
      | Some e => init (workflow_settings e)
      | None => None
      end
  | None => init []
  end.

Lemma select_upsert_rows (wf_key : string) (blob : pyval) (i : Z)
  (l : list SettingsRow) :
  exists j,
    find (fun r => String.eqb (row_workflow_key r) wf_key)
      (upsert_rows (fun r => String.eqb (row_workflow_key r) wf_key)
         (fun r => mk_SettingsRow (row_id r) (row_workflow_key r) blob)
         (mk_SettingsRow i wf_key blob) l) =
    Some (mk_SettingsRow j wf_key blob).
Proof.
  induction l as [|r l IH]; simpl.
  - rewrite String.eqb_refl; eauto.
  - destruct (String.eqb (row_workflow_key r) wf_key) eqn:E; simpl.
    + rewrite E; apply String.eqb_eq in E; rewrite E; eauto.
    + now rewrite E.
Qed.

Lemma save_then_load_blob {St} (dict_of : St -> dict)
  (init : dict -> option St) (wf_key : string) (st : St)
  (t : table SettingsRow) (items : dict) :
  json2str (PyModel (dict_of st)) = PyDict items ->
  save_then_load dict_of init wf_key st t = init items.
Proof.
  intros Hb; unfold save_then_load; rewrite Hb.
  unfold select_setting, upsert_setting, insert_on_conflict; simpl rows.
  destruct (select_upsert_rows wf_key (PyDict items) (seq t + 1) (rows t))
    as [j ->].
  reflexivity.
Qed.

(** ** The single-batch driver

    Every [Loader.run] of the staging and dimensional layers is the same
    text up to the names of its model, settings and workflow; the section
    is that text, its variables are what differs. [prepare] is the
    adjustment of the stored settings made by the loaders that take a
    [start_date] (the identity elsewhere). *)

Section SingleBatch.
Context {S Row Obj Settings : Type}.
Variable WF_KEY : string.
Variable BATCH_LIMIT : nat.
Variable prepare : dict -> dict.
Variable Settings_init : dict -> option Settings.
Variable Settings_dict : Settings -> dict.
Variable list_objs : Settings -> nat -> S -> list Obj.
Variable insert_obj : Obj -> table Row -> table Row.
Variable Obj_lt : Obj -> Obj -> bool.
Variable Obj_dict : Obj -> dict.
Variable fails : nat -> bool.

Definition insert_into_dest (o : Obj) (d : dest Row) : dest Row :=
  mk_dest (insert_obj o (dest_table d)) (srv_wf_settings d).

Definition loader_body : M S (dest Row) unit :=
  wf_setting <- get_setting fails WF_KEY ;;
  settings <- lift ValidationError
                (Settings_init (prepare (workflow_settings wf_setting))) ;;
  load_queue <- source_list fails (list_objs settings BATCH_LIMIT) ;;
  match load_queue with
  | [] => ret tt
  | _ :: _ =>
      for_each (fun o => target_insert fails (insert_into_dest o)) load_queue ;;;
      last_loaded <- lift ValueError (py_max Obj_lt load_queue) ;;
      settings' <- lift ValidationError (Settings_init (Obj_dict last_loaded)) ;;
      save_setting fails (workflow_key wf_setting)
        (PyModel (Settings_dict settings'))
  end.

Definition loader_run : M S (dest Row) unit := with_connections fails loader_body.

(** *** What a run makes durable *)

Definition stored_setting (d : dest Row) : option EtlSetting :=
  match select_setting WF_KEY (srv_wf_settings d) with
  | Some r => EtlSetting_of_row r
  | None => Some (mk_EtlSetting 0 WF_KEY [])
  end.

(** The watermark a run starts from. *)
Definition checkpoint (d : dest Row) : option Settings :=
  match stored_setting d with
  | Some e => Settings_init (prepare (workflow_settings e))
  | None => None
  end.

(** The batch a run reads. *)
Definition batch (src : S) (d : dest Row) : option (list Obj) :=
  match checkpoint d with
  | Some st => Some (list_objs st BATCH_LIMIT src)
  | None => None
  end.

Definition write_all (l : list Obj) (d : dest Row) : dest Row :=
  fold_left (fun d o => insert_into_dest o d) l d.

Definition advance (wf_key : string) (st : Settings) (d : dest Row) : dest Row :=
  mk_dest (dest_table d)
    (upsert_setting wf_key (json2str (PyModel (Settings_dict st)))
       (srv_wf_settings d)).

(** The destination after a run that returned; [None] when a validator
    raises on the stored settings or on the last record. *)
Definition after_run (src : S) (d : dest Row) : option (dest Row) :=
  match stored_setting d with
  | None => None
  | Some e =>
      match Settings_init (prepare (workflow_settings e)) with
      | None => None
      | Some st =>
          match list_objs st BATCH_LIMIT src with
          | [] => Some d
          | load_queue =>
              match py_max Obj_lt load_queue with
              | None => None
              | Some last_loaded =>
                  match Settings_init (Obj_dict last_loaded) with
                  | None => None
                  | Some st' =>
                      Some (advance (workflow_key e) st' (write_all load_queue d))
                  end
              end
          end
      end
  end.

Lemma get_setting_ok (wf_key : string) (w w' : world S (dest Row)) (e : EtlSetting) :
  get_setting fails wf_key w = (Ok e, w') ->
  source w' = source w /\ committed w' = committed w /\
  working w' = working w /\
  match select_setting wf_key (srv_wf_settings (working w)) with
  | Some r => EtlSetting_of_row r
  | None => Some (mk_EtlSetting 0 wf_key [])
  end = Some e.
Proof.
  unfold get_setting; intros H.
  apply bind_ok in H; destruct H as (r & w1 & H1 & H2).
  apply target_retrieve_ok in H1; destruct H1 as (Hs & Hc & Hw & ->).
  destruct (select_setting _ _).
  - apply lift_ok in H2; destruct H2 as [-> ->]; auto.
  - unfold ret in H2; injection H2 as <- <-; auto.
Qed.

Lemma loader_body_ok (w w' : world S (dest Row)) (u : unit) :
  loader_body w = (Ok u, w') ->
  source w' = source w /\ committed w' = committed w /\
  after_run (source w) (working w) = Some (working w').
Proof.
  unfold loader_body, after_run, stored_setting; intros H.
  apply bind_ok in H; destruct H as (e & w1 & H1 & H).
  apply get_setting_ok in H1; destruct H1 as (Hs1 & Hc1 & Hw1 & ->).
  apply bind_ok in H; destruct H as (st & w2 & H2 & H).
  apply lift_ok in H2; destruct H2 as [-> ->].
  apply bind_ok in H; destruct H as (q & w3 & H3 & H).
  apply source_list_ok in H3; destruct H3 as (Hs3 & Hc3 & Hw3 & ->).
  rewrite Hs1 in H.
  destruct (list_objs st BATCH_LIMIT (source w)) as [|o l] eqn:El.
  - unfold ret in H; injection H as _ <-.
    rewrite Hs3, Hc3, Hw3, Hs1, Hc1, Hw1; auto.
  - apply bind_ok in H; destruct H as (u4 & w4 & H4 & H).
    apply for_each_insert_ok in H4; destruct H4 as (Hs4 & Hc4 & Hw4).
    apply bind_ok in H; destruct H as (m & w5 & H5 & H).
    apply lift_ok in H5; destruct H5 as [-> ->].
    apply bind_ok in H; destruct H as (st' & w6 & H6 & H).
    apply lift_ok in H6; destruct H6 as [-> ->].
    unfold save_setting in H.
    apply target_insert_ok in H; destruct H as (Hs7 & Hc7 & Hw7).
    rewrite Hs7, Hc7, Hw7, Hs4, Hc4, Hw4, Hs3, Hc3, Hw3, Hs1, Hc1, Hw1.
    auto.
Qed.

Lemma loader_body_keeps : keeps_committed loader_body.
Proof.
  unfold loader_body, get_setting, save_setting.
  repeat first
    [ apply keeps_bind; [|intros ?]
    | apply keeps_lift | apply keeps_ret | apply keeps_source_list
    | apply keeps_target_retrieve | apply keeps_target_insert
    | apply keeps_for_each; intros ?
    | match goal with |- keeps_committed (match ?x with _ => _ end) =>
        destruct x end ].
Qed.

(** A run that returns has committed the whole batch and the new
    watermark, or — on an empty batch — nothing. *)
Lemma loader_body_effect (src : S) : body_effect src loader_body after_run.
Proof.
  intros w w' a <- Hb; apply loader_body_ok in Hb; tauto.
Qed.

Lemma loader_run_ok (src : S) (d : dest Row) (u : unit) (w' : world S (dest Row)) :
  loader_run (start src d) = (Ok u, w') -> after_run src d = Some (committed w').
Proof. apply with_connections_ok, loader_body_effect. Qed.

(** Whatever step fails, the durable destination after the run is the one
    before it or the complete one: rows and watermark go together. *)
Lemma loader_run_atomic (src : S) (d : dest Row) (r : result unit) (w' : world S (dest Row)) :
  loader_run (start src d) = (r, w') ->
  committed w' = d \/ after_run src d = Some (committed w').
Proof.
  apply with_connections_atomic;
    [apply loader_body_keeps|apply loader_body_effect].
Qed.

(** An exception raised inside the destination scope — by the body or by
    the commit — leaves the durable destination untouched. *)
Lemma loader_run_scope_raise (w w' : world S (dest Row)) (e : exn) :
  target_connection fails loader_body w = (Raise e, w') ->
  committed w' = committed w.
Proof. intros H; eapply target_connection_raise; eauto using loader_body_keeps. Qed.

(** When no step fails the run returns whenever the validators accept, and
    raises with nothing written otherwise. *)
Lemma loader_body_raise (w w' : world S (dest Row)) (e : exn) :
  (forall n, fails n = false) ->
  loader_body w = (Raise e, w') -> after_run (source w) (working w) = None.
Proof.
  intros Hnf; unfold loader_body, after_run, stored_setting; intros H.
  apply bind_raise in H; destruct H as [H|(es & w1 & H1 & H)].
  { unfold get_setting in H.
    apply bind_raise in H; destruct H as [H|(r & w1 & H1 & H)].
    - now apply db_call_no_raise in H.
    - apply target_retrieve_ok in H1; destruct H1 as (_ & _ & _ & ->).
      destruct (select_setting _ _); [|discriminate].
      now apply lift_raise in H; rewrite H. }
  apply get_setting_ok in H1; destruct H1 as (Hs1 & Hc1 & Hw1 & ->).
  apply bind_raise in H; destruct H as [H|(st & w2 & H2 & H)].
  { now apply lift_raise in H; rewrite H. }
  apply lift_ok in H2; destruct H2 as [-> ->].
  apply bind_raise in H; destruct H as [H|(q & w3 & H3 & H)].
  { now apply db_call_no_raise in H. }
  apply source_list_ok in H3; destruct H3 as (Hs3 & Hc3 & Hw3 & ->).
  rewrite Hs1 in H.
  destruct (list_objs st BATCH_LIMIT (source w)) as [|o l] eqn:El;
    [discriminate|].
  apply bind_raise in H; destruct H as [H|(u4 & w4 & H4 & H)].
  { now apply for_each_insert_no_raise in H. }
  apply bind_raise in H; destruct H as [H|(m & w5 & H5 & H)].
  { now apply lift_raise in H; rewrite H. }
  apply lift_ok in H5; destruct H5 as [-> ->].
  apply bind_raise in H; destruct H as [H|(st' & w6 & H6 & H)].
  { now apply lift_raise in H; rewrite H. }
  now apply db_call_no_raise in H.
Qed.

Lemma loader_run_total (src : S) (d : dest Row) :
  (forall n, fails n = false) ->
  match after_run src d with
  | Some d' => exists w', loader_run (start src d) = (Ok tt, w') /\ committed w' = d'
  | None => exists e w', loader_run (start src d) = (Raise e, w') /\ committed w' = d
  end.
Proof.
  intros Hnf.
  destruct (loader_run (start src d)) as [[[]|e] w'] eqn:Er.
  - rewrite (loader_run_ok _ _ Er); eauto.
  - assert (Hn : after_run src d = None).
    { revert Er; unfold loader_run, with_connections, source_connection.
      unfold connect at 1; rewrite db_call_run by assumption; simpl.
      unfold target_connection, connect, target_commit, source_commit.
      rewrite db_call_run by assumption; simpl.
      destruct (loader_body _) as [[u|e1] w1] eqn:Eb.
      - rewrite !db_call_run by assumption; simpl; discriminate.
      - intros _; now apply loader_body_raise in Eb. }
    rewrite Hn; destruct (loader_run_atomic _ _ Er) as [Hd|Hd]; [eauto|congruence].
Qed.

Lemma stored_setting_key (d : dest Row) (e : EtlSetting) :
  stored_setting d = Some e -> workflow_key e = WF_KEY.
Proof.
  unfold stored_setting, select_setting.
  destruct (find _ _) as [r|] eqn:Ef; [|now intros [= <-]].
  apply find_some in Ef; destruct Ef as [_ Ek]; apply String.eqb_eq in Ek.
  unfold EtlSetting_of_row; destruct (row_workflow_settings r);
    try discriminate; now intros [= <-].
Qed.

Lemma write_all_settings (l : list Obj) (d : dest Row) :
  srv_wf_settings (write_all l d) = srv_wf_settings d.
Proof.
  unfold write_all; revert d; induction l as [|o l IH]; intros d; simpl;
    [reflexivity|now rewrite IH].
Qed.

Lemma write_all_table (l : list Obj) (d : dest Row) :
  dest_table (write_all l d) =
  fold_left (fun t o => insert_obj o t) l (dest_table d).
Proof.
  unfold write_all; revert d; induction l as [|o l IH]; intros d; simpl;
    [reflexivity|now rewrite IH].
Qed.

(** The run on an empty batch, and on a batch with a last record [m]. *)
Lemma after_run_cases (src : S) (d d' : dest Row) :
  after_run src d = Some d' ->
  exists st, checkpoint d = Some st /\
    match list_objs st BATCH_LIMIT src with
    | [] => d' = d
    | load_queue =>
        exists m st', py_max Obj_lt load_queue = Some m /\
                      Settings_init (Obj_dict m) = Some st' /\
                      d' = advance WF_KEY st' (write_all load_queue d)
    end.
Proof.
  unfold after_run, checkpoint.
  destruct (stored_setting d) as [e|] eqn:Ee; [|discriminate].
  apply stored_setting_key in Ee.
  destruct (Settings_init _) as [st|]; [|discriminate].
  intros Ha; exists st; split; [reflexivity|].
  destruct (list_objs st BATCH_LIMIT src) as [|o l]; [congruence|].
  destruct (py_max Obj_lt (o :: l)) as [m|] eqn:Em; [|discriminate].
  destruct (Settings_init (Obj_dict m)) as [st'|] eqn:Es; [|discriminate].
  exists m, st'; rewrite Ee in Ha; repeat split; congruence.
Qed.

Lemma after_run_empty (src : S) (d : dest Row) (st : Settings) :
  checkpoint d = Some st -> list_objs st BATCH_LIMIT src = [] ->
  after_run src d = Some d.
Proof.
  unfold checkpoint, after_run.
  destruct (stored_setting d) as [e|]; [|discriminate].
  now intros -> ->.
Qed.

(** The watermark the next run starts from. *)
Lemma checkpoint_advance (st : Settings) (d : dest Row) :
  checkpoint (advance WF_KEY st d) =
  save_then_load Settings_dict (fun kw => Settings_init (prepare kw)) WF_KEY st
    (srv_wf_settings d).
Proof.
  unfold checkpoint, stored_setting, advance, save_then_load; simpl.
  destruct (select_setting _ _) as [r|]; [|reflexivity].
  now destruct (EtlSetting_of_row r).
Qed.

End SingleBatch.

(** The row comparison that the keyset queries spell out,
    [a' > a OR (a' = a AND b' > b)], is the order of the pairs. *)
Lemma ltb_pair {A B} `{Ord A} `{Ord B} (a a' : A) (b b' : B) :
  ltb (a, b) (a', b') = ltb a a' || (eqb a' a && ltb b b').
Proof.
  unfold ltb, eqb; simpl; unfold lex.
  rewrite (cmp_antisym a a'); destruct (cmp a a'); reflexivity.
Qed.

Lemma filter_map_comm {A B} (f : A -> B) (p : B -> bool) (l : list A) :
  filter p (map f l) = map f (filter (fun x => p (f x)) l).
Proof.
  induction l as [|x l IH]; simpl; [reflexivity|].
  destruct (p (f x)); simpl; now rewrite IH.
Qed.

(** ** [dwh/dds/dm_orders_loader.py] *)

Module DmOrders.

Record OrderObj := mk_OrderObj {
  object_id : string;
  update_ts : datetime;
  final_status : string;
  user_fk : option Z;
  restaurant_fk : option Z;
  timestamp_fk : option Z
}.

Definition OrderObj_key (o : OrderObj) : datetime * string :=
  (update_ts o, object_id o).

(** [OrderObj.__lt__]. *)
Definition OrderObj_lt (self other : OrderObj) : bool :=
  ltb (update_ts self, object_id self) (update_ts other, object_id other).

Definition py_optional_int (v : option Z) : pyval :=
  match v with Some n => PyInt n | None => PyNone end.

(** [order.dict()]. *)
Definition OrderObj_dict (o : OrderObj) : dict :=
  [("object_id", PyStr (object_id o));
   ("update_ts", PyDatetime (update_ts o));
   ("final_status", PyStr (final_status o));
   ("user_fk", py_optional_int (user_fk o));
   ("restaurant_fk", py_optional_int (restaurant_fk o));
   ("timestamp_fk", py_optional_int (timestamp_fk o))].

Record OrderSettings := mk_OrderSettings {
  last_loaded_ts : datetime;
  last_loaded_oid : string
}.

(** The constructor [OrderSettings], called with keyword arguments. *)
Definition OrderSettings_init (kwargs : dict) : option OrderSettings :=
  match field "update_ts" "last_loaded_ts" as_datetime (Some datetime_min) kwargs,
        field "object_id" "last_loaded_oid" as_str (Some zero_oid) kwargs with
  | Some ts, Some oid => Some (mk_OrderSettings ts oid)
  | _, _ => None
  end.

Definition OrderSettings_dict (st : OrderSettings) : dict :=
  [("last_loaded_ts", PyDatetime (last_loaded_ts st));
   ("last_loaded_oid", PyStr (last_loaded_oid st))].

(** A row of [stg.ordersystem_orders] with the fields that
    [json_to_record] takes out of [object_value]. [object_id] is the
    conflict key of the staging table, so every row is a group of its own
    under [GROUP BY oo.update_ts, oo.object_id, "order".final_status]. *)
Record StgOrder := mk_StgOrder {
  so_object_id : string;
  so_update_ts : datetime;
  so_final_status : string;
  so_user_id : string;
  so_restaurant_id : string;
  so_date : datetime
}.

(** What the source connection sees: the staging orders and, of each
    dimension, the surrogate [id] with its natural key. *)
Record Source := mk_Source {
  ordersystem_orders : list StgOrder;
  dm_users : list (Z * string);
  dm_restaurants : list (Z * string);
  dm_timestamps : list (Z * datetime)
}.

(** The SELECT list over the three LEFT JOINs. *)
Definition joined (src : Source) (oo : StgOrder) : OrderObj :=
  mk_OrderObj (so_object_id oo) (so_update_ts oo) (so_final_status oo)
    (joined_max_id (dm_users src) (so_user_id oo))
    (joined_max_id (dm_restaurants src) (so_restaurant_id oo))
    (joined_max_id (dm_timestamps src) (so_date oo)).

Definition select_orders (ts_threshold : datetime) (oid_threshold : string)
  (limit : nat) (src : Source) : list OrderObj :=
  firstn limit
    (order_by OrderObj_key
       (map (joined src)
          (filter (fun oo =>
                     ltb ts_threshold (so_update_ts oo) ||
                     (eqb (so_update_ts oo) ts_threshold &&
                      ltb oid_threshold (so_object_id oo)))
                  (ordersystem_orders src)))).

(** [not all([order.user_fk, order.restaurant_fk, order.timestamp_fk])]
    is the negation of this. *)
Definition has_all_fks (order : OrderObj) : bool :=
  all [truthy_int (user_fk order); truthy_int (restaurant_fk order);
       truthy_int (timestamp_fk order)].

(** The loop at the end of [list_orders]. *)
Definition gap_filter (orders : list OrderObj) : list OrderObj :=
  truncate_at_gap has_all_fks orders.

Definition list_orders (order_settings : OrderSettings) (limit : nat)
  (src : Source) : list OrderObj :=
  gap_filter
    (select_orders (last_loaded_ts order_settings)
       (last_loaded_oid order_settings) limit src).

(** A row of [dds.dm_orders]. *)
Record DmOrder := mk_DmOrder {
  dmo_id : Z;
  order_key : string;
  order_status : string;
  user_id : option Z;
  restaurant_id : option Z;
  timestamp_id : option Z
}.

Definition insert_order (order : OrderObj) (t : table DmOrder) : table DmOrder :=
  insert_on_conflict
    (fun r => String.eqb (order_key r) (object_id order))
    (fun r => mk_DmOrder (dmo_id r) (order_key r) (final_status order)
                (user_fk order) (restaurant_fk order) (timestamp_fk order))
    (fun i => mk_DmOrder i (object_id order) (final_status order)
                (user_fk order) (restaurant_fk order) (timestamp_fk order))
    t.

Definition WF_KEY : string := "orders_stg_to_dds_workflow".
Definition BATCH_LIMIT : nat := 5000.

(** [OrdersLoader.run]: the body of the [with] statement, and the whole. *)
Definition run_body (fails : nat -> bool) : M Source (dest DmOrder) unit :=
  loader_body WF_KEY BATCH_LIMIT (fun d => d) OrderSettings_init
    OrderSettings_dict list_orders insert_order OrderObj_lt OrderObj_dict fails.

Definition run (fails : nat -> bool) : M Source (dest DmOrder) unit :=
  with_connections fails (run_body fails).

(** What a run that returns has committed ([after_run]). *)
Definition loaded (src : Source) (d : dest DmOrder) : option (dest DmOrder) :=
  after_run WF_KEY BATCH_LIMIT (fun d => d) OrderSettings_init
    OrderSettings_dict list_orders insert_order OrderObj_lt OrderObj_dict src d.

Lemma select_orders_keyset (ts : datetime) (oid : string) (limit : nat)
  (src : Source) :
  select_orders ts oid limit src =
  keyset_page OrderObj_key (ts, oid) limit
    (map (joined src) (ordersystem_orders src)).
Proof.
  unfold select_orders, keyset_page; rewrite filter_map_comm.
  do 3 f_equal; apply filter_ext; intros oo; unfold OrderObj_key; simpl.
  now rewrite ltb_pair.
Qed.

End DmOrders.

(** ** [dwh/dds/fct_product_sales_loader.py] *)

Module FctProductSales.

(** Amounts are NUMERIC(14,2) columns read into Python floats; they are
    carried as rationals, and nothing below computes with them beyond
    [quantity * price]. *)
Record ProductSaleObj := mk_ProductSaleObj {
  product_id : string;
  price : Q;
  quantity : Z;
  bonus_payment : Q;
  bonus_grant : Q;
  event_ts : datetime;
  order_fk : option string;
  product_fk : option string
}.

Definition ProductSaleObj_key (o : ProductSaleObj) : datetime * string :=
  (event_ts o, product_id o).

(** [ProductSaleObj.__lt__]. *)
Definition ProductSaleObj_lt (self other : ProductSaleObj) : bool :=
  ltb (event_ts self, product_id self) (event_ts other, product_id other).

Definition py_optional_str (v : option string) : pyval :=
  match v with Some s => PyStr s | None => PyNone end.

(** [product_sale.dict()], without the amounts, which no settings field
    reads. *)
Definition ProductSaleObj_dict (o : ProductSaleObj) : dict :=
  [("product_id", PyStr (product_id o));
   ("quantity", PyInt (quantity o));
   ("event_ts", PyDatetime (event_ts o));
   ("order_fk", py_optional_str (order_fk o));
   ("product_fk", py_optional_str (product_fk o))].

Record ProductSaleSettings := mk_ProductSaleSettings {
  last_loaded_ts : datetime;
  last_loaded_product_id : string
}.

Definition ProductSaleSettings_init (kwargs : dict) : option ProductSaleSettings :=
  match field "event_ts" "last_loaded_ts" as_datetime (Some datetime_min) kwargs,
        field "product_id" "last_loaded_product_id" as_str (Some zero_oid) kwargs
  with
  | Some ts, Some pid => Some (mk_ProductSaleSettings ts pid)
  | _, _ => None
  end.

Definition ProductSaleSettings_dict (st : ProductSaleSettings) : dict :=
  [("last_loaded_ts", PyDatetime (last_loaded_ts st));
   ("last_loaded_product_id", PyStr (last_loaded_product_id st))].

(** The grouped join of the query is taken as given: [sales_view] is what
    SELECT ... FROM ... LEFT JOIN ... GROUP BY yields before WHERE, ORDER BY
    and LIMIT act (the WHERE clause reads grouping columns only). *)
Record Source := mk_Source { sales_view : list ProductSaleObj }.

Definition select_sales (ts_threshold : datetime) (oid_threshold : string)
  (limit : nat) (src : Source) : list ProductSaleObj :=
  firstn limit
    (order_by ProductSaleObj_key
       (filter (fun s =>
                  ltb ts_threshold (event_ts s) ||
                  (eqb (event_ts s) ts_threshold &&
                   ltb oid_threshold (product_id s)))
               (sales_view src))).

(** [not all([product_sale.order_fk, product_sale.product_fk])] is the
    negation of this. *)
Definition has_all_fks (product_sale : ProductSaleObj) : bool :=
  all [truthy_str (order_fk product_sale); truthy_str (product_fk product_sale)].

Definition gap_filter (product_sales : list ProductSaleObj) :
  list ProductSaleObj :=
  truncate_at_gap has_all_fks product_sales.

Definition list_sales (sale_settings : ProductSaleSettings) (limit : nat)
  (src : Source) : list ProductSaleObj :=
  gap_filter
    (select_sales (last_loaded_ts sale_settings)
       (last_loaded_product_id sale_settings) limit src).

(** A row of [dds.fct_product_sales]. *)
Record ProductSale := mk_ProductSale {
  fps_id : Z;
  fps_product_id : option string;
  fps_order_id : option string;
  fps_count : Z;
  fps_price : Q;
  fps_total_sum : Q;
  fps_bonus_payment : Q;
  fps_bonus_grant : Q
}.

(** Two key columns collide when both are present and equal. *)
Definition same_key (a b : option string) : bool :=
  match a, b with
  | Some x, Some y => String.eqb x y
  | _, _ => false
  end.

Definition insert_sale (product_sale : ProductSaleObj)
  (t : table ProductSale) : table ProductSale :=
  insert_on_conflict
    (fun r => same_key (fps_product_id r) (product_fk product_sale) &&
              same_key (fps_order_id r) (order_fk product_sale))
    (fun r => r)
    (fun i => mk_ProductSale i (product_fk product_sale) (order_fk product_sale)
                (quantity product_sale) (price product_sale)
                (inject_Z (quantity product_sale) * price product_sale)%Q
                (bonus_payment product_sale) (bonus_grant product_sale))
    t.

Definition WF_KEY : string := "product_sales_stg_to_dds_workflow".
Definition BATCH_LIMIT : nat := Z.to_nat 10000.

(** [ProductSalesLoader.run]. *)
Definition run (fails : nat -> bool) : M Source (dest ProductSale) unit :=
  loader_run WF_KEY BATCH_LIMIT (fun d => d) ProductSaleSettings_init
    ProductSaleSettings_dict list_sales insert_sale ProductSaleObj_lt
    ProductSaleObj_dict fails.

End FctProductSales.

(** ** The gap filter (claims C1 and C10) *)

Definition absent {A} (fk : option A) : bool :=
  match fk with None => true | Some _ => false end.

(** A record of the orders batch with a reference that resolved to nothing. *)
Definition order_has_absent_fk (o : DmOrders.OrderObj) : bool :=
  absent (DmOrders.user_fk o) || absent (DmOrders.restaurant_fk o) ||
  absent (DmOrders.timestamp_fk o).

Definition sale_has_absent_fk (s : FctProductSales.ProductSaleObj) : bool :=
  absent (FctProductSales.order_fk s) || absent (FctProductSales.product_fk s).

(** The references are surrogate ids: [MAX(du.id)], [MAX(dr.id)],
    [MAX(dt.id)] over the dimension rows joined to an order. No loader
    writes the column [id]; the table's sequence gives it, counting from 1
    (as [insert_on_conflict] does from an empty table). *)
Definition serial_ids {K} (dim : list (Z * K)) : Prop :=
  Forall (fun r => 0 < fst r) dim.

Definition dimensions_serial (src : DmOrders.Source) : Prop :=
  serial_ids (DmOrders.dm_users src) /\
  serial_ids (DmOrders.dm_restaurants src) /\
  serial_ids (DmOrders.dm_timestamps src).

(** A row of the grouped join of [list_sales], with its columns as the
    cursor fetches them: [order_fk] and [product_fk] are [MAX("do".id)] and
    [MAX(dp.id)], an integer or NULL. *)
Record SaleRow := mk_SaleRow {
  col_product_id : string;
  col_price : Q;
  col_quantity : Z;
  col_bonus_payment : Q;
  col_bonus_grant : Q;
  col_event_ts : datetime;
  col_order_fk : option Z;
  col_product_fk : option Z
}.

(** pydantic's validator of a [str] field, given an [int]: [str(v)]. *)
Definition py_str_of_int (n : Z) : string :=
  NilZero.string_of_int (Z.to_int n).

(** [class_row(ProductSaleObj)]: the model is built from the columns of the
    row, and the two integers go into fields declared [Optional[str]]. *)
Definition ProductSaleObj_of_row (r : SaleRow) : FctProductSales.ProductSaleObj :=
  FctProductSales.mk_ProductSaleObj (col_product_id r) (col_price r)
    (col_quantity r) (col_bonus_payment r) (col_bonus_grant r)
    (col_event_ts r)
    (option_map py_str_of_int (col_order_fk r))
    (option_map py_str_of_int (col_product_fk r)).

(** The source of the sales reader whose grouped join has the rows
    [grouped]: WHERE, ORDER BY and LIMIT read columns that the model takes
    over as they are. *)
Definition sales_source (grouped : list SaleRow) : FctProductSales.Source :=
  FctProductSales.mk_Source (map ProductSaleObj_of_row grouped).

(** A sequence that has given the ids of a table so far gives the next
    one: ids stay positive under [insert_on_conflict]. *)
Lemma insert_on_conflict_serial {Row} (id_of : Row -> Z)
  (conflict : Row -> bool) (update : Row -> Row) (new : Z -> Row)
  (t : table Row) :
  (forall r, id_of (update r) = id_of r) ->
  (forall i, id_of (new i) = i) ->
  0 <= seq t -> Forall (fun r => 0 < id_of r) (rows t) ->
  0 <= seq (insert_on_conflict conflict update new t) /\
  Forall (fun r => 0 < id_of r)
         (rows (insert_on_conflict conflict update new t)).
Proof.
  intros Hu Hn Hs Hr; unfold insert_on_conflict; cbn [rows seq].
  split; [lia|].
  induction Hr as [|r l Hr Hl IH]; simpl.
  - constructor; [rewrite Hn; lia|constructor].
  - destruct (conflict r); constructor; auto.
    now rewrite Hu.
Qed.

Lemma py_str_of_int_not_empty (n : Z) : py_str_of_int n <> "".
Proof.
  unfold py_str_of_int, NilZero.string_of_int.
  destruct (Z.to_int n) as [d|d]; [|discriminate].
  unfold NilZero.string_of_uint; destruct d; discriminate.
Qed.

Lemma sql_max_member (l : list Z) (m : Z) : sql_max l = Some m -> In m l.
Proof.
  unfold sql_max.
  assert (Hg : forall l acc m,
             fold_left (fun acc x => match acc with
                                     | None => Some x
                                     | Some m => Some (Z.max m x)
                                     end) l acc = Some m ->
             acc = Some m \/ In m l).
  { clear; induction l as [|x l IH]; simpl; intros acc m Hm; [now left|].
    apply IH in Hm; destruct Hm as [Hm|Hm]; [|now right; right].
    destruct acc as [a|]; injection Hm as <-; [|now right; left].
    destruct (Z.max_spec a x) as [[_ ->]|[_ ->]]; [right|]; now left. }
  intros Hm; apply Hg in Hm; destruct Hm as [Hm|Hm]; [discriminate|exact Hm].
Qed.

Lemma joined_max_id_serial {K} `{Ord K} (dim : list (Z * K)) (k : K) (i : Z) :
  serial_ids dim -> joined_max_id dim k = Some i -> 0 < i.
Proof.
  unfold serial_ids, joined_max_id; intros Hd Hi.
  apply sql_max_member, in_map_iff in Hi; destruct Hi as (r & <- & Hr).
  apply filter_In in Hr; rewrite Forall_forall in Hd; now apply Hd.
Qed.

(** For an id that a sequence gave, Python's truth value of the reference
    tells whether it is there. *)
Lemma truthy_int_serial (v : option Z) :
  (forall i, v = Some i -> 0 < i) -> truthy_int v = negb (absent v).
Proof.
  destruct v as [i|]; simpl; [|reflexivity].
  intros Hi; specialize (Hi i eq_refl).
  destruct (Z.eqb_spec i 0); [lia|reflexivity].
Qed.


Lemma truthy_str_of_int (v : option Z) :
  truthy_str (option_map py_str_of_int v) = negb (absent v).
Proof.
  destruct v as [i|]; simpl; [|reflexivity].
  destruct (String.eqb_spec (py_str_of_int i) ""); [|reflexivity].
  now apply py_str_of_int_not_empty in e.
Qed.

(** On the records joined from dimensions with serial ids, the test of the
    orders loop is the test for an absent reference. *)
Lemma joined_has_all_fks (src : DmOrders.Source) (oo : DmOrders.StgOrder) :
  dimensions_serial src ->
  DmOrders.has_all_fks (DmOrders.joined src oo) =
  negb (order_has_absent_fk (DmOrders.joined src oo)).
Proof.
  intros (Hu & Hr & Ht).
  unfold DmOrders.has_all_fks, order_has_absent_fk, all; cbn [forallb].
  cbn [DmOrders.joined DmOrders.user_fk DmOrders.restaurant_fk
       DmOrders.timestamp_fk].
  rewrite !truthy_int_serial
    by (intros i; apply joined_max_id_serial; assumption).
  rewrite andb_true_r, !negb_orb, andb_assoc; reflexivity.
Qed.

Lemma select_orders_joined (ts : datetime) (oid : string) (limit : nat)
  (src : DmOrders.Source) (o : DmOrders.OrderObj) :
  In o (DmOrders.select_orders ts oid limit src) ->
  exists oo, o = DmOrders.joined src oo.
Proof.
  unfold DmOrders.select_orders; intros Ho.
  apply In_firstn, order_by_In, in_map_iff in Ho.
  destruct Ho as (oo & <- & _); now exists oo.
Qed.

Lemma sale_of_row_has_all_fks (r : SaleRow) :
  FctProductSales.has_all_fks (ProductSaleObj_of_row r) =
  negb (sale_has_absent_fk (ProductSaleObj_of_row r)).
Proof.
  unfold FctProductSales.has_all_fks, sale_has_absent_fk, all; cbn [forallb].
  cbn [ProductSaleObj_of_row FctProductSales.order_fk
       FctProductSales.product_fk].
  rewrite !truthy_str_of_int, andb_true_r, negb_orb.
  now destruct (col_order_fk r), (col_product_fk r).
Qed.

Lemma select_sales_of_rows (ts : datetime) (oid : string) (limit : nat)
  (grouped : list SaleRow) (s : FctProductSales.ProductSaleObj) :
  In s (FctProductSales.select_sales ts oid limit (sales_source grouped)) ->
  exists r, s = ProductSaleObj_of_row r.
Proof.
  unfold FctProductSales.select_sales, sales_source; intros Hs.
  apply In_firstn, order_by_In, filter_In in Hs; destruct Hs as [Hs _].
  apply in_map_iff in Hs; destruct Hs as (r & <- & _); now exists r.
Qed.

Lemma truncate_at_gap_ext {A} (ok ok' : A -> bool) (xs : list A) :
  (forall x, In x xs -> ok x = ok' x) ->
  truncate_at_gap ok xs = truncate_at_gap ok' xs.
Proof.
  rewrite !truncate_at_gap_prefix.
  induction xs as [|x xs IH]; intros Hx; simpl; [reflexivity|].
  rewrite <- (Hx x) by now left.
  destruct (ok x); [f_equal; apply IH; intros y Hy; apply Hx; now right|].
  reflexivity.
Qed.

(** What the loop returns when its test is the test for an absent
    reference on every record of the batch. *)
Lemma gap_filter_by_absence {A} (ok has_absent : A -> bool) (batch : list A) :
  (forall x, In x batch -> ok x = negb (has_absent x)) ->
  (forall i x, nth_error batch i = Some x -> has_absent x = true ->
               forallb (fun y => negb (has_absent y)) (firstn i batch) = true ->
               truncate_at_gap ok batch = firstn i batch) /\
  (forallb (fun y => negb (has_absent y)) batch = true ->
   truncate_at_gap ok batch = batch) /\
  (exists i, truncate_at_gap ok batch = firstn i batch).
Proof.
  intros Hok.
  rewrite (truncate_at_gap_ext ok (fun y => negb (has_absent y)) batch Hok).
  repeat split.
  - intros i x Hn Hx; apply truncate_at_gap_first with (x := x); [exact Hn|].
    now rewrite Hx.
  - apply truncate_at_gap_all.
  - eexists; rewrite truncate_at_gap_prefix; apply kept_prefix_firstn.
Qed.

(** C1. The batch that the query returns, in the order of the comparison
    key, is cut by the loop at the first record with an absent reference:
    the result is the part of the batch strictly before that record, in the
    same order, and the whole batch when no record has an absent reference.
    For the orders reader the references are ids of the dimension tables,
    which their sequences count from 1; for the sales reader they are the
    integers of the joined rows read into the model. *)
Theorem gap_filter_truncates_at_first_absent :
  (forall (st : DmOrders.OrderSettings) (limit : nat) (src : DmOrders.Source),
     dimensions_serial src ->
     let batch := DmOrders.select_orders (DmOrders.last_loaded_ts st)
                    (DmOrders.last_loaded_oid st) limit src in
     (forall i o, nth_error batch i = Some o ->
                  order_has_absent_fk o = true ->
                  forallb (fun o' => negb (order_has_absent_fk o'))
                          (firstn i batch) = true ->
                  DmOrders.list_orders st limit src = firstn i batch) /\
     (forallb (fun o => negb (order_has_absent_fk o)) batch = true ->
      DmOrders.list_orders st limit src = batch) /\
     (exists i, DmOrders.list_orders st limit src = firstn i batch)) /\
  (forall (st : FctProductSales.ProductSaleSettings) (limit : nat)
          (grouped : list SaleRow),
     let src := sales_source grouped in
     let batch := FctProductSales.select_sales
                    (FctProductSales.last_loaded_ts st)
                    (FctProductSales.last_loaded_product_id st) limit src in
     (forall i s, nth_error batch i = Some s ->
                  sale_has_absent_fk s = true ->
                  forallb (fun s' => negb (sale_has_absent_fk s'))
                          (firstn i batch) = true ->
                  FctProductSales.list_sales st limit src = firstn i batch) /\
     (forallb (fun s => negb (sale_has_absent_fk s)) batch = true ->
      FctProductSales.list_sales st limit src = batch) /\
     (exists i, FctProductSales.list_sales st limit src = firstn i batch)).
Proof.
  split.
  - intros st limit src Hd batch.
    apply (gap_filter_by_absence DmOrders.has_all_fks order_has_absent_fk).
    intros o Ho; apply select_orders_joined in Ho; destruct Ho as [oo ->].
    now apply joined_has_all_fks.
  - intros st limit grouped src batch.
    apply (gap_filter_by_absence FctProductSales.has_all_fks
             sale_has_absent_fk).
    intros s Hs; apply select_sales_of_rows in Hs; destruct Hs as [r ->].
    apply sale_of_row_has_all_fks.
Qed.

(** Five staged orders; the restaurant of the third is not yet in
    [dds.dm_restaurants]. *)
Definition staged_order (oid : string) (sec : Z) (restaurant : string) :
  DmOrders.StgOrder :=
  DmOrders.mk_StgOrder oid (mk_datetime 2022 1 1 0 0 sec 0) "CLOSED" "u1"
    restaurant (mk_datetime 2022 1 1 0 0 0 0).

Definition five_orders_source : DmOrders.Source :=
  DmOrders.mk_Source
    [staged_order "a1" 1 "r1"; staged_order "a2" 2 "r1";
     staged_order "a3" 3 "r9"; staged_order "a4" 4 "r1";
     staged_order "a5" 5 "r1"]
    [(7, "u1")] [(3, "r1")] [(11, mk_datetime 2022 1 1 0 0 0 0)].

Definition order_example (oid : string) (sec : Z) (u r t : option Z) :
  DmOrders.OrderObj :=
  DmOrders.mk_OrderObj oid (mk_datetime 2022 1 1 0 0 sec 0) "CLOSED" u r t.

Lemma gap_filter_truncates_witness :
  DmOrders.list_orders (DmOrders.mk_OrderSettings datetime_min zero_oid) 10
    five_orders_source =
  [order_example "a1" 1 (Some 7) (Some 3) (Some 11);
   order_example "a2" 2 (Some 7) (Some 3) (Some 11)].
Proof.
  assert (Hd : dimensions_serial five_orders_source).
  { repeat split; repeat constructor. }
  apply (proj1 (proj1 gap_filter_truncates_at_first_absent
                  (DmOrders.mk_OrderSettings datetime_min zero_oid) 10%nat
                  five_orders_source Hd) 2%nat
           (order_example "a3" 3 (Some 7) None (Some 11)));
    vm_compute; reflexivity.
Defined.






(** ** [dwh/stg/stg_3/delivery_system_deliveries_loader.py] *)

Module Deliveries.

(** [extra=Extra.allow]: the other fields of the response are kept as they
    came. *)
Record DeliveryObj := mk_DeliveryObj {
  delivery_id : string;
  delivery_ts : datetime;
  extra : dict
}.

(** [DeliveryObj.__lt__]. *)
Definition DeliveryObj_lt (self other : DeliveryObj) : bool :=
  ltb (delivery_ts self, delivery_id self) (delivery_ts other, delivery_id other).

Definition DeliveryObj_dict (o : DeliveryObj) : dict :=
  ("delivery_id", PyStr (delivery_id o)) ::
  ("delivery_ts", PyDatetime (delivery_ts o)) :: extra o.

Record DeliverySettings := mk_DeliverySettings {
  last_loaded_ts : datetime;
  last_loaded_oid : string
}.

(** [last_loaded_ts] has no default: it is a required field. *)
Definition DeliverySettings_init (kwargs : dict) : option DeliverySettings :=
  match field "delivery_ts" "last_loaded_ts" as_datetime None kwargs,
        field "delivery_id" "last_loaded_oid" as_str (Some zero_oid) kwargs with
  | Some ts, Some oid => Some (mk_DeliverySettings ts oid)
  | _, _ => None
  end.

Definition DeliverySettings_dict (st : DeliverySettings) : dict :=
  [("last_loaded_ts", PyDatetime (last_loaded_ts st));
   ("last_loaded_oid", PyStr (last_loaded_oid st))].

(** The delivery service: for a value of the [from] parameter, the
    deliveries it has in ascending date order. A request with [offset] and
    [limit] returns that window of the sequence. *)
Definition Source := string -> list DeliveryObj.

Definition get_deliveries (src : Source) (from : string) (offset limit : nat) :
  list DeliveryObj :=
  firstn limit (skipn offset (src from)).

(** The [while offset < limit] loop. Every round that does not leave the
    loop adds at least one record to [offset], so [limit] rounds are enough;
    [fuel] counts them down. *)
Fixpoint paginate (fuel : nat) (fetch : nat -> nat -> list DeliveryObj)
  (page_size limit : nat) (deliveries : list DeliveryObj) (offset : nat) :
  list DeliveryObj :=
  match fuel with
  | O => deliveries
  | Datatypes.S fuel' =>
      if (offset <? limit)%nat then
        match fetch offset page_size with
        | [] => deliveries
        | batch =>
            paginate fuel' fetch page_size limit (deliveries ++ batch)
              (offset + length batch)
        end
      else deliveries
  end.

Definition list_deliveries_paged (page_size : nat) (src : Source)
  (delivery_settings : DeliverySettings) (limit : nat) : list DeliveryObj :=
  let from := strftime_datetime (last_loaded_ts delivery_settings) in
  firstn limit
    (paginate limit (get_deliveries src from) page_size limit [] 0).

(** [list_deliveries], with its [page_size = 50]. *)
Definition list_deliveries (delivery_settings : DeliverySettings) (limit : nat)
  (src : Source) : list DeliveryObj :=
  list_deliveries_paged 50 src delivery_settings limit.

(** One request for the first [limit] records. *)
Definition direct_read (src : Source) (delivery_settings : DeliverySettings)
  (limit : nat) : list DeliveryObj :=
  get_deliveries src (strftime_datetime (last_loaded_ts delivery_settings))
    0 limit.

(** A row of [stg.deliverysystem_deliveries]; [delivery_value] is
    [delivery.json()], which the model configuration sends through
    [json2str]. *)
Record StgDelivery := mk_StgDelivery {
  sd_id : Z;
  sd_delivery_id : string;
  sd_delivery_ts : datetime;
  sd_delivery_value : pyval
}.

Definition insert_delivery (delivery : DeliveryObj) (t : table StgDelivery) :
  table StgDelivery :=
  insert_on_conflict
    (fun r => String.eqb (sd_delivery_id r) (delivery_id delivery))
    (fun r => r)
    (fun i => mk_StgDelivery i (delivery_id delivery) (delivery_ts delivery)
                (json2str (PyDict (DeliveryObj_dict delivery))))
    t.

Definition WF_KEY : string := "deliverysystem_deliveries_origin_to_stg_workflow".
Definition BATCH_LIMIT : nat := 5000.

(** [if not wf_setting.workflow_settings:
       wf_setting.workflow_settings['delivery_ts'] = start_date]. *)
Definition with_start_date (start_date : datetime) (workflow_settings : dict) :
  dict :=
  match workflow_settings with
  | [] => dict_set "delivery_ts" (PyDatetime start_date) workflow_settings
  | _ :: _ => workflow_settings
  end.

Lemma firstn_window {A} (l : list A) (offset n : nat) :
  firstn offset l ++ firstn n (skipn offset l) = firstn (offset + n) l.
Proof.
  revert l; induction offset as [|k IH]; intros [|x l]; simpl;
    rewrite ?firstn_nil; try reflexivity.
  now rewrite IH.
Qed.

Lemma paginate_spec (all : list DeliveryObj) (page_size limit : nat) :
  (0 < page_size)%nat ->
  forall fuel offset,
    (limit <= fuel + offset)%nat -> (offset <= length all)%nat ->
    firstn limit
      (paginate fuel (fun o n => firstn n (skipn o all)) page_size limit
         (firstn offset all) offset) =
    firstn limit all.
Proof.
  intros Hp; induction fuel as [|fuel IH]; intros offset Hf Ho; simpl.
  - rewrite firstn_firstn; f_equal; lia.
  - destruct (Nat.ltb_spec offset limit) as [Hlt|Hge].
    + destruct (firstn page_size (skipn offset all)) as [|x batch] eqn:Eb.
      * assert (Hs : skipn offset all = []).
        { destruct (skipn offset all); [reflexivity|].
          destruct page_size; [lia|discriminate]. }
        apply skipn_all_iff in Hs.
        now rewrite (@firstn_all2 _ offset all) by lia.
      * rewrite <- Eb, firstn_window.
        assert (Hl : length (firstn page_size (skipn offset all)) =
                     Nat.min page_size (length all - offset)).
        { now rewrite length_firstn, length_skipn. }
        change (Datatypes.S (length batch)) with (length (x :: batch)).
        rewrite <- Eb, Hl.
        assert (Hne : (offset < length all)%nat).
        { destruct (Nat.ltb_spec offset (length all)); [assumption|].
          rewrite skipn_all2 in Eb by lia; now rewrite firstn_nil in Eb. }
        destruct (Nat.le_ge_cases page_size (length all - offset)) as [Hle|Hle].
        -- rewrite Nat.min_l by assumption.
           apply IH; lia.
        -- rewrite Nat.min_r by assumption.
           rewrite (@firstn_all2 _ (offset + page_size)%nat all) by lia.
           rewrite <- (firstn_all all) at 1.
           replace (offset + (length all - offset))%nat with (length all) by lia.
           apply IH; lia.
    + rewrite firstn_firstn; f_equal; lia.
Qed.

End Deliveries.

(** C6. The paginated reader returns what one request for the first
    [limit] records returns, for the page size of the code and for any
    other positive one; with pages of 2 and a limit of 5 over 7 records it
    returns the first 5. *)
Theorem paginated_read_is_direct_read :
  (forall src st limit,
     Deliveries.list_deliveries st limit src = Deliveries.direct_read src st limit) /\
  (forall page_size src st limit,
     (0 < page_size)%nat ->
     Deliveries.list_deliveries_paged page_size src st limit =
     Deliveries.direct_read src st limit) /\
  (forall (src : Deliveries.Source) st r1 r2 r3 r4 r5 r6 r7,
     src (strftime_datetime (Deliveries.last_loaded_ts st)) =
       [r1; r2; r3; r4; r5; r6; r7] ->
     Deliveries.list_deliveries_paged 2 src st 5 = [r1; r2; r3; r4; r5]).
Proof.
  assert (H : forall page_size src st limit,
     (0 < page_size)%nat ->
     Deliveries.list_deliveries_paged page_size src st limit =
     Deliveries.direct_read src st limit).
  { intros page_size src st limit Hp.
    unfold Deliveries.list_deliveries_paged, Deliveries.direct_read,
      Deliveries.get_deliveries.
    apply (@Deliveries.paginate_spec
             (src (strftime_datetime (Deliveries.last_loaded_ts st)))
             page_size limit Hp limit 0%nat); lia. }
  repeat split.
  - intros; apply H; lia.
  - exact H.
  - intros src st r1 r2 r3 r4 r5 r6 r7 Hs.
    rewrite H by lia.
    unfold Deliveries.direct_read, Deliveries.get_deliveries.
    now rewrite Hs.
Qed.

Definition delivery_example (n : Z) : Deliveries.DeliveryObj :=
  Deliveries.mk_DeliveryObj (string_of_list_ascii (pad2 n))
    (mk_datetime 2022 1 1 0 0 n 0) [].

Definition seven_deliveries : Deliveries.Source :=
  fun _ => map delivery_example [1; 2; 3; 4; 5; 6; 7].

Lemma paginated_read_witness :
  Deliveries.list_deliveries_paged 2 seven_deliveries
    (Deliveries.mk_DeliverySettings datetime_min zero_oid) 5 =
  map delivery_example [1; 2; 3; 4; 5].
Proof.
  rewrite (proj1 (proj2 paginated_read_is_direct_read) 2%nat) by lia.
  reflexivity.
Defined.

(** ** [dwh/stg/stg_2/order_system_orders_loader.py] *)

Module StgOrders.

Record OrderObj := mk_OrderObj {
  object_id : ObjectId;
  update_ts : datetime;
  extra : dict
}.

Definition OrderObj_key (o : OrderObj) : datetime * ObjectId :=
  (update_ts o, object_id o).

(** [OrderObj.__lt__]. *)
Definition OrderObj_lt (self other : OrderObj) : bool :=
  ltb (update_ts self, object_id self) (update_ts other, object_id other).

Definition OrderObj_dict (o : OrderObj) : dict :=
  ("object_id", PyObjectId (object_id o)) ::
  ("update_ts", PyDatetime (update_ts o)) :: extra o.

Record OrderSettings := mk_OrderSettings {
  last_loaded_ts : datetime;
  last_loaded_oid : ObjectId
}.

(** [last_loaded_ts] is required; [last_loaded_oid] goes through the
    [serialize_object_id] validator. *)
Definition OrderSettings_init (kwargs : dict) : option OrderSettings :=
  match field "update_ts" "last_loaded_ts" as_datetime None kwargs,
        field "object_id" "last_loaded_oid" as_ObjectId (Some zero_ObjectId)
          kwargs with
  | Some ts, Some oid => Some (mk_OrderSettings ts oid)
  | _, _ => None
  end.

Definition OrderSettings_dict (st : OrderSettings) : dict :=
  [("last_loaded_ts", PyDatetime (last_loaded_ts st));
   ("last_loaded_oid", PyObjectId (last_loaded_oid st))].

(** The [orders] collection of the document store. *)
Definition Source := list OrderObj.

(** [find(limit=n)]: a limit of 0 is no limit. *)
Definition cursor_limit {A} (limit : nat) (l : list A) : list A :=
  match limit with
  | O => l
  | _ => firstn limit l
  end.

(** [find(filter={'$or': [{update_ts: {'$gt': ts}},
                          {'$and': [{update_ts: {'$eq': ts}},
                                    {_id: {'$gt': oid}}]}]},
          sort=[('update_ts', 1), ('_id', 1)], limit=limit)]. *)
Definition list_orders (order_settings : OrderSettings) (limit : nat)
  (src : Source) : list OrderObj :=
  cursor_limit limit
    (order_by OrderObj_key
       (filter (fun doc =>
                  ltb (last_loaded_ts order_settings) (update_ts doc) ||
                  (eqb (update_ts doc) (last_loaded_ts order_settings) &&
                   ltb (last_loaded_oid order_settings) (object_id doc)))
               src)).

(** [if not wf_setting.workflow_settings:
       wf_setting.workflow_settings['update_ts'] = start_date]. *)
Definition with_start_date (start_date : datetime) (workflow_settings : dict) :
  dict :=
  match workflow_settings with
  | [] => dict_set "update_ts" (PyDatetime start_date) workflow_settings
  | _ :: _ => workflow_settings
  end.

Definition WF_KEY : string := "ordersystem_orders_origin_to_stg_workflow".

End StgOrders.

(** ** [dwh/cdm/dm_settlement_report_loader.py] *)

Module SettlementReport.

(** The class [date], written [date_] where a field named [date] is in scope. *)
Local Abbreviation date_ := date (only parsing).

Record RestaurantReportObj := mk_RestaurantReportObj {
  restaurant_id : string;
  restaurant_name : string;
  date : date_;
  orders_count : Z;
  orders_total_sum : Q;
  bonus_payment_sum : Q;
  bonus_granted_sum : Q
}.

(** [RestaurantReportObj.__lt__]. *)
Definition RestaurantReportObj_lt (self other : RestaurantReportObj) : bool :=
  ltb (date self) (date other).

Record RestaurantReportSettings := mk_RestaurantReportSettings {
  last_loaded_date : date_
}.

Definition RestaurantReportSettings_init (kwargs : dict) :
  option RestaurantReportSettings :=
  match field "date" "last_loaded_date" as_date (Some date_min) kwargs with
  | Some d => Some (mk_RestaurantReportSettings d)
  | None => None
  end.

Definition RestaurantReportSettings_dict (st : RestaurantReportSettings) : dict :=
  [("last_loaded_date", PyDate (last_loaded_date st))].

(** [report.dict()], without the amounts, which no settings field reads. *)
Definition RestaurantReportObj_dict (o : RestaurantReportObj) : dict :=
  [("restaurant_id", PyStr (restaurant_id o));
   ("restaurant_name", PyStr (restaurant_name o));
   ("date", PyDate (date o));
   ("orders_count", PyInt (orders_count o))].

(** The grouped join over the closed orders is taken as given:
    [reports_view] is what SELECT ... WHERE "do".order_status = 'CLOSED'
    GROUP BY dt.date, dr.restaurant_id, dr.restaurant_name yields; the date
    condition of the WHERE clause reads a grouping column and is applied to
    the groups. The list holds the groups in the order in which one
    execution of the query meets them. *)
Record Source := mk_Source { reports_view : list RestaurantReportObj }.

(** [WHERE dt.date >= threshold ORDER BY dt.date OFFSET offset LIMIT limit],
    executed once. ORDER BY dt.date says nothing about the reports of one
    date: they come in the order in which this execution met them, and
    another execution may meet them in another order. So [src] is the view
    of one execution, and a run that sends the query several times has a
    view for each ([Executions] below). *)
Definition list_reports (report_settings : RestaurantReportSettings)
  (offset limit : nat) (src : Source) : list RestaurantReportObj :=
  firstn limit
    (skipn offset
       (order_by date
          (filter (fun r => leb (last_loaded_date report_settings) (date r))
                  (reports_view src)))).

(** A row of [cdm.dm_settlement_report]. *)
Record DmSettlementReport := mk_DmSettlementReport {
  sr_id : Z;
  sr_restaurant_id : string;
  sr_restaurant_name : string;
  settlement_date : date_;
  sr_orders_count : Z;
  sr_orders_total_sum : Q;
  orders_bonus_payment_sum : Q;
  orders_bonus_granted_sum : Q;
  order_processing_fee : Q;
  restaurant_reward_sum : Q
}.

(** The SET list of ON CONFLICT (settlement_date, restaurant_id) DO UPDATE. *)
Definition update_report (report : RestaurantReportObj)
  (r : DmSettlementReport) : DmSettlementReport :=
  mk_DmSettlementReport (sr_id r) (sr_restaurant_id r) (sr_restaurant_name r)
    (settlement_date r) (orders_count report) (orders_total_sum report)
    (bonus_payment_sum report) (bonus_granted_sum report)
    (orders_total_sum report * (1#4))%Q
    (orders_total_sum report - orders_total_sum report * (1#4) -
     bonus_payment_sum report)%Q.

(** The VALUES list. *)
Definition new_report (report : RestaurantReportObj) (i : Z) :
  DmSettlementReport :=
  mk_DmSettlementReport i (restaurant_id report) (restaurant_name report)
    (date report) (orders_count report) (orders_total_sum report)
    (bonus_payment_sum report) (bonus_granted_sum report)
    (orders_total_sum report * (1#4))%Q
    (orders_total_sum report - orders_total_sum report * (1#4) -
     bonus_payment_sum report)%Q.

Definition row_key (r : DmSettlementReport) : date_ * string :=
  (settlement_date r, sr_restaurant_id r).

Definition report_key (report : RestaurantReportObj) : date_ * string :=
  (date report, restaurant_id report).

Definition insert_report (report : RestaurantReportObj)
  (t : table DmSettlementReport) : table DmSettlementReport :=
  insert_on_conflict (fun r => eqb (row_key r) (report_key report))
    (update_report report) (new_report report) t.

Definition WF_KEY : string := "settlement_report_dds_to_cdm_workflow".
Definition BATCH_LIMIT : nat := 100.

(** What the source holds for a run: the groups of the view as the
    database call number [n] of the run meets them. The views of a run are
    arrangements of the same groups when nothing is written to the source
    meanwhile. *)
Definition Executions := nat -> Source.

Section Run.
Variable fails : nat -> bool.

(** [self.workflow.list_reports(source, report_settings, offset, limit)]:
    one execution of the query, on the view this call meets. *)
Definition source_list_reports (report_settings : RestaurantReportSettings)
  (offset limit : nat) :
  M Executions (dest DmSettlementReport) (list RestaurantReportObj) :=
  db_call fails
    (fun w => (list_reports report_settings offset limit (source w (steps w)),
               w)).

(** The [while True] loop. Every round but the last reads at least one
    report more, so the loop makes at most one round more than there are
    reports to read; [fuel] counts the rounds down. *)
Fixpoint drain (fuel : nat) (report_settings : RestaurantReportSettings)
  (offset : nat) (last_loaded_report : option RestaurantReportObj) :
  M Executions (dest DmSettlementReport) (option RestaurantReportObj) :=
  match fuel with
  | O => ret last_loaded_report
  | Datatypes.S fuel' =>
      load_queue <- source_list_reports report_settings offset BATCH_LIMIT ;;
      match load_queue with
      | [] => ret last_loaded_report
      | _ :: _ =>
          for_each (fun report =>
                      target_insert fails (insert_into_dest insert_report report))
                   load_queue ;;;
          last_loaded <- lift ValueError
                           (py_max RestaurantReportObj_lt load_queue) ;;
          drain fuel' report_settings (offset + length load_queue)
            (Some last_loaded)
      end
  end.

Definition run_body (fuel : nat) :
  M Executions (dest DmSettlementReport) unit :=
  wf_setting <- get_setting fails WF_KEY ;;
  report_settings <- lift ValidationError
                       (RestaurantReportSettings_init
                          (workflow_settings wf_setting)) ;;
  last_loaded_report <- drain fuel report_settings 0 None ;;
  match last_loaded_report with
  | Some report =>
      report_settings' <- lift ValidationError
                            (RestaurantReportSettings_init
                               (RestaurantReportObj_dict report)) ;;
      save_setting fails (workflow_key wf_setting)
        (PyModel (RestaurantReportSettings_dict report_settings'))
  | None => ret tt
  end.

(** [SettlementReportLoader.run]. *)
Definition run (fuel : nat) : M Executions (dest DmSettlementReport) unit :=
  with_connections fails (run_body fuel).

End Run.

(** Everything one execution of the query yields from the watermark date
    on, in date order. *)
Definition pending (st : RestaurantReportSettings) (src : Source) :
  list RestaurantReportObj :=
  order_by date
    (filter (fun r => leb (last_loaded_date st) (date r)) (reports_view src)).

(** The pages the loop reads one after another, when its next query is
    the database call after call [n] and skips [offset] reports: every
    page is sent as a query of its own, and the inserts of a page are
    calls too. *)
Fixpoint pages_read (fuel : nat) (st : RestaurantReportSettings)
  (offset n : nat) (execs : Executions) : list (list RestaurantReportObj) :=
  match fuel with
  | O => []
  | Datatypes.S fuel' =>
      match list_reports st offset BATCH_LIMIT (execs (Datatypes.S n)) with
      | [] => []
      | r :: l =>
          (r :: l) ::
          pages_read fuel' st (offset + length (r :: l))
            (length (r :: l) + Datatypes.S n) execs
      end
  end.

(** The destination after a run that returned: the reports of every page
    upserted, and the date of the greatest report of the last page stored.
    The first query of a run is its fourth call, after the two connects
    and the checkpoint query. *)
Definition loaded (fuel : nat) (execs : Executions)
  (d : dest DmSettlementReport) : option (dest DmSettlementReport) :=
  match stored_setting WF_KEY d with
  | None => None
  | Some e =>
      match RestaurantReportSettings_init (workflow_settings e) with
      | None => None
      | Some st =>
          let pages := pages_read fuel st 0 3 execs in
          match py_max RestaurantReportObj_lt (last pages []) with
          | None => Some (write_all insert_report (concat pages) d)
          | Some m =>
              Some (advance RestaurantReportSettings_dict (workflow_key e)
                      (mk_RestaurantReportSettings (date m))
                      (write_all insert_report (concat pages) d))
          end
      end
  end.

End SettlementReport.

(** ** The readers (claim C4) *)

Lemma In_kept_prefix {A} (ok : A -> bool) (l : list A) (x : A) :
  In x (kept_prefix ok l) -> In x l.
Proof. rewrite kept_prefix_firstn; apply In_firstn. Qed.

Lemma Sorted_kept_prefix {R K} `{Ord K} (key : R -> K) (ok : R -> bool)
  (l : list R) :
  Sorted (key_le key) l -> Sorted (key_le key) (kept_prefix ok l).
Proof. rewrite kept_prefix_firstn; apply Sorted_firstn. Qed.

Lemma DmOrders_page (st : DmOrders.OrderSettings) (limit : nat)
  (src : DmOrders.Source) :
  let page := DmOrders.list_orders st limit src in
  Forall (fun o => ltb (DmOrders.last_loaded_ts st, DmOrders.last_loaded_oid st)
                       (DmOrders.update_ts o, DmOrders.object_id o) = true)
         page /\
  Sorted (key_le DmOrders.OrderObj_key) page /\
  (length page <= limit)%nat.
Proof.
  unfold DmOrders.list_orders, DmOrders.gap_filter; simpl.
  rewrite truncate_at_gap_prefix, DmOrders.select_orders_keyset.
  repeat split.
  - apply Forall_forall; intros o Ho.
    apply In_kept_prefix, keyset_page_after in Ho; apply Ho.
  - apply Sorted_kept_prefix, keyset_page_sorted.
  - etransitivity; [apply kept_prefix_length|apply keyset_page_length].
Qed.

Lemma cursor_limit_pos {A} (n : nat) (l : list A) :
  StgOrders.cursor_limit (Datatypes.S n) l = firstn (Datatypes.S n) l.
Proof. reflexivity. Qed.

Lemma StgOrders_page (st : StgOrders.OrderSettings) (limit : nat)
  (src : StgOrders.Source) :
  let page := StgOrders.list_orders st limit src in
  Forall (fun o => ltb (StgOrders.last_loaded_ts st, StgOrders.last_loaded_oid st)
                       (StgOrders.update_ts o, StgOrders.object_id o) = true)
         page /\
  Sorted (key_le StgOrders.OrderObj_key) page /\
  (limit <> 0%nat -> (length page <= limit)%nat).
Proof.
  unfold StgOrders.list_orders; simpl; repeat split.
  - apply Forall_forall; intros o Ho.
    assert (Hin : In o (order_by StgOrders.OrderObj_key
                          (filter (fun doc =>
                             ltb (StgOrders.last_loaded_ts st, StgOrders.last_loaded_oid st)
                                 (StgOrders.update_ts doc, StgOrders.object_id doc))
                           src))).
    { erewrite filter_ext by (intros; apply ltb_pair).
      destruct limit; [assumption|].
      rewrite cursor_limit_pos in Ho; now apply In_firstn in Ho. }
    apply order_by_In, filter_In in Hin; apply Hin.
  - destruct limit; [|rewrite cursor_limit_pos; apply Sorted_firstn];
      apply order_by_sorted.
  - intros Hl; destruct limit; [congruence|].
    rewrite cursor_limit_pos, length_firstn; lia.
Qed.

Lemma SettlementReport_page (st : SettlementReport.RestaurantReportSettings)
  (offset limit : nat) (src : SettlementReport.Source) :
  let page := SettlementReport.list_reports st offset limit src in
  Forall (fun r => leb (SettlementReport.last_loaded_date st)
                       (SettlementReport.date r) = true) page /\
  Sorted (key_le SettlementReport.date) page /\
  (length page <= limit)%nat.
Proof.
  unfold SettlementReport.list_reports; simpl; repeat split.
  - apply Forall_forall; intros r Hr.
    apply In_firstn, In_skipn, order_by_In, filter_In in Hr; apply Hr.
  - apply Sorted_firstn, Sorted_skipn, order_by_sorted.
  - rewrite length_firstn; lia.
Qed.

(** C4, as amended. The two order readers return records whose key
    [(update_ts, object_id)] is strictly after the watermark in the order
    of pairs, in ascending key order, at most [limit] of them (for the
    document store when [limit] is not 0, which there means no limit). The
    settlement reader returns records dated on or after the watermark
    date, in ascending date order, at most [limit] of them. *)
Theorem readers_return_ordered_bounded_pages :
  (forall st limit src,
     let page := DmOrders.list_orders st limit src in
     Forall (fun o =>
               ltb (DmOrders.last_loaded_ts st, DmOrders.last_loaded_oid st)
                   (DmOrders.update_ts o, DmOrders.object_id o) = true) page /\
     Sorted (key_le DmOrders.OrderObj_key) page /\
     (length page <= limit)%nat) /\
  (forall st limit src,
     let page := StgOrders.list_orders st limit src in
     Forall (fun o =>
               ltb (StgOrders.last_loaded_ts st, StgOrders.last_loaded_oid st)
                   (StgOrders.update_ts o, StgOrders.object_id o) = true) page /\
     Sorted (key_le StgOrders.OrderObj_key) page /\
     (limit <> 0%nat -> (length page <= limit)%nat)) /\
  (forall st offset limit src,
     let page := SettlementReport.list_reports st offset limit src in
     Forall (fun r => leb (SettlementReport.last_loaded_date st)
                          (SettlementReport.date r) = true) page /\
     Sorted (key_le SettlementReport.date) page /\
     (length page <= limit)%nat).
Proof.
  split; [|split].
  - exact DmOrders_page.
  - exact StgOrders_page.
  - exact SettlementReport_page.
Qed.

Definition stg_order_example (b : Byte.byte) (sec : Z) : StgOrders.OrderObj :=
  StgOrders.mk_OrderObj (mk_oid (repeat b 12)) (mk_datetime 2022 1 1 0 0 sec 0) [].

Definition three_documents : StgOrders.Source :=
  [stg_order_example Byte.x03 30; stg_order_example Byte.x01 10;
   stg_order_example Byte.x02 10].

Lemma readers_witness :
  (length (StgOrders.list_orders
             (StgOrders.mk_OrderSettings (mk_datetime 2022 1 1 0 0 10 0)
                (mk_oid (repeat Byte.x01 12)))
             1 three_documents) <= 1)%nat.
Proof.
  apply (proj1 (proj2 readers_return_ordered_bounded_pages)
           (StgOrders.mk_OrderSettings (mk_datetime 2022 1 1 0 0 10 0)
              (mk_oid (repeat Byte.x01 12)))
           1%nat three_documents).
  discriminate.
Defined.

Example stg_orders_page :
  StgOrders.list_orders
    (StgOrders.mk_OrderSettings (mk_datetime 2022 1 1 0 0 10 0)
       (mk_oid (repeat Byte.x01 12)))
    5 three_documents =
  [stg_order_example Byte.x02 10; stg_order_example Byte.x03 30].
Proof. reflexivity. Qed.

Definition report_example (rid : string) (d : Z) : SettlementReport.RestaurantReportObj :=
  SettlementReport.mk_RestaurantReportObj rid "Cafe" (mk_date 2022 1 d) 3
    (1200#1) (100#1) (60#1).

(** C4 as stated fails for the settlement reader: the report dated on the
    watermark itself is returned, and its key is not strictly greater. *)
Lemma settlement_reader_returns_watermark_date :
  let st := SettlementReport.mk_RestaurantReportSettings (mk_date 2022 1 5) in
  let src := SettlementReport.mk_Source [report_example "r1" 5] in
  In (report_example "r1" 5) (SettlementReport.list_reports st 0 100 src) /\
  ltb (SettlementReport.last_loaded_date st)
      (SettlementReport.date (report_example "r1" 5)) = false.
Proof. split; [left; reflexivity|reflexivity]. Qed.

(** ** [dwh/dds/dm_couriers_loader.py] *)

Module DmCouriers.

Record CourierObj := mk_CourierObj {
  id : Z;
  object_id : string;
  name : string
}.

(** [CourierObj.__lt__]. *)
Definition CourierObj_lt (self other : CourierObj) : bool :=
  ltb (id self) (id other).

Definition CourierObj_dict (o : CourierObj) : dict :=
  [("id", PyInt (id o)); ("object_id", PyStr (object_id o));
   ("name", PyStr (name o))].

Record CourierSettings := mk_CourierSettings { last_loaded_id : Z }.

Definition CourierSettings_init (kwargs : dict) : option CourierSettings :=
  match field "id" "last_loaded_id" as_int (Some (-1)) kwargs with
  | Some i => Some (mk_CourierSettings i)
  | None => None
  end.

Definition CourierSettings_dict (st : CourierSettings) : dict :=
  [("last_loaded_id", PyInt (last_loaded_id st))].

(** [stg.deliverysystem_couriers]. *)
Definition Source := list CourierObj.

(** [WHERE id > threshold ORDER BY id LIMIT limit]. *)
Definition list_couriers (courier_settings : CourierSettings) (limit : nat)
  (src : Source) : list CourierObj :=
  firstn limit
    (order_by id
       (filter (fun c => ltb (last_loaded_id courier_settings) (id c)) src)).

(** A row of [dds.dm_couriers]. *)
Record DmCourier := mk_DmCourier {
  dmc_id : Z;
  courier_id : string;
  courier_name : string
}.

Definition insert_courier (courier : CourierObj) (t : table DmCourier) :
  table DmCourier :=
  insert_on_conflict
    (fun r => String.eqb (courier_id r) (object_id courier))
    (fun r => mk_DmCourier (dmc_id r) (courier_id r) (name courier))
    (fun i => mk_DmCourier i (object_id courier) (name courier))
    t.

Definition WF_KEY : string := "couriers_stg_to_dds_workflow".
Definition BATCH_LIMIT : nat := 50.

(** [CouriersLoader.run]. *)
Definition run (fails : nat -> bool) : M Source (dest DmCourier) unit :=
  loader_run WF_KEY BATCH_LIMIT (fun d => d) CourierSettings_init
    CourierSettings_dict list_couriers insert_courier CourierObj_lt
    CourierObj_dict fails.

(** The watermark a run starts from. *)
Definition stored_checkpoint (d : dest DmCourier) : option CourierSettings :=
  checkpoint WF_KEY (fun kw => kw) CourierSettings_init d.

(** The rows of the source that the watermark has not passed. *)
Definition pending (st : CourierSettings) (src : Source) : list CourierObj :=
  filter (fun c => ltb (last_loaded_id st) (id c)) src.

End DmCouriers.

(** ** The checkpoint: first run and round trip (claims C8 and C9) *)

Lemma get_setting_absent {S Row} (fails : nat -> bool) (wf_key : string)
  (w : world S (dest Row)) :
  select_setting wf_key (srv_wf_settings (working w)) = None ->
  fails (steps w) = false ->
  fst (get_setting fails wf_key w) = Ok (mk_EtlSetting 0 wf_key []).
Proof.
  intros Hs Hf; unfold get_setting, bind, target_retrieve, db_call.
  rewrite Hf; simpl; now rewrite Hs.
Qed.

Definition empty_dest {Row} : dest Row := mk_dest (mk_table [] 0) (mk_table [] 0).

(** C8, as amended. For a workflow key without a row, [get_setting]
    returns the settings object with an empty blob. The settings models
    with defaults turn it into their sentinel — [datetime.min] with the
    all-zero id, [-1], [date.min] — while the models of the deliveries and
    of the origin orders refuse it: those loaders first store the caller's
    [start_date] under the timestamp key, and the run starts from there. *)
Theorem first_run_checkpoint :
  (forall (S Row : Type) (fails : nat -> bool) (wf_key : string)
          (w : world S (dest Row)),
     select_setting wf_key (srv_wf_settings (working w)) = None ->
     fails (steps w) = false ->
     fst (get_setting fails wf_key w) = Ok (mk_EtlSetting 0 wf_key [])) /\
  DmOrders.OrderSettings_init [] =
    Some (DmOrders.mk_OrderSettings datetime_min zero_oid) /\
  FctProductSales.ProductSaleSettings_init [] =
    Some (FctProductSales.mk_ProductSaleSettings datetime_min zero_oid) /\
  DmCouriers.CourierSettings_init [] =
    Some (DmCouriers.mk_CourierSettings (-1)) /\
  SettlementReport.RestaurantReportSettings_init [] =
    Some (SettlementReport.mk_RestaurantReportSettings date_min) /\
  Deliveries.DeliverySettings_init [] = None /\
  StgOrders.OrderSettings_init [] = None /\
  (forall start_date,
     Deliveries.DeliverySettings_init (Deliveries.with_start_date start_date []) =
     Some (Deliveries.mk_DeliverySettings start_date zero_oid)) /\
  (forall start_date,
     StgOrders.OrderSettings_init (StgOrders.with_start_date start_date []) =
     Some (StgOrders.mk_OrderSettings start_date zero_ObjectId)).
Proof.
  split; [intros; now apply get_setting_absent|].
  repeat split; reflexivity.
Qed.

Lemma first_run_checkpoint_witness :
  fst (get_setting (fun _ => false) DmOrders.WF_KEY
         (start (DmOrders.mk_Source [] [] [] []) (@empty_dest DmOrders.DmOrder))) =
  Ok (mk_EtlSetting 0 DmOrders.WF_KEY []).
Proof.
  apply (proj1 first_run_checkpoint DmOrders.Source DmOrders.DmOrder
           (fun _ => false) DmOrders.WF_KEY); reflexivity.
Defined.

(** C8 as stated fails for the deliveries: with no row stored, the run
    started with [start_date] 2022-10-03 reads from that day, not from the
    minimum timestamp. *)
Lemma deliveries_first_checkpoint_is_start_date :
  let start_date := mk_datetime 2022 10 3 0 0 0 0 in
  select_setting Deliveries.WF_KEY
    (srv_wf_settings (@empty_dest Deliveries.StgDelivery)) = None /\
  checkpoint Deliveries.WF_KEY (Deliveries.with_start_date start_date)
    Deliveries.DeliverySettings_init (@empty_dest Deliveries.StgDelivery) =
  Some (Deliveries.mk_DeliverySettings start_date zero_oid) /\
  start_date <> datetime_min.
Proof. repeat split; discriminate. Qed.

Definition four_digit_year (y : Z) : Prop := 1000 <= y <= 9999.

Lemma DmOrders_blob (st : DmOrders.OrderSettings) :
  json2str (PyModel (DmOrders.OrderSettings_dict st)) =
  PyDict [("last_loaded_oid", PyStr (DmOrders.last_loaded_oid st));
          ("last_loaded_ts",
           PyStr (strftime_datetime (DmOrders.last_loaded_ts st)))].
Proof. reflexivity. Qed.

Lemma StgOrders_blob (st : StgOrders.OrderSettings) :
  json2str (PyModel (StgOrders.OrderSettings_dict st)) =
  PyDict [("last_loaded_oid", PyStr (oid_str (StgOrders.last_loaded_oid st)));
          ("last_loaded_ts",
           PyStr (strftime_datetime (StgOrders.last_loaded_ts st)))].
Proof. reflexivity. Qed.

Lemma DmCouriers_blob (st : DmCouriers.CourierSettings) :
  json2str (PyModel (DmCouriers.CourierSettings_dict st)) =
  PyDict [("last_loaded_id", PyInt (DmCouriers.last_loaded_id st))].
Proof. reflexivity. Qed.

Lemma SettlementReport_blob (st : SettlementReport.RestaurantReportSettings) :
  json2str (PyModel (SettlementReport.RestaurantReportSettings_dict st)) =
  PyDict [("last_loaded_date",
           PyStr (strftime_date (SettlementReport.last_loaded_date st)))].
Proof. reflexivity. Qed.

Lemma DmOrders_round_trip (wf_key : string) (t : table SettingsRow)
  (st : DmOrders.OrderSettings) :
  valid_datetime (DmOrders.last_loaded_ts st) ->
  save_then_load DmOrders.OrderSettings_dict DmOrders.OrderSettings_init
    wf_key st t =
  Some (DmOrders.mk_OrderSettings (whole_seconds (DmOrders.last_loaded_ts st))
          (DmOrders.last_loaded_oid st)).
Proof.
  intros Hv; rewrite (save_then_load_blob _ _ _ _ _ (DmOrders_blob st)).
  unfold DmOrders.OrderSettings_init, field.
  cbn -[parse_datetime strftime_datetime].
  now rewrite parse_strftime_datetime.
Qed.

Lemma FctProductSales_blob (st : FctProductSales.ProductSaleSettings) :
  json2str (PyModel (FctProductSales.ProductSaleSettings_dict st)) =
  PyDict [("last_loaded_product_id",
           PyStr (FctProductSales.last_loaded_product_id st));
          ("last_loaded_ts",
           PyStr (strftime_datetime (FctProductSales.last_loaded_ts st)))].
Proof. reflexivity. Qed.

Lemma FctProductSales_round_trip (wf_key : string) (t : table SettingsRow)
  (st : FctProductSales.ProductSaleSettings) :
  valid_datetime (FctProductSales.last_loaded_ts st) ->
  save_then_load FctProductSales.ProductSaleSettings_dict
    FctProductSales.ProductSaleSettings_init wf_key st t =
  Some (FctProductSales.mk_ProductSaleSettings
          (whole_seconds (FctProductSales.last_loaded_ts st))
          (FctProductSales.last_loaded_product_id st)).
Proof.
  intros Hv; rewrite (save_then_load_blob _ _ _ _ _ (FctProductSales_blob st)).
  unfold FctProductSales.ProductSaleSettings_init, field.
  cbn -[parse_datetime strftime_datetime].
  now rewrite parse_strftime_datetime.
Qed.

Lemma StgOrders_round_trip (wf_key : string) (t : table SettingsRow)
  (st : StgOrders.OrderSettings) :
  valid_datetime (StgOrders.last_loaded_ts st) ->
  valid_oid (StgOrders.last_loaded_oid st) ->
  save_then_load StgOrders.OrderSettings_dict StgOrders.OrderSettings_init
    wf_key st t =
  Some (StgOrders.mk_OrderSettings (whole_seconds (StgOrders.last_loaded_ts st))
          (StgOrders.last_loaded_oid st)).
Proof.
  intros Hv Ho; rewrite (save_then_load_blob _ _ _ _ _ (StgOrders_blob st)).
  unfold StgOrders.OrderSettings_init, field.
  cbn -[parse_datetime strftime_datetime ObjectId_of_str oid_str].
  now rewrite parse_strftime_datetime, ObjectId_str_roundtrip.
Qed.

Lemma DmCouriers_round_trip (wf_key : string) (t : table SettingsRow)
  (st : DmCouriers.CourierSettings) :
  save_then_load DmCouriers.CourierSettings_dict
    DmCouriers.CourierSettings_init wf_key st t = Some st.
Proof.
  rewrite (save_then_load_blob _ _ _ _ _ (DmCouriers_blob st)).
  now destruct st.
Qed.

Lemma SettlementReport_round_trip (wf_key : string) (t : table SettingsRow)
  (st : SettlementReport.RestaurantReportSettings) :
  valid_date (SettlementReport.last_loaded_date st) ->
  save_then_load SettlementReport.RestaurantReportSettings_dict
    SettlementReport.RestaurantReportSettings_init wf_key st t = Some st.
Proof.
  intros Hv.
  rewrite (save_then_load_blob _ _ _ _ _ (SettlementReport_blob st)).
  unfold SettlementReport.RestaurantReportSettings_init, field.
  cbn -[parse_date strftime_date].
  rewrite parse_strftime_date by assumption; now destruct st.
Qed.

Lemma whole_seconds_id (t : datetime) : microsecond t = 0 -> whole_seconds t = t.
Proof. destruct t; simpl; intros ->; reflexivity. Qed.

(** C9, as amended. Written by [save_setting] and read back, a watermark
    keeps its ids, its integer and its date, and its timestamp down to the
    second: the text written is ["%Y-%m-%d %H:%M:%S"], so the microseconds
    come back as 0. (Years of four digits, which every C library prints
    alike under [%Y].) *)
Theorem settings_round_trip :
  (forall wf_key t (st : DmOrders.OrderSettings),
     valid_datetime (DmOrders.last_loaded_ts st) ->
     four_digit_year (year (DmOrders.last_loaded_ts st)) ->
     save_then_load DmOrders.OrderSettings_dict DmOrders.OrderSettings_init
       wf_key st t =
     Some (DmOrders.mk_OrderSettings
             (whole_seconds (DmOrders.last_loaded_ts st))
             (DmOrders.last_loaded_oid st))) /\
  (forall wf_key t (st : StgOrders.OrderSettings),
     valid_datetime (StgOrders.last_loaded_ts st) ->
     four_digit_year (year (StgOrders.last_loaded_ts st)) ->
     valid_oid (StgOrders.last_loaded_oid st) ->
     save_then_load StgOrders.OrderSettings_dict StgOrders.OrderSettings_init
       wf_key st t =
     Some (StgOrders.mk_OrderSettings
             (whole_seconds (StgOrders.last_loaded_ts st))
             (StgOrders.last_loaded_oid st))) /\
  (forall wf_key t (st : DmCouriers.CourierSettings),
     save_then_load DmCouriers.CourierSettings_dict
       DmCouriers.CourierSettings_init wf_key st t = Some st) /\
  (forall wf_key t (st : SettlementReport.RestaurantReportSettings),
     valid_date (SettlementReport.last_loaded_date st) ->
     four_digit_year (d_year (SettlementReport.last_loaded_date st)) ->
     save_then_load SettlementReport.RestaurantReportSettings_dict
       SettlementReport.RestaurantReportSettings_init wf_key st t = Some st) /\
  (forall t : datetime, microsecond t = 0 -> whole_seconds t = t).
Proof.
  repeat split; intros.
  - now apply DmOrders_round_trip.
  - now apply StgOrders_round_trip.
  - apply DmCouriers_round_trip.
  - now apply SettlementReport_round_trip.
  - now apply whole_seconds_id.
Qed.

Definition half_past : datetime := mk_datetime 2022 10 3 12 30 15 500000.

Lemma settings_round_trip_witness :
  save_then_load DmOrders.OrderSettings_dict DmOrders.OrderSettings_init
    DmOrders.WF_KEY (DmOrders.mk_OrderSettings half_past "633a8d4e5b1c2d3e4f506172")
    (mk_table [] 0) =
  Some (DmOrders.mk_OrderSettings (mk_datetime 2022 10 3 12 30 15 0)
          "633a8d4e5b1c2d3e4f506172").
Proof.
  apply (proj1 settings_round_trip DmOrders.WF_KEY (mk_table [] 0)
           (DmOrders.mk_OrderSettings half_past "633a8d4e5b1c2d3e4f506172"));
    unfold valid_datetime, four_digit_year; simpl; lia.
Defined.

(** C9 as stated fails: a watermark at 12:30:15.500000 comes back at
    12:30:15, and no reader could do better, since the text written for the
    two timestamps is the same. *)
Lemma settings_round_trip_loses_microseconds :
  let st := DmOrders.mk_OrderSettings half_past "633a8d4e5b1c2d3e4f506172" in
  save_then_load DmOrders.OrderSettings_dict DmOrders.OrderSettings_init
    DmOrders.WF_KEY st (mk_table [] 0) <> Some st /\
  to_dict (PyDatetime half_past) = to_dict (PyDatetime (whole_seconds half_past)) /\
  half_past <> whole_seconds half_past.
Proof. repeat split; discriminate. Qed.

(** ** The watermark a run persists (claim C2) *)

Lemma DmOrders_run_watermark (fails : nat -> bool) (src : DmOrders.Source)
  (d : dest DmOrders.DmOrder) (w' : world DmOrders.Source (dest DmOrders.DmOrder)) :
  DmOrders.run fails (start src d) = (Ok tt, w') ->
  exists st,
    checkpoint DmOrders.WF_KEY (fun kw => kw) DmOrders.OrderSettings_init d =
      Some st /\
    let load_queue := DmOrders.list_orders st DmOrders.BATCH_LIMIT src in
    (load_queue = [] -> committed w' = d) /\
    (load_queue <> [] ->
     exists m,
       py_max DmOrders.OrderObj_lt load_queue = Some m /\
       In m load_queue /\
       Forall (fun o => leb (DmOrders.OrderObj_key o) (DmOrders.OrderObj_key m)
                        = true) load_queue /\
       dest_table (committed w') =
         fold_left (fun t o => DmOrders.insert_order o t) load_queue
           (dest_table d) /\
       (valid_datetime (DmOrders.update_ts m) ->
        four_digit_year (year (DmOrders.update_ts m)) ->
        checkpoint DmOrders.WF_KEY (fun kw => kw) DmOrders.OrderSettings_init
          (committed w') =
        Some (DmOrders.mk_OrderSettings (whole_seconds (DmOrders.update_ts m))
                (DmOrders.object_id m)))).
Proof.
  intros Hr; apply loader_run_ok, after_run_cases in Hr.
  destruct Hr as (st & Hc & Hq); exists st; split; [exact Hc|].
  cbv zeta; destruct (DmOrders.list_orders st DmOrders.BATCH_LIMIT src)
    as [|o l] eqn:El; split; try congruence.
  intros _; destruct Hq as (m & st' & Hm & Hs & ->); exists m.
  destruct (py_max_spec DmOrders.OrderObj_key _ Hm) as [Hin Hall].
  injection Hs as <-.
  repeat split; try assumption.
  - unfold advance; cbn [dest_table]; apply write_all_table.
  - intros Hv _; rewrite checkpoint_advance.
    exact (DmOrders_round_trip DmOrders.WF_KEY _
             (DmOrders.mk_OrderSettings (DmOrders.update_ts m)
                (DmOrders.object_id m)) Hv).
Qed.

Lemma FctProductSales_run_watermark (fails : nat -> bool)
  (src : FctProductSales.Source) (d : dest FctProductSales.ProductSale)
  (w' : world FctProductSales.Source (dest FctProductSales.ProductSale)) :
  FctProductSales.run fails (start src d) = (Ok tt, w') ->
  exists st,
    checkpoint FctProductSales.WF_KEY (fun kw => kw)
      FctProductSales.ProductSaleSettings_init d = Some st /\
    let load_queue :=
      FctProductSales.list_sales st FctProductSales.BATCH_LIMIT src in
    (load_queue = [] -> committed w' = d) /\
    (load_queue <> [] ->
     exists m,
       py_max FctProductSales.ProductSaleObj_lt load_queue = Some m /\
       In m load_queue /\
       Forall (fun o => leb (FctProductSales.ProductSaleObj_key o)
                            (FctProductSales.ProductSaleObj_key m) = true)
              load_queue /\
       dest_table (committed w') =
         fold_left (fun t o => FctProductSales.insert_sale o t) load_queue
           (dest_table d) /\
       (valid_datetime (FctProductSales.event_ts m) ->
        four_digit_year (year (FctProductSales.event_ts m)) ->
        checkpoint FctProductSales.WF_KEY (fun kw => kw)
          FctProductSales.ProductSaleSettings_init (committed w') =
        Some (FctProductSales.mk_ProductSaleSettings
                (whole_seconds (FctProductSales.event_ts m))
                (FctProductSales.product_id m)))).
Proof.
  intros Hr; apply loader_run_ok, after_run_cases in Hr.
  destruct Hr as (st & Hc & Hq); exists st; split; [exact Hc|].
  cbv zeta;
    destruct (FctProductSales.list_sales st FctProductSales.BATCH_LIMIT src)
    as [|o l] eqn:El; split; try congruence.
  intros _; destruct Hq as (m & st' & Hm & Hs & ->); exists m.
  destruct (py_max_spec FctProductSales.ProductSaleObj_key _ Hm) as [Hin Hall].
  injection Hs as <-.
  repeat split; try assumption.
  - unfold advance; cbn [dest_table]; apply write_all_table.
  - intros Hv _; rewrite checkpoint_advance.
    exact (FctProductSales_round_trip FctProductSales.WF_KEY _
             (FctProductSales.mk_ProductSaleSettings (FctProductSales.event_ts m)
                (FctProductSales.product_id m)) Hv).
Qed.

(** C2, as amended. A run of the orders or of the product-sales loader
    that returns has, on an empty filtered batch, left the destination as it
    was; on a non-empty one it has written every record of the batch and
    stored as watermark the key of [max(load_queue)] — a record of the
    batch that no record exceeds in the order of [__lt__] — with the
    timestamp cut to whole seconds by the serialisation. *)
Theorem run_persists_key_of_max :
  (forall fails src d w',
     DmOrders.run fails (start src d) = (Ok tt, w') ->
     exists st,
       checkpoint DmOrders.WF_KEY (fun kw => kw) DmOrders.OrderSettings_init d =
         Some st /\
       let load_queue := DmOrders.list_orders st DmOrders.BATCH_LIMIT src in
       (load_queue = [] -> committed w' = d) /\
       (load_queue <> [] ->
        exists m,
          py_max DmOrders.OrderObj_lt load_queue = Some m /\
          In m load_queue /\
          Forall (fun o => leb (DmOrders.OrderObj_key o)
                               (DmOrders.OrderObj_key m) = true) load_queue /\
          dest_table (committed w') =
            fold_left (fun t o => DmOrders.insert_order o t) load_queue
              (dest_table d) /\
          (valid_datetime (DmOrders.update_ts m) ->
           four_digit_year (year (DmOrders.update_ts m)) ->
           checkpoint DmOrders.WF_KEY (fun kw => kw)
             DmOrders.OrderSettings_init (committed w') =
           Some (DmOrders.mk_OrderSettings
                   (whole_seconds (DmOrders.update_ts m))
                   (DmOrders.object_id m))))) /\
  (forall fails src d w',
     FctProductSales.run fails (start src d) = (Ok tt, w') ->
     exists st,
       checkpoint FctProductSales.WF_KEY (fun kw => kw)
         FctProductSales.ProductSaleSettings_init d = Some st /\
       let load_queue :=
         FctProductSales.list_sales st FctProductSales.BATCH_LIMIT src in
       (load_queue = [] -> committed w' = d) /\
       (load_queue <> [] ->
        exists m,
          py_max FctProductSales.ProductSaleObj_lt load_queue = Some m /\
          In m load_queue /\
          Forall (fun o => leb (FctProductSales.ProductSaleObj_key o)
                               (FctProductSales.ProductSaleObj_key m) = true)
                 load_queue /\
          dest_table (committed w') =
            fold_left (fun t o => FctProductSales.insert_sale o t) load_queue
              (dest_table d) /\
          (valid_datetime (FctProductSales.event_ts m) ->
           four_digit_year (year (FctProductSales.event_ts m)) ->
           checkpoint FctProductSales.WF_KEY (fun kw => kw)
             FctProductSales.ProductSaleSettings_init (committed w') =
           Some (FctProductSales.mk_ProductSaleSettings
                   (whole_seconds (FctProductSales.event_ts m))
                   (FctProductSales.product_id m))))).
Proof.
  split; intros fails src d w'.
  - apply DmOrders_run_watermark.
  - apply FctProductSales_run_watermark.
Qed.

Definition no_fault : nat -> bool := fun _ => false.

Definition stg_order (oid : string) (ts : datetime) : DmOrders.StgOrder :=
  DmOrders.mk_StgOrder oid ts "CLOSED" "u1" "r1" (mk_datetime 2022 10 3 12 0 0 0).

Definition orders_source (l : list DmOrders.StgOrder) : DmOrders.Source :=
  DmOrders.mk_Source l [(1, "u1")] [(1, "r1")]
    [(1, mk_datetime 2022 10 3 12 0 0 0)].

Definition two_orders_source : DmOrders.Source :=
  orders_source
    [stg_order "633a8d4e5b1c2d3e4f506172" (mk_datetime 2022 10 3 12 30 16 0);
     stg_order "633a8d4e5b1c2d3e4f506171" (mk_datetime 2022 10 3 12 30 15 0)].

Lemma run_persists_key_of_max_witness :
  exists st,
    checkpoint DmOrders.WF_KEY (fun kw => kw) DmOrders.OrderSettings_init
      (@empty_dest DmOrders.DmOrder) = Some st /\
    length (DmOrders.list_orders st DmOrders.BATCH_LIMIT two_orders_source)
      = 2%nat.
Proof.
  assert (Hr : DmOrders.run no_fault (start two_orders_source empty_dest) =
               (Ok tt, snd (DmOrders.run no_fault
                              (start two_orders_source empty_dest))))
    by (vm_compute; reflexivity).
  destruct (proj1 run_persists_key_of_max no_fault two_orders_source empty_dest
              _ Hr) as (st & Hc & _).
  exists st; split; [exact Hc|].
  vm_compute in Hc; injection Hc as <-; vm_compute; reflexivity.
Defined.

Example two_orders_checkpoint :
  checkpoint DmOrders.WF_KEY (fun kw => kw) DmOrders.OrderSettings_init
    (committed (snd (DmOrders.run no_fault (start two_orders_source empty_dest))))
  = Some (DmOrders.mk_OrderSettings (mk_datetime 2022 10 3 12 30 16 0)
            "633a8d4e5b1c2d3e4f506172").
Proof. vm_compute; reflexivity. Qed.

Definition half_past_source : DmOrders.Source :=
  orders_source [stg_order "633a8d4e5b1c2d3e4f506172" half_past].

(** C2 as stated fails: the only order of the batch is its maximum, its
    key carries 500000 microseconds, and the watermark the run persists
    does not. *)
Lemma persisted_watermark_is_not_the_key :
  let o := DmOrders.mk_OrderObj "633a8d4e5b1c2d3e4f506172" half_past "CLOSED"
             (Some 1) (Some 1) (Some 1) in
  let r := DmOrders.run no_fault (start half_past_source empty_dest) in
  fst r = Ok tt /\
  DmOrders.list_orders (DmOrders.mk_OrderSettings datetime_min zero_oid)
    DmOrders.BATCH_LIMIT half_past_source = [o] /\
  py_max DmOrders.OrderObj_lt [o] = Some o /\
  exists st,
    checkpoint DmOrders.WF_KEY (fun kw => kw) DmOrders.OrderSettings_init
      (committed (snd r)) = Some st /\
    (DmOrders.last_loaded_ts st, DmOrders.last_loaded_oid st) <>
    DmOrders.OrderObj_key o.
Proof.
  cbv zeta; split; [vm_compute; reflexivity|].
  split; [vm_compute; reflexivity|].
  split; [vm_compute; reflexivity|].
  exists (DmOrders.mk_OrderSettings (whole_seconds half_past)
            "633a8d4e5b1c2d3e4f506172").
  split; [vm_compute; reflexivity|].
  intros H; vm_compute in H; discriminate H.
Qed.

(** ** Errors and the transaction (claim C3) *)

(** After a scope that raises, the transaction it had opened is gone: the
    destination as the connection sees it is the durable one again. *)
Lemma target_connection_rolled_back {S T A} (fails : nat -> bool)
  (body : M S T A) (w w' : world S T) (e : exn) :
  keeps_committed body -> working w = committed w ->
  target_connection fails body w = (Raise e, w') ->
  working w' = committed w.
Proof.
  intros Hb Hw; unfold target_connection, connect, db_call.
  destruct (fails (steps w)); [intros [= _ <-]; exact Hw|].
  match goal with |- context [body ?x] =>
    generalize (Hb x); destruct (body x) as [[a|e1] w1] end;
    cbn [snd committed]; intros Hk.
  - unfold target_commit, db_call.
    destruct (fails (steps w1)); [|discriminate].
    intros [= _ <-]; exact Hk.
  - intros [= _ <-]; exact Hk.
Qed.

(** After a run, whatever its outcome, nothing is pending: the two scopes
    have committed what the body wrote or rolled it back. *)
Lemma with_connections_nothing_pending {S T A} (fails : nat -> bool)
  (body : M S T A) (src : S) (d : T) (r : result A) (w' : world S T) :
  with_connections fails body (start src d) = (r, w') ->
  working w' = committed w'.
Proof.
  unfold with_connections, source_connection, target_connection, connect,
    target_commit, source_commit, target_rollback, db_call, start;
    cbn [steps source committed working].
  repeat match goal with
         | |- context [if fails ?n then _ else _] => destruct (fails n)
         | |- context [body ?x] => destruct (body x) as [[? | ?] ?]
         | |- (_, _) = (_, _) -> _ => intros [= _ <-]; reflexivity
         end.
Qed.

(** C3. In a run of the orders loader, an exception inside the
    destination scope — from reading the checkpoint, reading the batch,
    writing a record, saving the checkpoint or committing — is raised again
    by the scope after a rollback: the durable destination is the one
    before the run, and what the body had written in the open transaction
    is gone with it. Whatever fails, the durable destination after the run
    is never in between: it is the old one, or the one with every record
    of the batch and the new watermark; and no write is left pending. A run
    that returns has committed both, in the one transaction. *)
Theorem error_rolls_back_and_success_commits_all :
  (forall fails w w' e,
     target_connection fails (DmOrders.run_body fails) w = (Raise e, w') ->
     committed w' = committed w) /\
  (forall fails w w' e,
     working w = committed w ->
     target_connection fails (DmOrders.run_body fails) w = (Raise e, w') ->
     working w' = committed w) /\
  (forall fails w w0 w1 e,
     connect fails w = (Ok tt, w0) ->
     DmOrders.run_body fails w0 = (Raise e, w1) ->
     target_connection fails (DmOrders.run_body fails) w =
       (Raise e, target_rollback w1)) /\
  (forall fails src d r w',
     DmOrders.run fails (start src d) = (r, w') ->
     working w' = committed w' /\
     (committed w' = d \/ DmOrders.loaded src d = Some (committed w'))) /\
  (forall fails src d w',
     DmOrders.run fails (start src d) = (Ok tt, w') ->
     exists st,
       checkpoint DmOrders.WF_KEY (fun kw => kw) DmOrders.OrderSettings_init d =
         Some st /\
       match DmOrders.list_orders st DmOrders.BATCH_LIMIT src with
       | [] => committed w' = d
       | load_queue =>
           exists m st',
             py_max DmOrders.OrderObj_lt load_queue = Some m /\
             DmOrders.OrderSettings_init (DmOrders.OrderObj_dict m) = Some st' /\
             committed w' =
               advance DmOrders.OrderSettings_dict DmOrders.WF_KEY st'
                 (write_all DmOrders.insert_order load_queue d)
       end).
Proof.
  repeat split.
  - intros fails w w' e; apply loader_run_scope_raise.
  - intros fails w w' e; apply target_connection_rolled_back.
    apply loader_body_keeps.
  - intros fails w w0 w1 e Hc Hb; unfold target_connection.
    now rewrite Hc, Hb.
  - revert H; apply with_connections_nothing_pending.
  - revert H; apply loader_run_atomic.
  - intros fails src d w' Hr.
    apply loader_run_ok, after_run_cases in Hr; exact Hr.
Qed.

(** The second insert of a two-order batch fails (step 5: two connects,
    the checkpoint, the batch and one insert come before it). *)
Definition second_insert_fails : nat -> bool := fun n => Nat.eqb n 5.

(** When the second insert fails the body has written the first order in
    the open transaction; after the run neither the durable destination
    nor the connection has it. *)
Example failed_run_leaves_destination :
  let b := DmOrders.run_body second_insert_fails
             (mk_world two_orders_source empty_dest empty_dest 2) in
  let r := DmOrders.run second_insert_fails
             (start two_orders_source empty_dest) in
  fst b = Raise (DatabaseError 5) /\
  length (rows (dest_table (working (snd b)))) = 1%nat /\
  fst r = Raise (DatabaseError 5) /\ committed (snd r) = empty_dest /\
  working (snd r) = empty_dest.
Proof. cbv zeta; repeat split; vm_compute; reflexivity. Qed.

Lemma error_rolls_back_witness :
  working (snd (DmOrders.run second_insert_fails
                  (start two_orders_source empty_dest))) =
  committed (snd (DmOrders.run second_insert_fails
                    (start two_orders_source empty_dest))) /\
  (committed (snd (DmOrders.run second_insert_fails
                     (start two_orders_source empty_dest))) = empty_dest \/
   DmOrders.loaded two_orders_source empty_dest =
   Some (committed (snd (DmOrders.run second_insert_fails
                           (start two_orders_source empty_dest))))).
Proof.
  apply (proj1 (proj2 (proj2 (proj2 error_rolls_back_and_success_commits_all)))
           second_insert_fails two_orders_source empty_dest
           (Raise (DatabaseError 5))).
  vm_compute; reflexivity.
Defined.

(** ** The type-2 writers (claim C5)

    [insert_restaurant] and [insert_product] send one statement of the
    shape
<<
    WITH upd AS (
        UPDATE t SET active_to = :active_from
        FROM (SELECT MAX(id) AS id FROM t WHERE key = :key) latest
        WHERE t.id = latest.id AND <payload differs>)
    INSERT INTO t (...) VALUES (..., :active_from, :active_to)
    ON CONFLICT (key, active_to) DO NOTHING
>>
    PostgreSQL evaluates both parts against the table as it was when the
    statement began (the subquery [latest] does not see the inserted row),
    promises no order between them, and runs the primary INSERT first: a
    data-modifying WITH clause that the primary statement does not read is
    run to completion after it. The unique index behind ON CONFLICT is
    checked against the rows as they are at the time of the INSERT. *)

Section Type2.
Context {Row : Type}.
Variable row_id : Row -> Z.
Variable same_key : Row -> bool.
Variable differs : Row -> bool.
Variable close : Row -> Row.
Variable is_open : Row -> bool.
Variable new_row : Z -> Row.

(** [SELECT MAX(id) AS id FROM t WHERE key = :key]. *)
Definition latest (snapshot : list Row) : option Z :=
  sql_max (map row_id (filter same_key snapshot)).

(** The UPDATE of the WITH clause; [snapshot] is what its subquery reads,
    [current] the rows it changes. *)
Definition update_active_to (snapshot current : list Row) : list Row :=
  match latest snapshot with
  | None => current
  | Some i =>
      map (fun r => if (row_id r =? i) && differs r then close r else r) current
  end.

(** The primary INSERT. *)
Definition insert_open (t : table Row) : table Row :=
  insert_on_conflict (fun r => same_key r && is_open r) (fun r => r) new_row t.

(** The statement as PostgreSQL runs it: INSERT, then the UPDATE. *)
Definition type2_statement (t : table Row) : table Row :=
  let t1 := insert_open t in
  mk_table (update_active_to (rows t) (rows t1)) (seq t1).

(** The statement in the order of its text: the UPDATE, then the INSERT. *)
Definition type2_statement_as_read (t : table Row) : table Row :=
  insert_open (mk_table (update_active_to (rows t) (rows t)) (seq t)).

(** What holds in either order: a key without rows gets its open row, and
    a payload equal to the latest one changes no row. *)
Lemma upsert_rows_no_conflict (conflict : Row -> bool) (update : Row -> Row)
  (new : Row) (l : list Row) :
  Forall (fun r => conflict r = false) l ->
  upsert_rows conflict update new l = l ++ [new].
Proof.
  induction 1 as [|r l Hr Hl IH]; simpl; [reflexivity|].
  now rewrite Hr, IH.
Qed.

Lemma upsert_rows_do_nothing (conflict : Row -> bool) (new : Row) (l : list Row) :
  existsb conflict l = true ->
  upsert_rows conflict (fun r => r) new l = l.
Proof.
  induction l as [|r l IH]; simpl; [discriminate|].
  destruct (conflict r); simpl; [reflexivity|intros Hl; now rewrite IH].
Qed.

Lemma type2_statement_first_write (t : table Row) :
  filter same_key (rows t) = [] ->
  rows (type2_statement t) = rows t ++ [new_row (seq t + 1)].
Proof.
  intros Hk; unfold type2_statement, update_active_to, latest.
  rewrite Hk; simpl.
  apply upsert_rows_no_conflict, Forall_forall; intros r Hr.
  destruct (same_key r) eqn:E; [|reflexivity].
  assert (Hin : In r (filter same_key (rows t))) by (apply filter_In; auto).
  rewrite Hk in Hin; destruct Hin.
Qed.

Lemma type2_statement_same_payload (t : table Row) :
  existsb (fun r => same_key r && is_open r) (rows t) = true ->
  (forall i r, latest (rows t) = Some i -> In r (rows t) -> row_id r = i ->
               differs r = false) ->
  rows (type2_statement t) = rows t.
Proof.
  intros Ho Hd; unfold type2_statement, insert_open, insert_on_conflict.
  cbn [rows]; rewrite upsert_rows_do_nothing by assumption.
  unfold update_active_to.
  destruct (latest (rows t)) as [i|] eqn:El; [|reflexivity].
  rewrite <- (map_id (rows t)) at 2; apply map_ext_in; intros r Hr.
  destruct (row_id r =? i) eqn:Ei; [|reflexivity].
  apply Z.eqb_eq in Ei; now rewrite (Hd i r eq_refl Hr Ei).
Qed.

End Type2.

(** [a = b] in SQL on nullable text: true only for two equal values. *)
Definition sql_eq (a b : option string) : bool :=
  match a, b with
  | Some x, Some y => String.eqb x y
  | _, _ => false
  end.

Definition datetime_eqb (a b : datetime) : bool := eqb a b.

(** *** [dwh/dds/dm_restaurants_loader.py] *)

Module DmRestaurants.

Record RestaurantObj := mk_RestaurantObj {
  object_id : option string;
  name : string;
  update_ts : datetime
}.

(** A row of [dds.dm_restaurants]. *)
Record DmRestaurant := mk_DmRestaurant {
  dr_id : Z;
  restaurant_id : option string;
  restaurant_name : string;
  active_from : datetime;
  active_to : datetime
}.

Definition statement_parts (restaurant : RestaurantObj) :=
  (fun r : DmRestaurant => sql_eq (restaurant_id r) (object_id restaurant),
   fun r : DmRestaurant => negb (String.eqb (restaurant_name r) (name restaurant)),
   fun r : DmRestaurant =>
     mk_DmRestaurant (dr_id r) (restaurant_id r) (restaurant_name r)
       (active_from r) (update_ts restaurant),
   fun r : DmRestaurant => datetime_eqb (active_to r) open_ended,
   fun i : Z =>
     mk_DmRestaurant i (object_id restaurant) (name restaurant)
       (update_ts restaurant) open_ended).

Definition insert_restaurant (restaurant : RestaurantObj)
  (t : table DmRestaurant) : table DmRestaurant :=
  let '(same_key, differs, close, is_open, new_row) := statement_parts restaurant in
  type2_statement dr_id same_key differs close is_open new_row t.

Definition insert_restaurant_as_read (restaurant : RestaurantObj)
  (t : table DmRestaurant) : table DmRestaurant :=
  let '(same_key, differs, close, is_open, new_row) := statement_parts restaurant in
  type2_statement_as_read dr_id same_key differs close is_open new_row t.

(** The open rows of a restaurant. *)
Definition open_rows (rid : string) (t : table DmRestaurant) : list DmRestaurant :=
  filter (fun r => sql_eq (restaurant_id r) (Some rid) &&
                   datetime_eqb (active_to r) open_ended) (rows t).

End DmRestaurants.

(** *** [dwh/dds/dm_products_loader.py] *)

Module DmProducts.

Record ProductObj := mk_ProductObj {
  product_id : string;
  restaurant_id : string;
  name : string;
  price : Q;
  update_ts : datetime;
  restaurant_fk : Z
}.

(** A row of [dds.dm_products]. *)
Record DmProduct := mk_DmProduct {
  dp_id : Z;
  dp_product_id : string;
  product_name : string;
  product_price : Q;
  dp_restaurant_id : Z;
  active_from : datetime;
  active_to : datetime
}.

Definition statement_parts (product : ProductObj) :=
  (fun p : DmProduct => String.eqb (dp_product_id p) (product_id product),
   fun p : DmProduct =>
     negb (String.eqb (product_name p) (name product)) ||
     negb (Qeq_bool (product_price p) (price product)) ||
     negb (dp_restaurant_id p =? restaurant_fk product),
   fun p : DmProduct =>
     mk_DmProduct (dp_id p) (dp_product_id p) (product_name p)
       (product_price p) (dp_restaurant_id p) (active_from p)
       (update_ts product),
   fun p : DmProduct => datetime_eqb (active_to p) open_ended,
   fun i : Z =>
     mk_DmProduct i (product_id product) (name product) (price product)
       (restaurant_fk product) (update_ts product) open_ended).

Definition insert_product (product : ProductObj) (t : table DmProduct) :
  table DmProduct :=
  let '(same_key, differs, close, is_open, new_row) := statement_parts product in
  type2_statement dp_id same_key differs close is_open new_row t.

Definition insert_product_as_read (product : ProductObj) (t : table DmProduct) :
  table DmProduct :=
  let '(same_key, differs, close, is_open, new_row) := statement_parts product in
  type2_statement_as_read dp_id same_key differs close is_open new_row t.

End DmProducts.

Definition day_at (d : Z) : datetime := mk_datetime 2022 10 d 0 0 0 0.

Definition cafe (n : string) (d : Z) : DmRestaurants.RestaurantObj :=
  DmRestaurants.mk_RestaurantObj (Some "r1") n (day_at d).

Definition cafe_row (i : Z) (n : string) (from to : datetime) :
  DmRestaurants.DmRestaurant :=
  DmRestaurants.mk_DmRestaurant i (Some "r1") n from to.

(** The table after the first write of restaurant [r1]. *)
Example first_write_opens_a_row :
  DmRestaurants.insert_restaurant (cafe "Cafe A" 1) (mk_table [] 0) =
  mk_table [cafe_row 1 "Cafe A" (day_at 1) open_ended] 1.
Proof. vm_compute; reflexivity. Qed.

Example same_payload_changes_no_row :
  rows (DmRestaurants.insert_restaurant (cafe "Cafe A" 2)
          (mk_table [cafe_row 1 "Cafe A" (day_at 1) open_ended] 1)) =
  [cafe_row 1 "Cafe A" (day_at 1) open_ended].
Proof. vm_compute; reflexivity. Qed.

Definition pizza (price : Q) (d : Z) : DmProducts.ProductObj :=
  DmProducts.mk_ProductObj "p1" "r1" "Pizza" price (day_at d) 7.

Definition pizza_row (i : Z) (price : Q) (from to : datetime) :
  DmProducts.DmProduct :=
  DmProducts.mk_DmProduct i "p1" "Pizza" price 7 from to.

(** C5 at its failing input. With the open row of [r1] named "Cafe A" in
    the table, writing the name "Cafe B" closes that row and inserts
    nothing — the INSERT meets the still open row and does nothing, the
    UPDATE then closes it — so [r1] is left without an open row; a later
    write inserts the open row and moves the end of the closed one. Run in
    the order of its text the statement would do what the claim says. The
    product writer does the same on a change of price. *)
Theorem changed_payload_closes_without_inserting :
  let t0 := mk_table [cafe_row 1 "Cafe A" (day_at 1) open_ended] 1 in
  let t1 := DmRestaurants.insert_restaurant (cafe "Cafe B" 2) t0 in
  rows t1 = [cafe_row 1 "Cafe A" (day_at 1) (day_at 2)] /\
  DmRestaurants.open_rows "r1" t1 = [] /\
  rows (DmRestaurants.insert_restaurant (cafe "Cafe B" 3) t1) =
    [cafe_row 1 "Cafe A" (day_at 1) (day_at 3);
     cafe_row 3 "Cafe B" (day_at 3) open_ended] /\
  rows (DmRestaurants.insert_restaurant_as_read (cafe "Cafe B" 2) t0) =
    [cafe_row 1 "Cafe A" (day_at 1) (day_at 2);
     cafe_row 2 "Cafe B" (day_at 2) open_ended] /\
  rows (DmProducts.insert_product (pizza (450#1) 2)
          (mk_table [pizza_row 1 (400#1) (day_at 1) open_ended] 1)) =
    [pizza_row 1 (400#1) (day_at 1) (day_at 2)].
Proof.
  cbv zeta; split; [vm_compute; reflexivity|].
  split; [vm_compute; reflexivity|].
  split; [vm_compute; reflexivity|].
  split; vm_compute; reflexivity.
Qed.

(** ** Running twice (claim C7) *)

Lemma filter_nil_iff {A} (p : A -> bool) (l : list A) :
  filter p l = [] <-> forall x, In x l -> p x = false.
Proof.
  induction l as [|a l IH]; simpl; [tauto|].
  destruct (p a) eqn:E; split.
  - discriminate.
  - intros H; rewrite (H a) in E by auto; discriminate.
  - intros H x [<-|Hx]; [assumption|now apply IH].
  - intros H; apply IH; auto.
Qed.

(** After a run that read everything pending, nothing is pending. *)
Lemma DmCouriers_drained (st : DmCouriers.CourierSettings)
  (src : DmCouriers.Source) (m : DmCouriers.CourierObj) :
  (length (DmCouriers.pending st src) <= DmCouriers.BATCH_LIMIT)%nat ->
  py_max DmCouriers.CourierObj_lt
    (DmCouriers.list_couriers st DmCouriers.BATCH_LIMIT src) = Some m ->
  DmCouriers.list_couriers (DmCouriers.mk_CourierSettings (DmCouriers.id m))
    DmCouriers.BATCH_LIMIT src = [].
Proof.
  unfold DmCouriers.list_couriers; fold (DmCouriers.pending st src).
  intros Hl Hm.
  rewrite firstn_all2 in Hm by (rewrite order_by_length; exact Hl).
  destruct (py_max_spec DmCouriers.id _ Hm) as [Hin Hall].
  apply order_by_In in Hin; apply filter_In in Hin; destruct Hin as [_ Hwm].
  replace (filter _ src) with (@nil DmCouriers.CourierObj);
    [reflexivity|symmetry].
  apply filter_nil_iff; intros c Hc; simpl.
  destruct (ltb (DmCouriers.id m) (DmCouriers.id c)) eqn:E; [|reflexivity].
  assert (Hp : In c (order_by DmCouriers.id (DmCouriers.pending st src))).
  { apply order_by_In, filter_In; split; [assumption|].
    eapply ltb_trans; eassumption. }
  rewrite Forall_forall in Hall; apply Hall in Hp.
  rewrite leb_ltb, E in Hp; discriminate.
Qed.

Lemma DmCouriers_second_run (fails1 fails2 : nat -> bool)
  (src : DmCouriers.Source) (d : dest DmCouriers.DmCourier)
  (w1 w2 : world DmCouriers.Source (dest DmCouriers.DmCourier))
  (r2 : result unit) :
  DmCouriers.run fails1 (start src d) = (Ok tt, w1) ->
  (forall st, DmCouriers.stored_checkpoint d = Some st ->
              (length (DmCouriers.pending st src) <= DmCouriers.BATCH_LIMIT)%nat) ->
  DmCouriers.run fails2 (start src (committed w1)) = (r2, w2) ->
  committed w2 = committed w1.
Proof.
  intros H1 Hd H2.
  apply loader_run_ok, after_run_cases in H1; destruct H1 as (st & Hc & Hq).
  assert (Ha : after_run DmCouriers.WF_KEY DmCouriers.BATCH_LIMIT (fun kw => kw)
                 DmCouriers.CourierSettings_init DmCouriers.CourierSettings_dict
                 DmCouriers.list_couriers DmCouriers.insert_courier
                 DmCouriers.CourierObj_lt DmCouriers.CourierObj_dict
                 src (committed w1) = Some (committed w1)).
  { destruct (DmCouriers.list_couriers st DmCouriers.BATCH_LIMIT src)
      as [|o l] eqn:El.
    - rewrite Hq; eapply after_run_empty; eassumption.
    - destruct Hq as (m & st' & Hm & Hs & ->).
      injection Hs as <-.
      eapply after_run_empty.
      + rewrite checkpoint_advance; apply DmCouriers_round_trip.
      + rewrite <- El in Hm; apply (@DmCouriers_drained st src m);
          [now apply Hd|exact Hm]. }
  apply loader_run_atomic in H2; destruct H2 as [H2|H2]; congruence.
Qed.

(** *** Replaying upserts

    [touch] is the DO UPDATE branch alone. An upsert whose key is in the
    table is a touch; touches of different keys commute, and of two
    touches of one key the later wins. *)

Section Replay.
Context {Row Obj K : Type} `{Ord K}.
Variable row_key : Row -> K.
Variable obj_key : Obj -> K.
Variable update : Obj -> Row -> Row.
Variable new : Obj -> Z -> Row.

Hypothesis update_key : forall o r, row_key (update o r) = row_key r.
Hypothesis new_key : forall o i, row_key (new o i) = obj_key o.
Hypothesis update_update : forall o1 o2 r, update o2 (update o1 r) = update o2 r.
Hypothesis update_new : forall o i, update o (new o i) = new o i.

Definition conflict (o : Obj) (r : Row) : bool := eqb (row_key r) (obj_key o).

Definition upsert (o : Obj) (t : table Row) : table Row :=
  insert_on_conflict (conflict o) (update o) (new o) t.

Fixpoint touch (o : Obj) (l : list Row) : list Row :=
  match l with
  | [] => []
  | r :: l' => if conflict o r then update o r :: l' else r :: touch o l'
  end.

Definition has_key (k : K) (l : list Row) : bool :=
  existsb (fun r => eqb (row_key r) k) l.

Lemma upsert_rows_touch (o : Obj) (i : Z) (l : list Row) :
  has_key (obj_key o) l = true ->
  upsert_rows (conflict o) (update o) (new o i) l = touch o l.
Proof.
  induction l as [|r l IH]; simpl; [discriminate|].
  unfold conflict at 1 3; destruct (eqb (row_key r) (obj_key o)); simpl;
    [reflexivity|intros Hk; now rewrite IH].
Qed.

Lemma has_key_upsert_rows (o : Obj) (i : Z) (l : list Row) :
  has_key (obj_key o) (upsert_rows (conflict o) (update o) (new o i) l) = true.
Proof.
  induction l as [|r l IH]; simpl.
  - rewrite new_key; replace (eqb (obj_key o) (obj_key o)) with true;
      [reflexivity|symmetry; now apply eqb_true].
  - unfold conflict at 1; destruct (eqb (row_key r) (obj_key o)) eqn:E; simpl.
    + now rewrite update_key, E.
    + now rewrite E, IH.
Qed.

Lemma has_key_upsert_rows_mono (o : Obj) (i : Z) (k : K) (l : list Row) :
  has_key k l = true ->
  has_key k (upsert_rows (conflict o) (update o) (new o i) l) = true.
Proof.
  induction l as [|r l IH]; simpl; [discriminate|].
  unfold conflict at 1; destruct (eqb (row_key r) (obj_key o)) eqn:E; simpl.
  - now rewrite update_key.
  - destruct (eqb (row_key r) k); simpl; [reflexivity|exact IH].
Qed.

Lemma has_key_touch (o : Obj) (k : K) (l : list Row) :
  has_key k (touch o l) = has_key k l.
Proof.
  induction l as [|r l IH]; simpl; [reflexivity|].
  destruct (conflict o r); simpl; [now rewrite update_key|now rewrite IH].
Qed.

Lemma touch_touch_same (o1 o2 : Obj) (l : list Row) :
  obj_key o1 = obj_key o2 -> touch o2 (touch o1 l) = touch o2 l.
Proof.
  intros Hk; induction l as [|r l IH]; simpl; [reflexivity|].
  unfold conflict; rewrite Hk.
  destruct (eqb (row_key r) (obj_key o2)) eqn:E; simpl; unfold conflict.
  - now rewrite update_key, E, update_update.
  - now rewrite E, IH.
Qed.

Lemma touch_touch_comm (o1 o2 : Obj) (l : list Row) :
  obj_key o1 <> obj_key o2 -> touch o2 (touch o1 l) = touch o1 (touch o2 l).
Proof.
  intros Hk; induction l as [|r l IH]; simpl; [reflexivity|].
  unfold conflict.
  destruct (eqb (row_key r) (obj_key o1)) eqn:E1;
    destruct (eqb (row_key r) (obj_key o2)) eqn:E2; simpl; unfold conflict;
    rewrite ?update_key, ?E1, ?E2; try reflexivity.
  - apply eqb_true in E1, E2; congruence.
  - now rewrite IH.
Qed.

Definition touch_all (s : list Obj) (l : list Row) : list Row :=
  fold_left (fun l o => touch o l) s l.

Definition upsert_all (s : list Obj) (t : table Row) : table Row :=
  fold_left (fun t o => upsert o t) s t.

(** A touch that a later touch of the same key follows is without effect. *)
Lemma touch_all_absorbs (o : Obj) (s : list Obj) (l : list Row) :
  existsb (fun o' => eqb (obj_key o') (obj_key o)) s = true ->
  touch_all s (touch o l) = touch_all s l.
Proof.
  revert l; induction s as [|o' s IH]; intros l; simpl; [discriminate|].
  destruct (eqb (obj_key o') (obj_key o)) eqn:E; simpl.
  - intros _; apply eqb_true in E.
    unfold touch_all; simpl; now rewrite touch_touch_same.
  - intros Hs; unfold touch_all; simpl.
    rewrite touch_touch_comm.
    + apply IH, Hs.
    + intros Hk; rewrite Hk in E.
      assert (Ht : eqb (obj_key o') (obj_key o') = true) by now apply eqb_true.
      congruence.
Qed.

(** The row of [o]'s key is already what [update o] makes of it. *)
Fixpoint settled (o : Obj) (l : list Row) : Prop :=
  match l with
  | [] => True
  | r :: l' => if conflict o r then update o r = r else settled o l'
  end.

Lemma settled_touch_id (o : Obj) (l : list Row) : settled o l -> touch o l = l.
Proof.
  induction l as [|r l IH]; simpl; [reflexivity|].
  destruct (conflict o r); [now intros ->|intros Hs; now rewrite IH].
Qed.

Lemma settled_upsert_rows (o : Obj) (i : Z) (l : list Row) :
  settled o (upsert_rows (conflict o) (update o) (new o i) l).
Proof.
  induction l as [|r l IH]; simpl.
  - destruct (conflict o (new o i)); [apply update_new|exact I].
  - destruct (conflict o r) eqn:E; simpl.
    + unfold conflict in *; rewrite update_key, E; apply update_update.
    + now rewrite E.
Qed.

Lemma settled_upsert_rows_other (o o' : Obj) (i : Z) (l : list Row) :
  obj_key o' <> obj_key o -> settled o l ->
  settled o (upsert_rows (conflict o') (update o') (new o' i) l).
Proof.
  intros Hk; induction l as [|r l IH]; simpl.
  - intros _; unfold conflict; rewrite new_key.
    destruct (eqb (obj_key o') (obj_key o)) eqn:E; [|exact I].
    apply eqb_true in E; contradiction.
  - destruct (conflict o' r) eqn:E'; destruct (conflict o r) eqn:E; simpl;
      unfold conflict in *; rewrite ?update_key, ?E; auto.
    apply eqb_true in E, E'; congruence.
Qed.

Lemma settled_upsert_all (o : Obj) (s : list Obj) (t : table Row) :
  existsb (fun o' => eqb (obj_key o') (obj_key o)) s = false ->
  settled o (rows t) -> settled o (rows (upsert_all s t)).
Proof.
  revert t; induction s as [|o' s IH]; intros t; simpl; [auto|].
  destruct (eqb (obj_key o') (obj_key o)) eqn:E; [discriminate|].
  simpl; intros Hs Ht; apply IH; [assumption|].
  apply settled_upsert_rows_other; [|assumption].
  intros Hk; rewrite Hk in E.
  assert (Hr : eqb (obj_key o) (obj_key o) = true) by now apply eqb_true.
  congruence.
Qed.

Lemma has_key_upsert_all (k : K) (s : list Obj) (t : table Row) :
  has_key k (rows t) = true -> has_key k (rows (upsert_all s t)) = true.
Proof.
  revert t; induction s as [|o s IH]; intros t Hk; simpl; [assumption|].
  apply IH; simpl; now apply has_key_upsert_rows_mono.
Qed.

Lemma has_keys_upsert_all (s : list Obj) (t : table Row) :
  Forall (fun o => has_key (obj_key o) (rows (upsert_all s t)) = true) s.
Proof.
  revert t; induction s as [|o s IH]; intros t; constructor.
  - simpl; apply has_key_upsert_all; simpl; apply has_key_upsert_rows.
  - apply IH.
Qed.

(** Upserting rows whose keys are all present touches them. *)
Lemma upsert_all_touch_all (s : list Obj) (t : table Row) :
  Forall (fun o => has_key (obj_key o) (rows t) = true) s ->
  rows (upsert_all s t) = touch_all s (rows t).
Proof.
  revert t; induction s as [|o s IH]; intros t Hs; [reflexivity|].
  inversion Hs as [|? ? Ho Hs']; subst.
  unfold upsert_all, touch_all in *; simpl.
  rewrite IH; simpl.
  - now rewrite upsert_rows_touch.
  - rewrite upsert_rows_touch by assumption.
    eapply Forall_impl; [|exact Hs']; intros o' Ho'; simpl in *.
    now rewrite has_key_touch.
Qed.

(** Touching again the rows just upserted changes nothing. *)
Lemma touch_all_after_upsert_all (s : list Obj) (t : table Row) :
  touch_all s (rows (upsert_all s t)) = rows (upsert_all s t).
Proof.
  revert t; induction s as [|o s IH]; intros t; [reflexivity|].
  change (upsert_all (o :: s) t) with (upsert_all s (upsert o t)).
  change (touch_all (o :: s) ?l) with (touch_all s (touch o l)).
  destruct (existsb (fun o' => eqb (obj_key o') (obj_key o)) s) eqn:E.
  - rewrite touch_all_absorbs by assumption; apply IH.
  - rewrite settled_touch_id; [apply IH|].
    apply settled_upsert_all; [assumption|]; simpl.
    apply settled_upsert_rows.
Qed.

(** Replaying a suffix of the rows written leaves the rows as they are. *)
Lemma replay_suffix (p s : list Obj) (t : table Row) :
  rows (upsert_all s (upsert_all (p ++ s) t)) = rows (upsert_all (p ++ s) t).
Proof.
  unfold upsert_all at 2 3; rewrite fold_left_app.
  fold (upsert_all p t); fold (upsert_all s (upsert_all p t)).
  rewrite upsert_all_touch_all by apply has_keys_upsert_all.
  apply touch_all_after_upsert_all.
Qed.

(** Rows written once, each under a key of its own, are settled: writing
    any of them again, in any order, leaves the rows as they are. *)
Lemma no_later_key (o : Obj) (s : list Obj) :
  ~ In (obj_key o) (map obj_key s) ->
  existsb (fun o' => eqb (obj_key o') (obj_key o)) s = false.
Proof.
  induction s as [|o' s IH]; simpl; [reflexivity|]; intros Hn.
  destruct (eqb (obj_key o') (obj_key o)) eqn:E; simpl; [|tauto].
  apply eqb_true in E; tauto.
Qed.

Lemma settled_after_upsert_all (o : Obj) (s : list Obj) (t : table Row) :
  In o s -> NoDup (map obj_key s) ->
  settled o (rows (upsert_all s t)) /\
  has_key (obj_key o) (rows (upsert_all s t)) = true.
Proof.
  revert t; induction s as [|o' s IH]; intros t; [intros []|].
  change (upsert_all (o' :: s) t) with (upsert_all s (upsert o' t)).
  intros [->|Hin] Hnd; inversion Hnd as [|? ? Hn Hnd']; subst.
  - split.
    + apply settled_upsert_all; [now apply no_later_key|].
      apply settled_upsert_rows.
    + apply has_key_upsert_all; apply has_key_upsert_rows.
  - now apply IH.
Qed.

Lemma upsert_settled (o : Obj) (t : table Row) :
  has_key (obj_key o) (rows t) = true -> settled o (rows t) ->
  rows (upsert o t) = rows t.
Proof.
  intros Hk Hs; unfold upsert, insert_on_conflict; cbn [rows].
  rewrite upsert_rows_touch by assumption; now apply settled_touch_id.
Qed.

Lemma replay_members (s' s : list Obj) (t : table Row) :
  NoDup (map obj_key s) -> (forall o, In o s' -> In o s) ->
  rows (upsert_all s' (upsert_all s t)) = rows (upsert_all s t).
Proof.
  intros Hnd Hin.
  assert (Hg : forall t', rows t' = rows (upsert_all s t) ->
                          rows (upsert_all s' t') = rows t').
  { induction s' as [|o s' IH]; intros t' Ht; [reflexivity|].
    change (upsert_all (o :: s') t') with (upsert_all s' (upsert o t')).
    destruct (@settled_after_upsert_all o s t) as [Hs Hk];
      [apply Hin; now left|assumption|].
    rewrite <- Ht in Hs, Hk.
    pose proof (upsert_settled o t' Hk Hs) as Hu.
    rewrite IH; [exact Hu| |congruence].
    intros o' Ho'; apply Hin; now right. }
  now apply Hg.
Qed.

End Replay.

(** *** The drain loop of the settlement report *)

Lemma In_last {A} (l : list A) (d : A) : l <> [] -> In (last l d) l.
Proof.
  intros Hl; destruct (exists_last Hl) as (l' & a & ->).
  rewrite last_last; apply in_or_app; right; now left.
Qed.

Lemma write_all_app {Row Obj} (ins : Obj -> table Row -> table Row)
  (l1 l2 : list Obj) (d : dest Row) :
  write_all ins (l1 ++ l2) d = write_all ins l2 (write_all ins l1 d).
Proof. unfold write_all; apply fold_left_app. Qed.

Lemma page_then_rest {A} (n offset : nat) (l : list A) :
  firstn n (skipn offset l) ++
  skipn (offset + length (firstn n (skipn offset l))) l = skipn offset l.
Proof.
  rewrite Nat.add_comm, <- skipn_skipn, length_firstn.
  destruct (Nat.le_ge_cases n (length (skipn offset l))) as [Hle|Hle].
  - rewrite Nat.min_l by assumption; apply firstn_skipn.
  - rewrite Nat.min_r by assumption.
    rewrite skipn_all, firstn_all2 by assumption; apply app_nil_r.
Qed.

Lemma Permutation_filter {A} (p : A -> bool) (l l' : list A) :
  Permutation l l' -> Permutation (filter p l) (filter p l').
Proof.
  induction 1 as [|x l l' Hp IH|x y l|l l' l'' H1 IH1 H2 IH2]; simpl.
  - constructor.
  - destruct (p x); [now constructor|assumption].
  - destruct (p x), (p y); try reflexivity; apply perm_swap.
  - etransitivity; eassumption.
Qed.

Lemma for_each_insert_steps {S T A} (fails : nat -> bool) (g : A -> T -> T)
  (l : list A) (w w' : world S T) (u : unit) :
  for_each (fun x => target_insert fails (g x)) l w = (Ok u, w') ->
  steps w' = (length l + steps w)%nat.
Proof.
  revert w; induction l as [|x l IH]; simpl; intros w.
  - unfold ret; intros [= _ <-]; reflexivity.
  - intros H; apply bind_ok in H; destruct H as (u1 & w1 & H1 & H2).
    apply db_call_ok in H1; destruct H1 as [_ [= _ <-]].
    apply IH in H2; rewrite H2; simpl; lia.
Qed.

Lemma get_setting_steps {S Row} (fails : nat -> bool) (wf_key : string)
  (w w' : world S (dest Row)) (e : EtlSetting) :
  get_setting fails wf_key w = (Ok e, w') ->
  steps w' = Datatypes.S (steps w).
Proof.
  unfold get_setting; intros H.
  apply bind_ok in H; destruct H as (r & w1 & H1 & H2).
  apply db_call_ok in H1; destruct H1 as [_ [= _ <-]].
  destruct r as [r|]; [apply lift_ok in H2; destruct H2 as [_ ->]|
                       injection H2 as _ <-]; reflexivity.
Qed.

(** A run that returns has run its body, from the third call on, and
    committed what the body left; a run that raises has committed that
    or nothing. *)
Lemma with_connections_ok_at {S T A} (fails : nat -> bool) (body : M S T A)
  (src : S) (d : T) (a : A) (w' : world S T) :
  with_connections fails body (start src d) = (Ok a, w') ->
  exists w1, body (mk_world src d d 2) = (Ok a, w1) /\
             committed w' = working w1.
Proof.
  unfold with_connections, source_connection.
  destruct (connect fails (start src d)) as [[[]|e0] w0] eqn:Ec; [|discriminate].
  apply db_call_ok in Ec; destruct Ec as [_ [= <-]].
  destruct (target_connection _ _ _) as [[a'|e1] w1] eqn:Et; [|discriminate].
  apply target_connection_ok in Et.
  destruct Et as (w2 & w3 & Hc2 & Hb & Hcm & _ & _).
  apply db_call_ok in Hc2; destruct Hc2 as [_ [= <-]].
  unfold source_commit; intros H.
  destruct (db_call _ _ w1) as [[[]|e2] w4] eqn:Es; [|discriminate].
  apply db_call_ok in Es; destruct Es as [_ [= <-]].
  injection H as <- <-; exists w3; split; [exact Hb|exact Hcm].
Qed.

Lemma with_connections_atomic_at {S T A} (fails : nat -> bool)
  (body : M S T A) (src : S) (d : T) (r : result A) (w' : world S T) :
  keeps_committed body ->
  with_connections fails body (start src d) = (r, w') ->
  committed w' = d \/
  exists a w1, body (mk_world src d d 2) = (Ok a, w1) /\
               committed w' = working w1.
Proof.
  intros Hk; unfold with_connections, source_connection.
  destruct (connect fails (start src d)) as [[[]|e0] w0] eqn:Ec.
  - apply db_call_ok in Ec; destruct Ec as [_ [= <-]].
    destruct (target_connection _ _ _) as [[a|e1] w1] eqn:Et.
    + apply target_connection_ok in Et.
      destruct Et as (w2 & w3 & Hc2 & Hb & Hcm & _ & _).
      apply db_call_ok in Hc2; destruct Hc2 as [_ [= <-]].
      unfold source_commit, db_call.
      destruct (fails (steps w1)); intros [= _ <-]; right; exists a, w3;
        (split; [exact Hb|exact Hcm]).
    + apply target_connection_raise in Et; [|assumption].
      intros [= _ <-]; left; exact Et.
  - unfold connect, db_call in Ec; simpl in Ec.
    destruct (fails _); inversion Ec; subst.
    intros [= _ <-]; left; reflexivity.
Qed.

Lemma In_last_concat {A} (pages : list (list A)) (x : A) :
  In x (last pages []) -> In x (concat pages).
Proof.
  induction pages as [|p pages IH]; [intros []|].
  destruct pages as [|q pages]; simpl.
  - rewrite app_nil_r; auto.
  - intros Hx; apply in_or_app; right; now apply IH.
Qed.

Lemma SettlementReport_pages_nonempty (fuel : nat)
  (st : SettlementReport.RestaurantReportSettings) (offset n : nat)
  (execs : SettlementReport.Executions) :
  Forall (fun page => page <> [])
         (SettlementReport.pages_read fuel st offset n execs).
Proof.
  revert offset n; induction fuel as [|fuel IH]; intros offset n;
    cbn [SettlementReport.pages_read]; [constructor|].
  destruct (SettlementReport.list_reports st offset
              SettlementReport.BATCH_LIMIT (execs (Datatypes.S n)));
    constructor; [discriminate|apply IH].
Qed.

Section SettlementDrain.
Variable fails : nat -> bool.
Variable st : SettlementReport.RestaurantReportSettings.

(** The record the loop holds as [last_loaded_report] when it has read
    [pages]: the greatest of the last page. *)
Definition last_loaded_after
  (pages : list (list SettlementReport.RestaurantReportObj))
  (last_loaded : option SettlementReport.RestaurantReportObj) :
  option SettlementReport.RestaurantReportObj :=
  match py_max SettlementReport.RestaurantReportObj_lt (last pages []) with
  | Some m => Some m
  | None => last_loaded
  end.

Lemma SettlementReport_drain_ok (fuel : nat) :
  forall (offset : nat) (last_loaded : option SettlementReport.RestaurantReportObj)
         (w w' : world SettlementReport.Executions
                   (dest SettlementReport.DmSettlementReport))
         (last_loaded' : option SettlementReport.RestaurantReportObj),
    SettlementReport.drain fails fuel st offset last_loaded w =
      (Ok last_loaded', w') ->
    source w' = source w /\ committed w' = committed w /\
    working w' =
      write_all SettlementReport.insert_report
        (concat (SettlementReport.pages_read fuel st offset (steps w) (source w)))
        (working w) /\
    last_loaded' =
      last_loaded_after
        (SettlementReport.pages_read fuel st offset (steps w) (source w))
        last_loaded.
Proof.
  induction fuel as [|fuel IH]; intros offset last_loaded w w' last_loaded';
    cbn [SettlementReport.drain SettlementReport.pages_read].
  - unfold ret; intros [= <- <-]; repeat split.
  - intros H; apply bind_ok in H; destruct H as (q & w1 & H1 & H).
    unfold SettlementReport.source_list_reports in H1.
    apply db_call_ok in H1; destruct H1 as [_ H1].
    cbn [source steps] in H1; injection H1 as <- <-.
    destruct (SettlementReport.list_reports st offset
                SettlementReport.BATCH_LIMIT
                (source w (Datatypes.S (steps w)))) as [|r l].
    + unfold ret in H; injection H as <- <-; repeat split.
    + apply bind_ok in H; destruct H as (u2 & w2 & H2 & H).
      pose proof H2 as Hn2; apply for_each_insert_steps in Hn2.
      apply for_each_insert_ok in H2; destruct H2 as (Hs2 & Hc2 & Hw2).
      apply bind_ok in H; destruct H as (m & w3 & H3 & H).
      apply lift_ok in H3; destruct H3 as [Hm ->].
      apply IH in H; cbn [source committed working steps] in *.
      rewrite Hs2, Hn2 in H; destruct H as (Hs & Hc & Hw & Hl).
      split; [exact Hs|]; split; [congruence|]; split.
      * rewrite Hw, Hw2; cbn [concat]; now rewrite write_all_app.
      * rewrite Hl; unfold last_loaded_after.
        pose proof (SettlementReport_pages_nonempty fuel st
                      (offset + length (r :: l))
                      (length (r :: l) + Datatypes.S (steps w)) (source w))
          as Hne.
        destruct (SettlementReport.pages_read fuel st _ _ (source w))
          as [|p pages]; [cbn [last]; now rewrite Hm|].
        change (last ((r :: l) :: p :: pages) []) with (last (p :: pages) []).
        assert (Hp : last (p :: pages) [] <> []).
        { rewrite Forall_forall in Hne; apply Hne, In_last; discriminate. }
        destruct (last (p :: pages) []); [congruence|reflexivity].
Qed.

End SettlementDrain.

Lemma SettlementReport_drain_keeps (fails : nat -> bool) (fuel : nat) :
  forall st offset last_loaded,
    keeps_committed (SettlementReport.drain fails fuel st offset last_loaded).
Proof.
  induction fuel as [|fuel IH]; intros st offset last_loaded; simpl;
    [apply keeps_ret|].
  apply keeps_bind; [apply keeps_db_call; reflexivity|intros [|o l]];
    [apply keeps_ret|].
  apply keeps_bind;
    [apply keeps_for_each; intros ?; apply keeps_target_insert|intros _].
  apply keeps_bind; [apply keeps_lift|intros m; apply IH].
Qed.

Lemma SettlementReport_body_keeps (fails : nat -> bool) (fuel : nat) :
  keeps_committed (SettlementReport.run_body fails fuel).
Proof.
  unfold SettlementReport.run_body, get_setting, save_setting.
  repeat first
    [ apply keeps_bind; [|intros ?]
    | apply keeps_lift | apply keeps_ret | apply keeps_target_retrieve
    | apply keeps_target_insert | apply SettlementReport_drain_keeps
    | match goal with |- keeps_committed (match ?x with _ => _ end) =>
        destruct x end ].
Qed.

(** What the body of a run that returns leaves in the transaction. *)
Lemma SettlementReport_body_ok (fails : nat -> bool) (fuel : nat)
  (w w' : world SettlementReport.Executions
            (dest SettlementReport.DmSettlementReport)) :
  steps w = 2%nat ->
  SettlementReport.run_body fails fuel w = (Ok tt, w') ->
  SettlementReport.loaded fuel (source w) (working w) = Some (working w').
Proof.
  intros Hn H.
  unfold SettlementReport.run_body in H; unfold SettlementReport.loaded.
  apply bind_ok in H; destruct H as (e & w1 & H1 & H).
  pose proof H1 as Hn1; apply get_setting_steps in Hn1.
  apply get_setting_ok in H1; destruct H1 as (Hs1 & Hc1 & Hw1 & He).
  unfold stored_setting; rewrite He.
  apply bind_ok in H; destruct H as (st & w2 & H2 & H).
  apply lift_ok in H2; destruct H2 as [-> ->].
  apply bind_ok in H; destruct H as (lr & w3 & H3 & H).
  apply SettlementReport_drain_ok in H3.
  rewrite Hs1, Hw1, Hn1, Hn in H3; destruct H3 as (Hs3 & Hc3 & Hw3 & ->).
  cbv zeta; unfold last_loaded_after in H.
  destruct (py_max SettlementReport.RestaurantReportObj_lt _) as [m|].
  - apply bind_ok in H; destruct H as (st' & w4 & H4 & H).
    apply lift_ok in H4; destruct H4 as [Hst ->].
    unfold save_setting in H; apply target_insert_ok in H.
    destruct H as (_ & _ & ->); rewrite Hw3.
    injection Hst as <-; reflexivity.
  - unfold ret in H; injection H as <-; now rewrite Hw3.
Qed.

Lemma SettlementReport_run_ok (fails : nat -> bool) (fuel : nat)
  (execs : SettlementReport.Executions)
  (d : dest SettlementReport.DmSettlementReport)
  (w' : world SettlementReport.Executions
          (dest SettlementReport.DmSettlementReport)) :
  SettlementReport.run fails fuel (start execs d) = (Ok tt, w') ->
  SettlementReport.loaded fuel execs d = Some (committed w').
Proof.
  intros H; apply with_connections_ok_at in H; destruct H as (w1 & H & ->).
  now apply SettlementReport_body_ok in H.
Qed.

Lemma SettlementReport_run_atomic (fails : nat -> bool) (fuel : nat)
  (execs : SettlementReport.Executions)
  (d : dest SettlementReport.DmSettlementReport) (r : result unit)
  (w' : world SettlementReport.Executions
          (dest SettlementReport.DmSettlementReport)) :
  SettlementReport.run fails fuel (start execs d) = (r, w') ->
  committed w' = d \/
  SettlementReport.loaded fuel execs d = Some (committed w').
Proof.
  intros H; apply with_connections_atomic_at in H;
    [|apply SettlementReport_body_keeps].
  destruct H as [H|([] & w1 & H & ->)]; [now left|right].
  now apply SettlementReport_body_ok in H.
Qed.

Lemma upsert_setting_twice (wf_key : string) (blob : pyval)
  (t : table SettingsRow) :
  rows (upsert_setting wf_key blob (upsert_setting wf_key blob t)) =
  rows (upsert_setting wf_key blob t).
Proof.
  unfold upsert_setting, insert_on_conflict; simpl.
  generalize (seq t + 1 + 1) (seq t + 1); intros i j.
  induction (rows t) as [|r l IH]; simpl.
  - now rewrite String.eqb_refl.
  - destruct (String.eqb (row_workflow_key r) wf_key) eqn:E; simpl;
      rewrite E; [reflexivity|now rewrite IH].
Qed.

Lemma SettlementReport_insert_is_upsert (l : list SettlementReport.RestaurantReportObj)
  (t : table SettlementReport.DmSettlementReport) :
  fold_left (fun t o => SettlementReport.insert_report o t) l t =
  upsert_all SettlementReport.row_key SettlementReport.report_key
    SettlementReport.update_report SettlementReport.new_report l t.
Proof. reflexivity. Qed.

Definition printable_date (d : date) : Prop :=
  valid_date d /\ four_digit_year (d_year d).

(** WHERE keeps keys distinct. *)
Lemma filter_keeps_keys_distinct {R K} (key : R -> K) (keep : R -> bool)
  (table_rows : list R) :
  NoDup (map key table_rows) -> NoDup (map key (filter keep table_rows)).
Proof.
  intros Hn; induction table_rows as [|x l IH]; simpl; [constructor|].
  inversion Hn as [|? ? Hx Hl]; subst.
  destruct (keep x); simpl; [constructor|]; auto.
  intros Hin; apply Hx; apply in_map_iff in Hin.
  destruct Hin as (y & Hy & Hin); apply filter_In in Hin.
  apply in_map_iff; exists y; tauto.
Qed.

(** *** The pages of a run

    The executions of the query within a run meet the same groups
    [view], in whatever order. *)

Section SettlementPages.
Variable st : SettlementReport.RestaurantReportSettings.
Variable view : list SettlementReport.RestaurantReportObj.
Variable execs : SettlementReport.Executions.
Hypothesis same_groups :
  forall n, Permutation (SettlementReport.reports_view (execs n)) view.

Lemma SettlementReport_pending_perm (n : nat) :
  Permutation (SettlementReport.pending st (execs n))
    (filter (fun r => leb (SettlementReport.last_loaded_date st)
                          (SettlementReport.date r)) view).
Proof.
  unfold SettlementReport.pending.
  etransitivity; [symmetry; apply order_by_perm|].
  apply Permutation_filter, same_groups.
Qed.

Lemma SettlementReport_pending_length (n : nat) :
  length (SettlementReport.pending st (execs n)) =
  length (filter (fun r => leb (SettlementReport.last_loaded_date st)
                               (SettlementReport.date r)) view).
Proof. apply Permutation_length, SettlementReport_pending_perm. Qed.

Lemma SettlementReport_pending_In (n : nat)
  (r : SettlementReport.RestaurantReportObj) :
  In r (SettlementReport.pending st (execs n)) <->
  In r view /\
  leb (SettlementReport.last_loaded_date st) (SettlementReport.date r) = true.
Proof.
  rewrite <- (filter_In (fun r => leb (SettlementReport.last_loaded_date st)
                                      (SettlementReport.date r))).
  split; apply Permutation_in; [|symmetry];
    apply SettlementReport_pending_perm.
Qed.

Lemma SettlementReport_page_members (offset limit n : nat)
  (r : SettlementReport.RestaurantReportObj) :
  In r (SettlementReport.list_reports st offset limit (execs n)) ->
  In r view /\
  leb (SettlementReport.last_loaded_date st) (SettlementReport.date r) = true.
Proof.
  unfold SettlementReport.list_reports; intros Hr.
  apply In_firstn, In_skipn in Hr.
  now apply (SettlementReport_pending_In n).
Qed.

(** Whatever the orders, a run writes reports of the view that are due. *)
Lemma SettlementReport_pages_members (fuel : nat) :
  forall (offset n : nat) (r : SettlementReport.RestaurantReportObj),
    In r (concat (SettlementReport.pages_read fuel st offset n execs)) ->
    In r view /\
    leb (SettlementReport.last_loaded_date st) (SettlementReport.date r) = true.
Proof.
  induction fuel as [|fuel IH]; intros offset n r;
    cbn [SettlementReport.pages_read]; [intros []|].
  destruct (SettlementReport.list_reports st offset
              SettlementReport.BATCH_LIMIT (execs (Datatypes.S n)))
    as [|x l] eqn:El; [intros []|].
  cbn [concat]; intros Hr; apply in_app_or in Hr; destruct Hr as [Hr|Hr].
  - apply (@SettlementReport_page_members offset
             SettlementReport.BATCH_LIMIT (Datatypes.S n)).
    now rewrite El.
  - now apply IH in Hr.
Qed.

Lemma SettlementReport_page_past_end (offset limit n : nat) :
  (length (filter (fun r => leb (SettlementReport.last_loaded_date st)
                                (SettlementReport.date r)) view) <= offset)%nat ->
  SettlementReport.list_reports st offset limit (execs n) = [].
Proof.
  intros Ho; unfold SettlementReport.list_reports.
  fold (SettlementReport.pending st (execs n)).
  rewrite skipn_all2 by (rewrite SettlementReport_pending_length; exact Ho).
  apply firstn_nil.
Qed.

Lemma SettlementReport_pages_past_end (fuel offset n : nat) :
  (length (filter (fun r => leb (SettlementReport.last_loaded_date st)
                                (SettlementReport.date r)) view) <= offset)%nat ->
  SettlementReport.pages_read fuel st offset n execs = [].
Proof.
  intros Ho; destruct fuel as [|fuel]; cbn [SettlementReport.pages_read];
    [reflexivity|].
  now rewrite SettlementReport_page_past_end.
Qed.

(** When what is due fits into one page, the loop reads that page, in the
    order of its execution, and then an empty one. *)
Lemma SettlementReport_pages_one_page (fuel n : nat) :
  fuel <> 0%nat ->
  (length (filter (fun r => leb (SettlementReport.last_loaded_date st)
                                (SettlementReport.date r)) view) <=
   SettlementReport.BATCH_LIMIT)%nat ->
  SettlementReport.pages_read fuel st 0 n execs =
  match SettlementReport.pending st (execs (Datatypes.S n)) with
  | [] => []
  | r :: l => [r :: l]
  end.
Proof.
  intros Hf Hl; destruct fuel as [|fuel]; [congruence|].
  cbn [SettlementReport.pages_read].
  assert (Ep : SettlementReport.list_reports st 0 SettlementReport.BATCH_LIMIT
                 (execs (Datatypes.S n)) =
               SettlementReport.pending st (execs (Datatypes.S n))).
  { unfold SettlementReport.list_reports.
    fold (SettlementReport.pending st (execs (Datatypes.S n))).
    cbn [skipn]; apply firstn_all2.
    rewrite SettlementReport_pending_length; exact Hl. }
  rewrite Ep.
  pose proof (SettlementReport_pending_length (Datatypes.S n)) as Hn.
  destruct (SettlementReport.pending st (execs (Datatypes.S n))) as [|r l];
    [reflexivity|].
  rewrite SettlementReport_pages_past_end; [reflexivity|].
  rewrite <- Hn; cbn [Nat.add]; lia.
Qed.

(** The loop ends on an empty page: rounds beyond those it needs change
    nothing. *)
Lemma SettlementReport_pages_fuel (fuel1 : nat) :
  forall (fuel2 offset n : nat),
    (length (filter (fun r => leb (SettlementReport.last_loaded_date st)
                                  (SettlementReport.date r)) view) - offset <
     fuel1)%nat ->
    (length (filter (fun r => leb (SettlementReport.last_loaded_date st)
                                  (SettlementReport.date r)) view) - offset <
     fuel2)%nat ->
    SettlementReport.pages_read fuel1 st offset n execs =
    SettlementReport.pages_read fuel2 st offset n execs.
Proof.
  induction fuel1 as [|fuel1 IH]; intros fuel2 offset n H1 H2; [lia|].
  destruct fuel2 as [|fuel2]; [lia|].
  cbn [SettlementReport.pages_read].
  destruct (SettlementReport.list_reports st offset
              SettlementReport.BATCH_LIMIT (execs (Datatypes.S n)))
    as [|x l] eqn:El; [reflexivity|].
  f_equal; apply IH;
    (destruct (Nat.le_gt_cases
                 (length (filter (fun r => leb (SettlementReport.last_loaded_date st)
                                               (SettlementReport.date r)) view))
                 offset) as [Hle|Hgt];
     [rewrite SettlementReport_page_past_end in El by exact Hle; discriminate|
      cbn [length]; lia]).
Qed.

(** Whatever the orders, the pages hold as many reports as are due. *)
Lemma SettlementReport_pages_length (fuel : nat) :
  forall (offset n : nat),
    (length (filter (fun r => leb (SettlementReport.last_loaded_date st)
                                  (SettlementReport.date r)) view) - offset <
     fuel)%nat ->
    length (concat (SettlementReport.pages_read fuel st offset n execs)) =
    (length (filter (fun r => leb (SettlementReport.last_loaded_date st)
                                  (SettlementReport.date r)) view) - offset)%nat.
Proof.
  induction fuel as [|fuel IH]; intros offset n Hf; [lia|].
  cbn [SettlementReport.pages_read].
  assert (Hl : length (SettlementReport.list_reports st offset
                         SettlementReport.BATCH_LIMIT (execs (Datatypes.S n))) =
               Nat.min SettlementReport.BATCH_LIMIT
                 (length (filter (fun r => leb (SettlementReport.last_loaded_date st)
                                               (SettlementReport.date r)) view) -
                  offset)).
  { unfold SettlementReport.list_reports.
    fold (SettlementReport.pending st (execs (Datatypes.S n))).
    now rewrite length_firstn, length_skipn, SettlementReport_pending_length. }
  destruct (SettlementReport.list_reports st offset
              SettlementReport.BATCH_LIMIT (execs (Datatypes.S n)))
    as [|x l].
  - cbn [length concat] in *; unfold SettlementReport.BATCH_LIMIT in Hl; lia.
  - cbn [concat]; rewrite length_app, IH; cbn [length] in *; lia.
Qed.

(** When the executions of a run agree on the order of the reports, the
    pages are the consecutive parts of that order. *)
Lemma SettlementReport_pages_agree
  (V : list SettlementReport.RestaurantReportObj) (fuel : nat) :
  (forall n, SettlementReport.pending st (execs n) = V) ->
  forall offset n,
    (length V - offset < fuel)%nat ->
    concat (SettlementReport.pages_read fuel st offset n execs) =
    skipn offset V.
Proof.
  intros HV; induction fuel as [|fuel IH]; intros offset n Hf; [lia|].
  cbn [SettlementReport.pages_read]; unfold SettlementReport.list_reports.
  fold (SettlementReport.pending st (execs (Datatypes.S n))); rewrite HV.
  destruct (firstn SettlementReport.BATCH_LIMIT (skipn offset V))
    as [|x l] eqn:Ep.
  - destruct (skipn offset V); [reflexivity|discriminate].
  - cbn [concat]; rewrite IH.
    + rewrite <- Ep; apply page_then_rest.
    + assert (Hoff : (offset < length V)%nat).
      { destruct (Nat.lt_ge_cases offset (length V)); [assumption|].
        rewrite skipn_all2 in Ep by assumption; discriminate. }
      cbn [length]; lia.
Qed.

End SettlementPages.

(** The second run of the settlement report, when what was due at the
    first fitted into one page and every report of the view has a key of
    its own. *)
Lemma SettlementReport_second_run (fails1 fails2 : nat -> bool)
  (fuel1 fuel2 : nat) (view : list SettlementReport.RestaurantReportObj)
  (execs1 execs2 : SettlementReport.Executions)
  (d : dest SettlementReport.DmSettlementReport)
  (w1 w2 : world SettlementReport.Executions
             (dest SettlementReport.DmSettlementReport))
  (r2 : result unit) :
  (forall n, Permutation (SettlementReport.reports_view (execs1 n)) view) ->
  (forall n, Permutation (SettlementReport.reports_view (execs2 n)) view) ->
  NoDup (map SettlementReport.report_key view) ->
  Forall (fun r => printable_date (SettlementReport.date r)) view ->
  (forall st,
     checkpoint SettlementReport.WF_KEY (fun kw => kw)
       SettlementReport.RestaurantReportSettings_init d = Some st ->
     (length (filter (fun r => leb (SettlementReport.last_loaded_date st)
                                   (SettlementReport.date r)) view) <=
      SettlementReport.BATCH_LIMIT)%nat) ->
  (length view < fuel1)%nat ->
  (length view < fuel2)%nat ->
  SettlementReport.run fails1 fuel1 (start execs1 d) = (Ok tt, w1) ->
  SettlementReport.run fails2 fuel2 (start execs2 (committed w1)) = (r2, w2) ->
  rows (dest_table (committed w2)) = rows (dest_table (committed w1)) /\
  rows (srv_wf_settings (committed w2)) = rows (srv_wf_settings (committed w1)).
Proof.
  intros Hp1 Hp2 Hnd Hv Hone Hf1 _ H1 H2.
  apply SettlementReport_run_ok in H1.
  apply SettlementReport_run_atomic in H2.
  destruct H2 as [H2|H2]; [rewrite H2; auto|].
  revert H1; unfold SettlementReport.loaded at 1.
  destruct (stored_setting SettlementReport.WF_KEY d) as [e|] eqn:Ee;
    [|discriminate].
  pose proof (stored_setting_key _ _ Ee) as Hkey.
  destruct (SettlementReport.RestaurantReportSettings_init
              (workflow_settings e)) as [st|] eqn:Est; [|discriminate].
  assert (Hck : checkpoint SettlementReport.WF_KEY (fun kw => kw)
                  SettlementReport.RestaurantReportSettings_init d = Some st)
    by (unfold checkpoint; rewrite Ee; exact Est).
  specialize (Hone st Hck); cbv zeta.
  rewrite (@SettlementReport_pages_one_page st view execs1 Hp1 fuel1 3)
    by (assumption || lia).
  pose proof (@SettlementReport_pending_In st view execs1 Hp1 4) as HP1.
  pose proof (@SettlementReport_pending_perm st view execs1 Hp1 4) as HP1p.
  destruct (SettlementReport.pending st (execs1 4%nat)) as [|r l] eqn:EP1.
  - (* nothing was due: neither run writes *)
    cbn [last py_max concat]; unfold write_all at 1; cbn [fold_left].
    intros [= Hd]; rewrite <- Hd in H2 |- *.
    unfold SettlementReport.loaded in H2; rewrite Ee, Est in H2.
    cbv zeta in H2.
    rewrite (@SettlementReport_pages_past_end st view execs2 Hp2 fuel2 0 3)
      in H2 by (apply Permutation_length in HP1p; cbn [length] in HP1p; lia).
    cbn [last py_max concat] in H2; unfold write_all in H2.
    cbn [fold_left] in H2; injection H2 as <-; auto.
  - cbn [last concat]; rewrite app_nil_r.
    destruct (py_max SettlementReport.RestaurantReportObj_lt (r :: l))
      as [m|] eqn:Em; [|discriminate Em].
    remember (write_all SettlementReport.insert_report (r :: l) d) as d0 eqn:Ed0.
    remember (SettlementReport.mk_RestaurantReportSettings
                (SettlementReport.date m)) as stD eqn:EstD.
    intros Hd1'.
    assert (Hd1 : advance SettlementReport.RestaurantReportSettings_dict
                    (workflow_key e) stD d0 = committed w1) by congruence.
    clear Hd1'.
    destruct (py_max_spec SettlementReport.date _ Em) as [Hm Hall].
    destruct (proj1 (HP1 m) Hm) as [Hmv Hmst].
    assert (HD : valid_date (SettlementReport.date m)).
    { rewrite Forall_forall in Hv; apply (Hv m Hmv). }
    assert (Hnd1 : NoDup (map SettlementReport.report_key (r :: l))).
    { apply (Permutation_NoDup
               (l := map SettlementReport.report_key
                       (filter (fun r => leb (SettlementReport.last_loaded_date st)
                                             (SettlementReport.date r)) view))).
      - apply Permutation_map; symmetry; exact HP1p.
      - now apply filter_keeps_keys_distinct. }
    rewrite Hkey in Hd1.
    assert (Hck1 : checkpoint SettlementReport.WF_KEY (fun kw => kw)
                     SettlementReport.RestaurantReportSettings_init
                     (committed w1) = Some stD).
    { rewrite <- Hd1, checkpoint_advance; subst stD.
      exact (@SettlementReport_round_trip SettlementReport.WF_KEY _
               (SettlementReport.mk_RestaurantReportSettings
                  (SettlementReport.date m)) HD). }
    unfold SettlementReport.loaded in H2; unfold checkpoint in Hck1.
    destruct (stored_setting SettlementReport.WF_KEY (committed w1))
      as [e1|] eqn:Ee1; [|discriminate].
    apply stored_setting_key in Ee1.
    rewrite Hck1, Ee1 in H2; cbv zeta in H2.
    remember (SettlementReport.pages_read fuel2 stD 0 3 execs2) as pages2
      eqn:Ep2.
    assert (Hin2 : forall x, In x (concat pages2) ->
                   In x (r :: l) /\
                   leb (SettlementReport.date m) (SettlementReport.date x) = true).
    { intros x Hx; subst pages2.
      apply (@SettlementReport_pages_members stD view execs2 Hp2) in Hx.
      destruct Hx as [Hxv Hxd]; subst stD.
      cbn [SettlementReport.last_loaded_date] in Hxd.
      split; [|exact Hxd]; apply HP1; split; [exact Hxv|].
      eapply leb_trans; eassumption. }
    assert (Hrows : rows (dest_table
                            (write_all SettlementReport.insert_report
                               (concat pages2) (committed w1))) =
                    rows (dest_table (committed w1))).
    { rewrite write_all_table, <- Hd1; unfold advance; cbn [dest_table].
      subst d0; rewrite write_all_table.
      rewrite !SettlementReport_insert_is_upsert.
      apply replay_members; try (intros; reflexivity); [exact Hnd1|].
      intros x Hx; now apply Hin2. }
    destruct (py_max SettlementReport.RestaurantReportObj_lt (last pages2 []))
      as [m2|] eqn:Em2.
    + injection H2 as <-.
      destruct (py_max_spec SettlementReport.date _ Em2) as [Hm2 _].
      apply In_last_concat, Hin2 in Hm2; destruct Hm2 as [Hm2 Hge].
      assert (Hdm : SettlementReport.date m2 = SettlementReport.date m).
      { apply leb_antisym; [|exact Hge].
        rewrite Forall_forall in Hall; now apply Hall. }
      unfold advance at 1 2; cbn [dest_table srv_wf_settings].
      split; [exact Hrows|].
      rewrite write_all_settings, Hdm, <- EstD, <- Hd1.
      unfold advance; cbn [srv_wf_settings].
      apply upsert_setting_twice.
    + injection H2 as <-; split; [exact Hrows|].
      now rewrite write_all_settings.
Qed.

Definition courier_example (n : nat) : DmCouriers.CourierObj :=
  DmCouriers.mk_CourierObj (Z.of_nat n)
    (string_of_list_ascii (pad2 (Z.of_nat n))) "courier".

(** Couriers 1 to 51 in the staging table. *)
Definition fifty_one_couriers : DmCouriers.Source :=
  map courier_example (List.seq 1 51).

Definition after_first_run : dest DmCouriers.DmCourier :=
  committed (snd (DmCouriers.run no_fault (start fifty_one_couriers empty_dest))).

Definition after_second_run : dest DmCouriers.DmCourier :=
  committed (snd (DmCouriers.run no_fault (start fifty_one_couriers after_first_run))).

(** C7 as stated fails: with 51 couriers in the source and nothing added
    after the first run, the first run loads 50 and stops at watermark 50;
    the second loads the 51st and moves the watermark. *)
Lemma second_run_loads_the_rest :
  fst (DmCouriers.run no_fault (start fifty_one_couriers empty_dest)) = Ok tt /\
  length (rows (dest_table after_first_run)) = 50%nat /\
  DmCouriers.stored_checkpoint after_first_run =
    Some (DmCouriers.mk_CourierSettings 50) /\
  length (rows (dest_table after_second_run)) = 51%nat /\
  DmCouriers.stored_checkpoint after_second_run =
    Some (DmCouriers.mk_CourierSettings 51) /\
  after_second_run <> after_first_run.
Proof.
  split; [vm_compute; reflexivity|].
  split; [vm_compute; reflexivity|].
  split; [vm_compute; reflexivity|].
  split; [vm_compute; reflexivity|].
  split; [vm_compute; reflexivity|].
  intros H; apply (f_equal (fun d => length (rows (dest_table d)))) in H.
  vm_compute in H; discriminate H.
Qed.

(** C7, as amended. For the couriers loader (single batch): when the
    first run returns and what was pending before it fitted into one batch,
    a second run over the same source leaves the destination and the
    watermark as the first run left them, whatever happens during it. For
    the settlement report (drain loop): when the first run returns, what
    was due before it fitted into one page and no two reports of the view
    share a date and a restaurant, a second run over the same reports
    leaves the rows of the report table and of the checkpoint table as
    they were — in whatever order the database returns the reports of one
    date to either run, and whatever happens during the second. *)
Theorem second_run_changes_nothing :
  (forall fails1 fails2 src d w1 w2 r2,
     DmCouriers.run fails1 (start src d) = (Ok tt, w1) ->
     (forall st, DmCouriers.stored_checkpoint d = Some st ->
        (length (DmCouriers.pending st src) <= DmCouriers.BATCH_LIMIT)%nat) ->
     DmCouriers.run fails2 (start src (committed w1)) = (r2, w2) ->
     committed w2 = committed w1) /\
  (forall fails1 fails2 fuel1 fuel2 view execs1 execs2 d w1 w2 r2,
     (forall n, Permutation (SettlementReport.reports_view (execs1 n)) view) ->
     (forall n, Permutation (SettlementReport.reports_view (execs2 n)) view) ->
     NoDup (map SettlementReport.report_key view) ->
     Forall (fun r => printable_date (SettlementReport.date r)) view ->
     (forall st,
        checkpoint SettlementReport.WF_KEY (fun kw => kw)
          SettlementReport.RestaurantReportSettings_init d = Some st ->
        (length (filter (fun r => leb (SettlementReport.last_loaded_date st)
                                      (SettlementReport.date r)) view) <=
         SettlementReport.BATCH_LIMIT)%nat) ->
     (length view < fuel1)%nat ->
     (length view < fuel2)%nat ->
     SettlementReport.run fails1 fuel1 (start execs1 d) = (Ok tt, w1) ->
     SettlementReport.run fails2 fuel2 (start execs2 (committed w1)) = (r2, w2) ->
     rows (dest_table (committed w2)) = rows (dest_table (committed w1)) /\
     rows (srv_wf_settings (committed w2)) =
       rows (srv_wf_settings (committed w1))).
Proof.
  split.
  - intros fails1 fails2 src d w1 w2 r2; apply DmCouriers_second_run.
  - intros fails1 fails2 fuel1 fuel2 view execs1 execs2 d w1 w2 r2.
    apply SettlementReport_second_run.
Qed.

Definition three_couriers : DmCouriers.Source :=
  map courier_example [2%nat; 3%nat; 1%nat].

Definition two_reports : SettlementReport.Source :=
  SettlementReport.mk_Source [report_example "r2" 6; report_example "r1" 5].

(** The database meets the groups in the same order at every execution. *)
Definition every_time (src : SettlementReport.Source) :
  SettlementReport.Executions := fun _ => src.

(** The same two reports, met in the other order. *)
Definition two_reports_reversed : SettlementReport.Source :=
  SettlementReport.mk_Source (rev (SettlementReport.reports_view two_reports)).

Lemma second_run_changes_nothing_witness :
  committed (snd (DmCouriers.run no_fault
                    (start three_couriers
                       (committed (snd (DmCouriers.run no_fault
                                          (start three_couriers empty_dest))))))) =
  committed (snd (DmCouriers.run no_fault (start three_couriers empty_dest))) /\
  (rows (dest_table
           (committed
              (snd (SettlementReport.run no_fault 3
                      (start (every_time two_reports_reversed)
                         (committed
                            (snd (SettlementReport.run no_fault 3
                                    (start (every_time two_reports)
                                       empty_dest))))))))) =
   rows (dest_table
           (committed (snd (SettlementReport.run no_fault 3
                              (start (every_time two_reports) empty_dest))))) /\
   rows (srv_wf_settings
           (committed
              (snd (SettlementReport.run no_fault 3
                      (start (every_time two_reports_reversed)
                         (committed
                            (snd (SettlementReport.run no_fault 3
                                    (start (every_time two_reports)
                                       empty_dest))))))))) =
   rows (srv_wf_settings
           (committed (snd (SettlementReport.run no_fault 3
                              (start (every_time two_reports) empty_dest)))))).
Proof.
  split.
  - apply (proj1 second_run_changes_nothing no_fault no_fault three_couriers
             empty_dest
             (snd (DmCouriers.run no_fault (start three_couriers empty_dest)))
             (snd (DmCouriers.run no_fault
                     (start three_couriers
                        (committed (snd (DmCouriers.run no_fault
                                           (start three_couriers empty_dest)))))))
             (fst (DmCouriers.run no_fault
                     (start three_couriers
                        (committed (snd (DmCouriers.run no_fault
                                           (start three_couriers empty_dest)))))))).
    + vm_compute; reflexivity.
    + intros st Hst; vm_compute in Hst; injection Hst as <-.
      vm_compute; lia.
    + vm_compute; reflexivity.
  - apply (proj2 second_run_changes_nothing no_fault no_fault 3%nat 3%nat
             (SettlementReport.reports_view two_reports)
             (every_time two_reports) (every_time two_reports_reversed)
             empty_dest
             (snd (SettlementReport.run no_fault 3
                     (start (every_time two_reports) empty_dest)))
             (snd (SettlementReport.run no_fault 3
                     (start (every_time two_reports_reversed)
                        (committed
                           (snd (SettlementReport.run no_fault 3
                                   (start (every_time two_reports)
                                      empty_dest)))))))
             (fst (SettlementReport.run no_fault 3
                     (start (every_time two_reports_reversed)
                        (committed
                           (snd (SettlementReport.run no_fault 3
                                   (start (every_time two_reports)
                                      empty_dest)))))))).
    + intros n; reflexivity.
    + intros n; symmetry; apply Permutation_rev.
    + vm_compute; repeat (constructor; [simpl; intuition discriminate|]).
      constructor.
    + repeat constructor; simpl; lia.
    + intros st Hst; vm_compute in Hst; injection Hst as <-.
      vm_compute; lia.
    + vm_compute; lia.
    + vm_compute; lia.
    + vm_compute; reflexivity.
    + vm_compute; reflexivity.
Defined.

Example settlement_runs_twice :
  let d1 := committed (snd (SettlementReport.run no_fault 3
                              (start (every_time two_reports) empty_dest))) in
  let d2 := committed (snd (SettlementReport.run no_fault 3
                              (start (every_time two_reports) d1))) in
  fst (SettlementReport.run no_fault 3
         (start (every_time two_reports) empty_dest)) = Ok tt /\
  length (rows (dest_table d1)) = 2%nat /\
  rows (dest_table d2) = rows (dest_table d1) /\
  rows (srv_wf_settings d2) = rows (srv_wf_settings d1) /\
  seq (dest_table d2) = 3 /\ seq (dest_table d1) = 2.
Proof. cbv zeta; repeat split; vm_compute; reflexivity. Qed.

(** Two groups of one date and one restaurant, which GROUP BY dt.date,
    dr.restaurant_id, dr.restaurant_name yields when the restaurant has
    changed its name: the row holds what the later of the two wrote, and
    ORDER BY dt.date does not say which is the later. A second run that
    meets them in the other order rewrites the row. *)
Definition renamed_restaurant : list SettlementReport.RestaurantReportObj :=
  [SettlementReport.mk_RestaurantReportObj "r1" "Cafe" (mk_date 2022 1 5) 2
     (800#1) (0#1) (0#1);
   SettlementReport.mk_RestaurantReportObj "r1" "Cafe Nova" (mk_date 2022 1 5) 3
     (1200#1) (0#1) (0#1)].

Example settlement_order_of_one_date_counts :
  let d1 := committed (snd (SettlementReport.run no_fault 3
              (start (every_time (SettlementReport.mk_Source
                                    (rev renamed_restaurant)))
                     empty_dest))) in
  let d2 := committed (snd (SettlementReport.run no_fault 3
              (start (every_time (SettlementReport.mk_Source
                                    renamed_restaurant)) d1))) in
  map SettlementReport.sr_orders_count (rows (dest_table d1)) = [2] /\
  map SettlementReport.sr_orders_count (rows (dest_table d2)) = [3].
Proof. cbv zeta; split; vm_compute; reflexivity. Qed.

(** A hundred and one reports of one day, each of a restaurant of its
    own. The first page is a query of its own and so is the second: when
    the second execution meets the last report first, the page after the
    first hundred holds a report that the first page held already, and the
    run returns without the report numbered 101. *)
Definition one_day_report (n : nat) : SettlementReport.RestaurantReportObj :=
  SettlementReport.mk_RestaurantReportObj (py_str_of_int (Z.of_nat n)) "Cafe"
    (mk_date 2022 1 5) 1 (100#1) (0#1) (0#1).

Definition one_day : list SettlementReport.RestaurantReportObj :=
  map one_day_report (List.seq 1 101).

Definition last_comes_first : SettlementReport.Executions :=
  fun n => if (n <=? 4)%nat
           then SettlementReport.mk_Source one_day
           else SettlementReport.mk_Source
                  (one_day_report 101 :: firstn 100 one_day).

Example settlement_pages_skip_a_report :
  let r := SettlementReport.run no_fault 102
             (start last_comes_first empty_dest) in
  (forall n, Permutation (SettlementReport.reports_view (last_comes_first n))
               one_day) /\
  fst r = Ok tt /\
  length (rows (dest_table (committed (snd r)))) = 100%nat /\
  existsb (fun row => eqb (SettlementReport.row_key row)
                          (SettlementReport.report_key (one_day_report 101)))
          (rows (dest_table (committed (snd r)))) = false.
Proof.
  cbv zeta; split; [|repeat split; vm_compute; reflexivity].
  intros n; unfold last_comes_first; destruct (n <=? 4)%nat; cbn [SettlementReport.reports_view];
    [reflexivity|].
  change one_day with (firstn 100 one_day ++ [one_day_report 101]) at 2.
  apply Permutation_cons_append.
Qed.

(** * Further properties

    The sections below cover what the ones above leave out — how the
    statements of the writers compose, the remaining readers and runs, the
    scope of the origin connections, the schema initialiser — with the
    properties that the code itself shows. *)

(** ** Upserts, row by row *)

Section UpsertFacts.
Context {Row : Type}.
Variable conflict : Row -> bool.
Variable update : Row -> Row.
Variable new : Row.

(** The row that an upsert leaves under the conflict key. *)
Lemma find_upsert_rows (l : list Row) :
  conflict new = true ->
  (forall r, conflict r = true -> conflict (update r) = true) ->
  find conflict (upsert_rows conflict update new l) =
  Some (match find conflict l with Some r => update r | None => new end).
Proof.
  intros Hn Hu; induction l as [|r l IH]; simpl.
  - now rewrite Hn.
  - destruct (conflict r) eqn:E; simpl.
    + now rewrite (Hu r E).
    + now rewrite E.
Qed.

(** A search for anything that the upsert does not see as a conflict, and
    that the update does not change, finds what it found before. *)
Lemma find_upsert_rows_other (q : Row -> bool) (l : list Row) :
  q new = false ->
  (forall r, conflict r = true -> q r = false /\ q (update r) = false) ->
  find q (upsert_rows conflict update new l) = find q l.
Proof.
  intros Hn Hq; induction l as [|r l IH]; simpl.
  - now rewrite Hn.
  - destruct (conflict r) eqn:E; simpl.
    + destruct (Hq r E) as [-> ->]; reflexivity.
    + now rewrite IH.
Qed.

(** Columns that the SET list leaves alone keep their values, row by row;
    a row is added at the end exactly when no row holds the key. *)
Lemma map_upsert_rows {C} (col : Row -> C) (l : list Row) :
  (forall r, col (update r) = col r) ->
  map col (upsert_rows conflict update new l) =
  if existsb conflict l then map col l else map col l ++ [col new].
Proof.
  intros Hc; induction l as [|r l IH]; simpl; [reflexivity|].
  destruct (conflict r) eqn:E; simpl; [now rewrite Hc|].
  rewrite IH; now destruct (existsb conflict l).
Qed.

Lemma existsb_upsert_rows (l : list Row) :
  conflict new = true ->
  (forall r, conflict r = true -> conflict (update r) = true) ->
  existsb conflict (upsert_rows conflict update new l) = true.
Proof.
  intros Hn Hu; induction l as [|r l IH]; simpl.
  - now rewrite Hn.
  - destruct (conflict r) eqn:E; simpl; [now rewrite (Hu r E)|now rewrite E].
Qed.

Lemma existsb_upsert_rows_mono (q : Row -> bool) (l : list Row) :
  (forall r, q r = true -> q (update r) = true) ->
  existsb q l = true -> existsb q (upsert_rows conflict update new l) = true.
Proof.
  intros Hq; induction l as [|r l IH]; simpl; [discriminate|].
  destruct (conflict r) eqn:E; simpl.
  - destruct (q r) eqn:Er; simpl; [now rewrite (Hq r Er)|].
    intros ->; apply orb_true_r.
  - destruct (q r); simpl; [reflexivity|exact IH].
Qed.

Lemma Forall_upsert_rows (P : Row -> Prop) (l : list Row) :
  P new -> (forall r, P r -> P (update r)) ->
  Forall P l -> Forall P (upsert_rows conflict update new l).
Proof.
  intros Hn Hu; induction 1 as [|r l Hr Hl IH]; simpl.
  - now constructor.
  - destruct (conflict r); constructor; auto.
Qed.

End UpsertFacts.

Lemma NoDup_snoc {A} (l : list A) (a : A) :
  NoDup l -> ~ In a l -> NoDup (l ++ [a]).
Proof.
  induction 1 as [|x l Hx Hl IH]; simpl; intros Ha.
  - constructor; [intros []|constructor].
  - constructor.
    + rewrite in_app_iff; simpl; intros [H|[H|[]]]; [auto|subst; auto].
    + apply IH; auto.
Qed.

(** A unique key stays unique under an upsert on that key. *)
Lemma NoDup_upsert_rows {Row K} (key : Row -> K) (k : K)
  (conflict : Row -> bool) (update : Row -> Row) (new : Row) (l : list Row) :
  (forall r, conflict r = true <-> key r = k) ->
  (forall r, key (update r) = key r) -> key new = k ->
  NoDup (map key l) -> NoDup (map key (upsert_rows conflict update new l)).
Proof.
  intros Hc Hu Hn Hl; rewrite map_upsert_rows by assumption.
  destruct (existsb conflict l) eqn:E; [assumption|].
  apply NoDup_snoc; [assumption|].
  rewrite in_map_iff; intros (r & Hr & Hin).
  assert (Ht : existsb conflict l = true).
  { apply existsb_exists; exists r; split; [assumption|].
    apply Hc; congruence. }
  congruence.
Qed.

(** ** [lib/etl_settings_repository.py]: the two statements together *)

Lemma select_upsert_setting (wf_key : string) (blob : pyval)
  (t : table SettingsRow) :
  select_setting wf_key (upsert_setting wf_key blob t) =
  Some (mk_SettingsRow
          match select_setting wf_key t with
          | Some r => row_id r
          | None => seq t + 1
          end wf_key blob).
Proof.
  unfold select_setting, upsert_setting, insert_on_conflict; cbn [rows].
  rewrite find_upsert_rows; cbn [row_workflow_key].
  - destruct (find _ (rows t)) as [r|] eqn:Ef; [|reflexivity].
    apply find_some in Ef; destruct Ef as [_ Ek].
    apply String.eqb_eq in Ek; now rewrite Ek.
  - apply String.eqb_refl.
  - auto.
Qed.

Lemma select_upsert_setting_other (wf_key other : string) (blob : pyval)
  (t : table SettingsRow) :
  other <> wf_key ->
  select_setting other (upsert_setting wf_key blob t) = select_setting other t.
Proof.
  intros Hk; unfold select_setting, upsert_setting, insert_on_conflict.
  cbn [rows]; apply find_upsert_rows_other; cbn [row_workflow_key].
  - apply String.eqb_neq; congruence.
  - intros r Hr; apply String.eqb_eq in Hr.
    rewrite Hr; split; apply String.eqb_neq; congruence.
Qed.

(** What [get_setting] returns when no call fails. *)
Lemma get_setting_run {S Row} (wf_key : string) (w : world S (dest Row)) :
  fst (get_setting no_fault wf_key w) =
  match select_setting wf_key (srv_wf_settings (working w)) with
  | Some r =>
      match EtlSetting_of_row r with
      | Some e => Ok e
      | None => Raise ValidationError
      end
  | None => Ok (mk_EtlSetting 0 wf_key [])
  end.
Proof.
  unfold get_setting, bind, target_retrieve, db_call, no_fault; simpl.
  destruct (select_setting _ _) as [r|]; [|reflexivity].
  now destruct (EtlSetting_of_row r).
Qed.

Lemma save_then_get {S Row} (wf_key other : string) (wf_settings : pyval)
  (w : world S (dest Row)) :
  fst ((save_setting no_fault wf_key wf_settings ;;;
        get_setting no_fault other) w) =
  match select_setting other
          (upsert_setting wf_key (json2str wf_settings)
             (srv_wf_settings (working w))) with
  | Some r =>
      match EtlSetting_of_row r with
      | Some e => Ok e
      | None => Raise ValidationError
      end
  | None => Ok (mk_EtlSetting 0 other [])
  end.
Proof.
  unfold bind at 1, save_setting, target_insert, db_call, no_fault; simpl.
  now rewrite get_setting_run.
Qed.

(** X1. After [save_setting] has stored settings that serialise to a JSON
    object, [get_setting] for the same workflow key returns that object
    under that key; the row keeps its id when the key had a row, and takes
    the next value of the sequence when it had none. *)
Theorem get_setting_after_save_setting :
  forall (S Row : Type) (wf_key : string) (wf_settings : pyval) (items : dict)
         (w : world S (dest Row)),
    json2str wf_settings = PyDict items ->
    fst ((save_setting no_fault wf_key wf_settings ;;;
          get_setting no_fault wf_key) w) =
    Ok (mk_EtlSetting
          match select_setting wf_key (srv_wf_settings (working w)) with
          | Some r => row_id r
          | None => seq (srv_wf_settings (working w)) + 1
          end wf_key items).
Proof.
  intros S Row wf_key wf_settings items w Hj.
  rewrite save_then_get, select_upsert_setting, Hj; reflexivity.
Qed.

Lemma get_setting_after_save_setting_witness :
  fst ((save_setting no_fault DmCouriers.WF_KEY
          (PyModel (DmCouriers.CourierSettings_dict
                      (DmCouriers.mk_CourierSettings 7))) ;;;
        get_setting no_fault DmCouriers.WF_KEY)
         (start tt (@empty_dest DmCouriers.DmCourier))) =
  Ok (mk_EtlSetting 1 DmCouriers.WF_KEY [("last_loaded_id", PyInt 7)]).
Proof.
  exact (@get_setting_after_save_setting unit DmCouriers.DmCourier
           DmCouriers.WF_KEY
           (PyModel (DmCouriers.CourierSettings_dict
                       (DmCouriers.mk_CourierSettings 7)))
           [("last_loaded_id", PyInt 7)] (start tt empty_dest) eq_refl).
Defined.

(** X2. [save_setting] for one workflow key leaves what [get_setting]
    returns for every other key as it was. *)
Theorem save_setting_leaves_other_workflows :
  forall (S Row : Type) (wf_key other : string) (wf_settings : pyval)
         (w : world S (dest Row)),
    other <> wf_key ->
    fst ((save_setting no_fault wf_key wf_settings ;;;
          get_setting no_fault other) w) =
    fst (get_setting no_fault other w).
Proof.
  intros S Row wf_key other wf_settings w Hk.
  now rewrite save_then_get, get_setting_run, select_upsert_setting_other.
Qed.

Lemma save_setting_leaves_other_workflows_witness :
  fst ((save_setting no_fault DmCouriers.WF_KEY (PyModel []) ;;;
        get_setting no_fault DmOrders.WF_KEY)
         (start tt (@empty_dest DmCouriers.DmCourier))) =
  fst (get_setting no_fault DmOrders.WF_KEY
         (start tt (@empty_dest DmCouriers.DmCourier))).
Proof.
  apply (@save_setting_leaves_other_workflows unit DmCouriers.DmCourier
           DmCouriers.WF_KEY DmOrders.WF_KEY (PyModel [])
           (start tt empty_dest)).
  discriminate.
Defined.

(** X3. [save_setting] keeps the checkpoint table with one row per
    workflow key, removes no row and changes no row id; it touches neither
    the table that the loader fills nor the durable destination. *)
Theorem save_setting_keeps_one_row_per_key :
  forall (S Row : Type) (fails : nat -> bool) (wf_key : string)
         (wf_settings : pyval) (w w' : world S (dest Row)) (u : unit),
    save_setting fails wf_key wf_settings w = (Ok u, w') ->
    NoDup (map row_workflow_key (rows (srv_wf_settings (working w)))) ->
    NoDup (map row_workflow_key (rows (srv_wf_settings (working w')))) /\
    (exists added,
       map (fun r => (row_id r, row_workflow_key r))
           (rows (srv_wf_settings (working w'))) =
       map (fun r => (row_id r, row_workflow_key r))
           (rows (srv_wf_settings (working w))) ++ added) /\
    dest_table (working w') = dest_table (working w) /\
    committed w' = committed w.
Proof.
  intros S Row fails wf_key wf_settings w w' u Hs Hn.
  unfold save_setting in Hs; apply target_insert_ok in Hs.
  destruct Hs as (_ & Hc & ->); cbn [srv_wf_settings dest_table].
  unfold upsert_setting, insert_on_conflict; cbn [rows].
  repeat split; try assumption.
  - apply NoDup_upsert_rows with (k := wf_key); auto.
    intros r; apply String.eqb_eq.
  - rewrite map_upsert_rows by reflexivity.
    destruct (existsb _ _); [exists []; now rewrite app_nil_r|eauto].
Qed.

Lemma save_setting_keeps_one_row_per_key_witness :
  NoDup (map row_workflow_key
           (rows (srv_wf_settings
                    (working (snd (save_setting no_fault DmCouriers.WF_KEY
                                     (PyModel [])
                                     (start tt (@empty_dest DmCouriers.DmCourier)))))))).
Proof.
  apply (@save_setting_keeps_one_row_per_key unit DmCouriers.DmCourier no_fault
           DmCouriers.WF_KEY (PyModel []) (start tt empty_dest)
           (snd (save_setting no_fault DmCouriers.WF_KEY (PyModel [])
                   (start tt empty_dest))) tt).
  - reflexivity.
  - constructor.
Defined.

(** ** The writers: how their statements compose *)

Section UpsertTwice.
Context {Row : Type}.
Variable conflict : Row -> bool.

(** DO UPDATE twice on one key: the second SET list decides. *)
Lemma upsert_rows_update_twice (u1 u2 : Row -> Row) (n1 n2 n2' : Row)
  (l : list Row) :
  (forall r, conflict r = true -> conflict (u1 r) = true) ->
  (forall r, u2 (u1 r) = u2 r) ->
  conflict n1 = true -> u2 n1 = n2 ->
  upsert_rows conflict u2 n2' (upsert_rows conflict u1 n1 l) =
  upsert_rows conflict u2 n2 l.
Proof.
  intros Hc Hu Hn1 Hn; induction l as [|r l IH]; simpl.
  - now rewrite Hn1, Hn.
  - destruct (conflict r) eqn:E; simpl.
    + now rewrite (Hc r E), Hu.
    + now rewrite E, IH.
Qed.

(** DO NOTHING twice on one key: the row of the first stays. *)
Lemma upsert_rows_nothing_twice (n1 n2 : Row) (l : list Row) :
  conflict n1 = true ->
  upsert_rows conflict (fun r => r) n2
    (upsert_rows conflict (fun r => r) n1 l) =
  upsert_rows conflict (fun r => r) n1 l.
Proof.
  intros Hn; apply upsert_rows_do_nothing, existsb_upsert_rows; auto.
Qed.

End UpsertTwice.

(** X4. After [insert_courier] and after [insert_order], the row found
    under the key of the record written carries the values of that record,
    whether the key was new or not. *)
Theorem upserted_record_is_found :
  (forall (courier : DmCouriers.CourierObj) (t : table DmCouriers.DmCourier),
     exists i,
       find (fun r => String.eqb (DmCouriers.courier_id r)
                        (DmCouriers.object_id courier))
            (rows (DmCouriers.insert_courier courier t)) =
       Some (DmCouriers.mk_DmCourier i (DmCouriers.object_id courier)
               (DmCouriers.name courier))) /\
  (forall (order : DmOrders.OrderObj) (t : table DmOrders.DmOrder),
     exists i,
       find (fun r => String.eqb (DmOrders.order_key r)
                        (DmOrders.object_id order))
            (rows (DmOrders.insert_order order t)) =
       Some (DmOrders.mk_DmOrder i (DmOrders.object_id order)
               (DmOrders.final_status order) (DmOrders.user_fk order)
               (DmOrders.restaurant_fk order) (DmOrders.timestamp_fk order))).
Proof.
  split; intros o t.
  - unfold DmCouriers.insert_courier, insert_on_conflict; cbn [rows].
    rewrite find_upsert_rows by (cbn; auto using String.eqb_refl).
    destruct (find _ (rows t)) as [r|] eqn:Ef; [|eauto].
    apply find_some in Ef; destruct Ef as [_ Ek].
    apply String.eqb_eq in Ek; rewrite Ek; eauto.
  - unfold DmOrders.insert_order, insert_on_conflict; cbn [rows].
    rewrite find_upsert_rows by (cbn; auto using String.eqb_refl).
    destruct (find _ (rows t)) as [r|] eqn:Ef; [|eauto].
    apply find_some in Ef; destruct Ef as [_ Ek].
    apply String.eqb_eq in Ek; rewrite Ek; eauto.
Qed.

(** X5. Of two writes of one key by [insert_courier] or by
    [insert_order] (ON CONFLICT DO UPDATE) the later one decides: the rows
    are those that the later write alone would have left. *)
Theorem later_upsert_decides :
  (forall (c1 c2 : DmCouriers.CourierObj) (t : table DmCouriers.DmCourier),
     DmCouriers.object_id c1 = DmCouriers.object_id c2 ->
     rows (DmCouriers.insert_courier c2 (DmCouriers.insert_courier c1 t)) =
     rows (DmCouriers.insert_courier c2 t)) /\
  (forall (o1 o2 : DmOrders.OrderObj) (t : table DmOrders.DmOrder),
     DmOrders.object_id o1 = DmOrders.object_id o2 ->
     rows (DmOrders.insert_order o2 (DmOrders.insert_order o1 t)) =
     rows (DmOrders.insert_order o2 t)).
Proof.
  split; intros o1 o2 t Hk.
  - unfold DmCouriers.insert_courier, insert_on_conflict; cbn [rows seq].
    rewrite Hk; apply upsert_rows_update_twice; cbn; auto.
    apply String.eqb_refl.
  - unfold DmOrders.insert_order, insert_on_conflict; cbn [rows seq].
    rewrite Hk; apply upsert_rows_update_twice; cbn; auto.
    apply String.eqb_refl.
Qed.

Lemma later_upsert_decides_witness :
  rows (DmCouriers.insert_courier (DmCouriers.mk_CourierObj 2 "c1" "Bob")
          (DmCouriers.insert_courier (DmCouriers.mk_CourierObj 1 "c1" "Ann")
             (mk_table [] 0))) =
  rows (DmCouriers.insert_courier (DmCouriers.mk_CourierObj 2 "c1" "Bob")
          (mk_table [] 0)).
Proof.
  apply (proj1 later_upsert_decides (DmCouriers.mk_CourierObj 1 "c1" "Ann")
           (DmCouriers.mk_CourierObj 2 "c1" "Bob") (mk_table [] 0)).
  reflexivity.
Defined.

Lemma truthy_str_some (v : option string) :
  truthy_str v = true -> exists s, v = Some s.
Proof. destruct v; [eauto|discriminate]. Qed.

(** X6. Of two writes of one key by [insert_delivery] or by [insert_sale]
    (ON CONFLICT DO NOTHING) the first one stays: the second leaves the
    rows as they are, whatever it carries. For a sale the key is the pair
    of references, which the gap filter has found present. *)
Theorem first_insert_stays :
  (forall (d1 d2 : Deliveries.DeliveryObj) (t : table Deliveries.StgDelivery),
     Deliveries.delivery_id d1 = Deliveries.delivery_id d2 ->
     rows (Deliveries.insert_delivery d2 (Deliveries.insert_delivery d1 t)) =
     rows (Deliveries.insert_delivery d1 t)) /\
  (forall (s1 s2 : FctProductSales.ProductSaleObj)
          (t : table FctProductSales.ProductSale),
     FctProductSales.has_all_fks s1 = true ->
     FctProductSales.product_fk s1 = FctProductSales.product_fk s2 ->
     FctProductSales.order_fk s1 = FctProductSales.order_fk s2 ->
     rows (FctProductSales.insert_sale s2 (FctProductSales.insert_sale s1 t)) =
     rows (FctProductSales.insert_sale s1 t)).
Proof.
  split.
  - intros d1 d2 t Hk.
    unfold Deliveries.insert_delivery, insert_on_conflict; cbn [rows seq].
    rewrite <- Hk; apply upsert_rows_nothing_twice; cbn.
    apply String.eqb_refl.
  - intros s1 s2 t Hf Hp Ho.
    unfold FctProductSales.insert_sale, insert_on_conflict; cbn [rows seq].
    rewrite <- Hp, <- Ho; apply upsert_rows_nothing_twice; cbn.
    unfold FctProductSales.has_all_fks, all in Hf; cbn in Hf.
    rewrite andb_true_r in Hf; apply andb_true_iff in Hf.
    destruct Hf as [H1 H2].
    apply truthy_str_some in H1, H2.
    destruct H1 as [o ->], H2 as [p ->]; cbn.
    now rewrite !String.eqb_refl.
Qed.

Lemma first_insert_stays_witness :
  rows (Deliveries.insert_delivery
          (Deliveries.mk_DeliveryObj "d1" (mk_datetime 2022 1 2 0 0 0 0) [])
          (Deliveries.insert_delivery
             (Deliveries.mk_DeliveryObj "d1" (mk_datetime 2022 1 1 0 0 0 0) [])
             (mk_table [] 0))) =
  rows (Deliveries.insert_delivery
          (Deliveries.mk_DeliveryObj "d1" (mk_datetime 2022 1 1 0 0 0 0) [])
          (mk_table [] 0)).
Proof.
  apply (proj1 first_insert_stays
           (Deliveries.mk_DeliveryObj "d1" (mk_datetime 2022 1 1 0 0 0 0) [])
           (Deliveries.mk_DeliveryObj "d1" (mk_datetime 2022 1 2 0 0 0 0) [])
           (mk_table [] 0)).
  reflexivity.
Defined.

(** X7. [insert_courier] and [insert_order] remove no row and change
    neither the surrogate id nor the key of a row: the rows written before
    are there in their order, with at most one row added after them; and a
    key column without repeats stays without repeats. *)
Theorem upsert_keeps_ids_and_unique_keys :
  (forall (courier : DmCouriers.CourierObj) (t : table DmCouriers.DmCourier),
     (exists added,
        map (fun r => (DmCouriers.dmc_id r, DmCouriers.courier_id r))
            (rows (DmCouriers.insert_courier courier t)) =
        map (fun r => (DmCouriers.dmc_id r, DmCouriers.courier_id r)) (rows t)
        ++ added /\ (length added <= 1)%nat) /\
     (NoDup (map DmCouriers.courier_id (rows t)) ->
      NoDup (map DmCouriers.courier_id
               (rows (DmCouriers.insert_courier courier t))))) /\
  (forall (order : DmOrders.OrderObj) (t : table DmOrders.DmOrder),
     (exists added,
        map (fun r => (DmOrders.dmo_id r, DmOrders.order_key r))
            (rows (DmOrders.insert_order order t)) =
        map (fun r => (DmOrders.dmo_id r, DmOrders.order_key r)) (rows t)
        ++ added /\ (length added <= 1)%nat) /\
     (NoDup (map DmOrders.order_key (rows t)) ->
      NoDup (map DmOrders.order_key (rows (DmOrders.insert_order order t))))).
Proof.
  split; intros o t; split.
  - unfold DmCouriers.insert_courier, insert_on_conflict; cbn [rows].
    rewrite map_upsert_rows by reflexivity.
    destruct (existsb _ _);
      [exists []; rewrite app_nil_r|eexists]; split; try reflexivity;
      simpl; lia.
  - unfold DmCouriers.insert_courier, insert_on_conflict; cbn [rows].
    apply NoDup_upsert_rows with (k := DmCouriers.object_id o); auto.
    intros r; apply String.eqb_eq.
  - unfold DmOrders.insert_order, insert_on_conflict; cbn [rows].
    rewrite map_upsert_rows by reflexivity.
    destruct (existsb _ _);
      [exists []; rewrite app_nil_r|eexists]; split; try reflexivity;
      simpl; lia.
  - unfold DmOrders.insert_order, insert_on_conflict; cbn [rows].
    apply NoDup_upsert_rows with (k := DmOrders.object_id o); auto.
    intros r; apply String.eqb_eq.
Qed.

Lemma upsert_keeps_ids_and_unique_keys_witness :
  NoDup (map DmCouriers.courier_id
           (rows (DmCouriers.insert_courier
                    (DmCouriers.mk_CourierObj 2 "c1" "Bob")
                    (mk_table [DmCouriers.mk_DmCourier 1 "c1" "Ann"] 1)))).
Proof.
  apply (proj2 (proj1 upsert_keeps_ids_and_unique_keys
                  (DmCouriers.mk_CourierObj 2 "c1" "Bob")
                  (mk_table [DmCouriers.mk_DmCourier 1 "c1" "Ann"] 1))).
  repeat constructor; intros [].
Defined.

(** ** The type-2 writers: what every write keeps *)

Lemma filter_map_shrinks {A} (p : A -> bool) (f : A -> A) (l : list A) :
  (forall r, p (f r) = true -> p r = true) ->
  (length (filter p (map f l)) <= length (filter p l))%nat.
Proof.
  intros Hp; induction l as [|r l IH]; simpl; [lia|].
  destruct (p (f r)) eqn:E.
  - rewrite (Hp r E); simpl; lia.
  - destruct (p r); simpl; lia.
Qed.

Section Type2Facts.
Context {Row : Type}.
Variable row_id : Row -> Z.
Variable same_key : Row -> bool.
Variable differs : Row -> bool.
Variable close : Row -> Row.
Variable is_open : Row -> bool.
Variable new_row : Z -> Row.

Let statement := type2_statement row_id same_key differs close is_open new_row.

(** The UPDATE changes rows in place. *)
Lemma update_active_to_map (snapshot current : list Row) :
  exists f, (forall r, f r = r \/ f r = close r) /\
            update_active_to row_id same_key differs close snapshot current =
            map f current.
Proof.
  unfold update_active_to.
  destruct (latest row_id same_key snapshot) as [i|].
  - eexists; split; [|reflexivity].
    intros r; simpl; destruct (_ && _); auto.
  - exists (fun r => r); split; [auto|now rewrite map_id].
Qed.

(** Columns that closing a row leaves alone keep their values, and at most
    one row is added. *)
Lemma type2_statement_cols {C} (col : Row -> C) (t : table Row) :
  (forall r, col (close r) = col r) ->
  exists added,
    map col (rows (statement t)) = map col (rows t) ++ added /\
    (length added <= 1)%nat.
Proof.
  intros Hc; unfold statement, type2_statement; cbn [rows].
  destruct (update_active_to_map (rows t)
              (rows (insert_open same_key is_open new_row t)))
    as (f & Hf & ->).
  rewrite map_map.
  rewrite (map_ext (fun r => col (f r)) col)
    by (intros r; destruct (Hf r) as [-> | ->]; auto).
  unfold insert_open, insert_on_conflict; cbn [rows].
  rewrite map_upsert_rows by reflexivity.
  destruct (existsb _ _);
    [exists []; rewrite app_nil_r|eexists]; split; try reflexivity;
    simpl; lia.
Qed.

(** The open rows of a key [mine]: a write leaves at most one when there
    was at most one, provided closing a row takes it out of the open ones. *)
Lemma type2_statement_open_rows (mine : Row -> bool) (t : table Row) :
  (forall r, is_open (close r) = false) ->
  (mine (new_row (seq t + 1)) = true ->
   forall r, mine r = true -> same_key r = true) ->
  (length (filter (fun r => mine r && is_open r) (rows t)) <= 1)%nat ->
  (length (filter (fun r => mine r && is_open r) (rows (statement t))) <= 1)%nat.
Proof.
  intros Hcl Hm Hl; unfold statement, type2_statement; cbn [rows].
  destruct (update_active_to_map (rows t)
              (rows (insert_open same_key is_open new_row t)))
    as (f & Hf & ->).
  etransitivity.
  { apply filter_map_shrinks; intros r.
    destruct (Hf r) as [-> | ->]; [auto|].
    rewrite Hcl, andb_false_r; discriminate. }
  unfold insert_open, insert_on_conflict; cbn [rows].
  destruct (existsb (fun r => same_key r && is_open r) (rows t)) eqn:E.
  - now rewrite upsert_rows_do_nothing.
  - rewrite upsert_rows_no_conflict.
    + rewrite filter_app, length_app; simpl.
      destruct (mine (new_row (seq t + 1))) eqn:En; simpl; [|lia].
      replace (filter (fun r => mine r && is_open r) (rows t)) with (@nil Row);
        [destruct (is_open _); simpl; lia|].
      symmetry; apply filter_nil_iff; intros r Hr.
      destruct (mine r) eqn:Er; [simpl|reflexivity].
      destruct (is_open r) eqn:Eo; [|reflexivity].
      assert (Ht : existsb (fun r => same_key r && is_open r) (rows t) = true).
      { apply existsb_exists; exists r; split; [assumption|].
        now rewrite (Hm eq_refl r Er), Eo. }
      congruence.
    + apply Forall_forall; intros r Hr.
      destruct (same_key r && is_open r) eqn:Er; [|reflexivity].
      assert (Ht : existsb (fun r => same_key r && is_open r) (rows t) = true).
      { apply existsb_exists; eauto. }
      congruence.
Qed.

End Type2Facts.

(** The open rows of a product. *)
Definition open_product_rows (pid : string) (t : table DmProducts.DmProduct) :
  list DmProducts.DmProduct :=
  filter (fun p => String.eqb (DmProducts.dp_product_id p) pid &&
                   datetime_eqb (DmProducts.active_to p) open_ended) (rows t).

Lemma datetime_eqb_neq (a b : datetime) : a <> b -> datetime_eqb a b = false.
Proof.
  intros Hn; unfold datetime_eqb; destruct (eqb a b) eqn:E; [|reflexivity].
  apply eqb_true in E; contradiction.
Qed.

(** X8. The first write of a key: when no row of the table carries the
    restaurant's (the product's) id, the statement adds one row after the
    existing ones, open-ended, active from the record's [update_ts], with
    the next id of the sequence, and changes nothing else. *)
Theorem type2_first_write_adds_open_row :
  (forall (restaurant : DmRestaurants.RestaurantObj)
          (t : table DmRestaurants.DmRestaurant),
     (forall r, In r (rows t) ->
        sql_eq (DmRestaurants.restaurant_id r)
               (DmRestaurants.object_id restaurant) = false) ->
     rows (DmRestaurants.insert_restaurant restaurant t) =
     rows t ++
     [DmRestaurants.mk_DmRestaurant (seq t + 1)
        (DmRestaurants.object_id restaurant) (DmRestaurants.name restaurant)
        (DmRestaurants.update_ts restaurant) open_ended]) /\
  (forall (product : DmProducts.ProductObj) (t : table DmProducts.DmProduct),
     (forall p, In p (rows t) ->
        String.eqb (DmProducts.dp_product_id p)
                   (DmProducts.product_id product) = false) ->
     rows (DmProducts.insert_product product t) =
     rows t ++
     [DmProducts.mk_DmProduct (seq t + 1) (DmProducts.product_id product)
        (DmProducts.name product) (DmProducts.price product)
        (DmProducts.restaurant_fk product) (DmProducts.update_ts product)
        open_ended]).
Proof.
  split; intros o t Hk.
  - unfold DmRestaurants.insert_restaurant, DmRestaurants.statement_parts.
    cbv beta iota; rewrite type2_statement_first_write; [reflexivity|].
    now apply filter_nil_iff.
  - unfold DmProducts.insert_product, DmProducts.statement_parts.
    cbv beta iota; rewrite type2_statement_first_write; [reflexivity|].
    now apply filter_nil_iff.
Qed.

Lemma type2_first_write_adds_open_row_witness :
  rows (DmRestaurants.insert_restaurant (cafe "Cafe A" 1) (mk_table [] 0)) =
  [cafe_row 1 "Cafe A" (day_at 1) open_ended].
Proof.
  apply (proj1 type2_first_write_adds_open_row (cafe "Cafe A" 1)
           (mk_table [] 0)).
  intros r [].
Defined.

(** X9. A write that repeats the stored payload changes no row: when the
    key has an open row and the rows with the greatest id of the key carry
    the same name (for a product: the same name, price and restaurant), the
    rows after the statement are the rows before it. *)
Theorem type2_same_payload_changes_nothing :
  (forall (restaurant : DmRestaurants.RestaurantObj)
          (t : table DmRestaurants.DmRestaurant),
     existsb (fun r => sql_eq (DmRestaurants.restaurant_id r)
                         (DmRestaurants.object_id restaurant) &&
                       datetime_eqb (DmRestaurants.active_to r) open_ended)
             (rows t) = true ->
     (forall r, In r (rows t) ->
        latest DmRestaurants.dr_id
          (fun r => sql_eq (DmRestaurants.restaurant_id r)
                      (DmRestaurants.object_id restaurant)) (rows t) =
        Some (DmRestaurants.dr_id r) ->
        DmRestaurants.restaurant_name r = DmRestaurants.name restaurant) ->
     rows (DmRestaurants.insert_restaurant restaurant t) = rows t) /\
  (forall (product : DmProducts.ProductObj) (t : table DmProducts.DmProduct),
     existsb (fun p => String.eqb (DmProducts.dp_product_id p)
                         (DmProducts.product_id product) &&
                       datetime_eqb (DmProducts.active_to p) open_ended)
             (rows t) = true ->
     (forall p, In p (rows t) ->
        latest DmProducts.dp_id
          (fun p => String.eqb (DmProducts.dp_product_id p)
                      (DmProducts.product_id product)) (rows t) =
        Some (DmProducts.dp_id p) ->
        DmProducts.product_name p = DmProducts.name product /\
        Qeq_bool (DmProducts.product_price p) (DmProducts.price product) = true /\
        DmProducts.dp_restaurant_id p = DmProducts.restaurant_fk product) ->
     rows (DmProducts.insert_product product t) = rows t).
Proof.
  split; intros o t Ho Hl.
  - unfold DmRestaurants.insert_restaurant, DmRestaurants.statement_parts.
    cbv beta iota; apply type2_statement_same_payload; [exact Ho|].
    intros i r Hi Hr Hid; subst i.
    rewrite (Hl r Hr Hi), String.eqb_refl; reflexivity.
  - unfold DmProducts.insert_product, DmProducts.statement_parts.
    cbv beta iota; apply type2_statement_same_payload; [exact Ho|].
    intros i p Hi Hp Hid; subst i.
    destruct (Hl p Hp Hi) as (-> & -> & ->).
    now rewrite String.eqb_refl, Z.eqb_refl.
Qed.

Lemma type2_same_payload_changes_nothing_witness :
  rows (DmRestaurants.insert_restaurant (cafe "Cafe A" 2)
          (mk_table [cafe_row 1 "Cafe A" (day_at 1) open_ended] 1)) =
  [cafe_row 1 "Cafe A" (day_at 1) open_ended].
Proof.
  apply (proj1 type2_same_payload_changes_nothing (cafe "Cafe A" 2)
           (mk_table [cafe_row 1 "Cafe A" (day_at 1) open_ended] 1)).
  - reflexivity.
  - intros r [<-|[]] _; reflexivity.
Defined.

(** X10. No write removes a row or rewrites its history: after
    [insert_restaurant] (and [insert_product]) the rows written before are
    there in their order with their id, key, payload and [active_from] —
    only [active_to] may differ — and at most one row is added after them. *)
Theorem type2_write_keeps_history :
  (forall (restaurant : DmRestaurants.RestaurantObj)
          (t : table DmRestaurants.DmRestaurant),
     exists added,
       map (fun r => (DmRestaurants.dr_id r, DmRestaurants.restaurant_id r,
                      DmRestaurants.restaurant_name r,
                      DmRestaurants.active_from r))
           (rows (DmRestaurants.insert_restaurant restaurant t)) =
       map (fun r => (DmRestaurants.dr_id r, DmRestaurants.restaurant_id r,
                      DmRestaurants.restaurant_name r,
                      DmRestaurants.active_from r)) (rows t) ++ added /\
       (length added <= 1)%nat) /\
  (forall (product : DmProducts.ProductObj) (t : table DmProducts.DmProduct),
     exists added,
       map (fun p => (DmProducts.dp_id p, DmProducts.dp_product_id p,
                      DmProducts.product_name p, DmProducts.product_price p,
                      DmProducts.dp_restaurant_id p, DmProducts.active_from p))
           (rows (DmProducts.insert_product product t)) =
       map (fun p => (DmProducts.dp_id p, DmProducts.dp_product_id p,
                      DmProducts.product_name p, DmProducts.product_price p,
                      DmProducts.dp_restaurant_id p, DmProducts.active_from p))
           (rows t) ++ added /\
       (length added <= 1)%nat).
Proof.
  split; intros o t.
  - unfold DmRestaurants.insert_restaurant, DmRestaurants.statement_parts.
    cbv beta iota; apply type2_statement_cols; reflexivity.
  - unfold DmProducts.insert_product, DmProducts.statement_parts.
    cbv beta iota; apply type2_statement_cols; reflexivity.
Qed.

(** X11. A restaurant (a product) with at most one open row has at most
    one open row after any write of any key, provided the record written
    is not dated at the open-end sentinel 2099-12-31 00:00:00. *)
Theorem type2_write_keeps_one_open_row :
  (forall (restaurant : DmRestaurants.RestaurantObj)
          (t : table DmRestaurants.DmRestaurant) (rid : string),
     DmRestaurants.update_ts restaurant <> open_ended ->
     (length (DmRestaurants.open_rows rid t) <= 1)%nat ->
     (length (DmRestaurants.open_rows rid
                (DmRestaurants.insert_restaurant restaurant t)) <= 1)%nat) /\
  (forall (product : DmProducts.ProductObj) (t : table DmProducts.DmProduct)
          (pid : string),
     DmProducts.update_ts product <> open_ended ->
     (length (open_product_rows pid t) <= 1)%nat ->
     (length (open_product_rows pid (DmProducts.insert_product product t)) <= 1)%nat).
Proof.
  split; intros o t k Hts Hl.
  - unfold DmRestaurants.open_rows in *.
    unfold DmRestaurants.insert_restaurant, DmRestaurants.statement_parts.
    cbv beta iota.
    apply (type2_statement_open_rows DmRestaurants.dr_id _ _ _ _ _
             (fun r => sql_eq (DmRestaurants.restaurant_id r) (Some k)));
      cbn [DmRestaurants.active_to DmRestaurants.restaurant_id]; try assumption.
    + intros r; now apply datetime_eqb_neq.
    + destruct (DmRestaurants.object_id o) as [s|]; [|discriminate].
      simpl; intros Hs; apply String.eqb_eq in Hs; now subst s.
  - unfold open_product_rows in *.
    unfold DmProducts.insert_product, DmProducts.statement_parts.
    cbv beta iota.
    apply (type2_statement_open_rows DmProducts.dp_id _ _ _ _ _
             (fun p => String.eqb (DmProducts.dp_product_id p) k));
      cbn [DmProducts.active_to DmProducts.dp_product_id]; try assumption.
    + intros p; now apply datetime_eqb_neq.
    + intros Hs; apply String.eqb_eq in Hs; now subst k.
Qed.

Lemma type2_write_keeps_one_open_row_witness :
  (length (DmRestaurants.open_rows "r1"
             (DmRestaurants.insert_restaurant (cafe "Cafe B" 2)
                (mk_table [cafe_row 1 "Cafe A" (day_at 1) open_ended] 1))) <= 1)%nat.
Proof.
  apply (proj1 type2_write_keeps_one_open_row (cafe "Cafe B" 2)
           (mk_table [cafe_row 1 "Cafe A" (day_at 1) open_ended] 1) "r1").
  - discriminate.
  - simpl; lia.
Defined.

(** ** [lib/connect.py]: how the scopes of a run end

    [with origin.connection() as source, dest.connection() as target:]
    leaves the destination scope first and the source scope after it. For
    a PostgreSQL source the end of the scope is a commit, which is one more
    call that can fail — after the destination has committed. *)

Lemma connect_start_ok {S T} (fails : nat -> bool) (src : S) (d : T)
  (w0 : world S T) :
  connect fails (start src d) = (Ok tt, w0) -> w0 = mk_world src d d 1.
Proof. intros H; apply db_call_ok in H; destruct H as [_ [= <-]]; reflexivity. Qed.

Lemma with_connections_source_commit_fails {S T A} (fails : nat -> bool)
  (body : M S T A) (src : S) (d : T) (a : A) (w0 w1 : world S T) :
  connect fails (start src d) = (Ok tt, w0) ->
  target_connection fails body w0 = (Ok a, w1) ->
  fails (steps w1) = true ->
  with_connections fails body (start src d) =
  (Raise (DatabaseError (steps w1)),
   mk_world (source w1) (committed w1) (working w1) (Datatypes.S (steps w1))).
Proof.
  intros Hc Ht Hf; unfold with_connections, source_connection.
  rewrite Hc, Ht; unfold source_commit, db_call; now rewrite Hf.
Qed.

Lemma target_connection_effect {S T A} (fails : nat -> bool) (body : M S T A)
  (eff : S -> T -> option T) (src : S) (d : T) (n : nat) (a : A)
  (w1 : world S T) :
  body_effect src body eff ->
  target_connection fails body (mk_world src d d n) = (Ok a, w1) ->
  eff src d = Some (committed w1).
Proof.
  intros He Ht; apply target_connection_ok in Ht.
  destruct Ht as (w2 & w3 & Hc & Hb & Hcm & _ & _).
  apply db_call_ok in Hc; destruct Hc as [_ [= <-]].
  apply He in Hb; [|reflexivity]; simpl in Hb; congruence.
Qed.

(** X12. A run between two PostgreSQL connections can raise after it has
    written: when the destination scope has returned — batch and watermark
    committed — and the commit that ends the source scope fails, the run
    raises that failure, and the durable destination is the complete result
    of the run, not the one before it. *)
Theorem run_raises_after_destination_commit :
  forall (S Row Obj Settings : Type) (WF_KEY : string) (BATCH_LIMIT : nat)
         (prepare : dict -> dict) (Settings_init : dict -> option Settings)
         (Settings_dict : Settings -> dict)
         (list_objs : Settings -> nat -> S -> list Obj)
         (insert_obj : Obj -> table Row -> table Row)
         (Obj_lt : Obj -> Obj -> bool) (Obj_dict : Obj -> dict)
         (fails : nat -> bool) (src : S) (d : dest Row)
         (w0 w1 : world S (dest Row)),
    connect fails (start src d) = (Ok tt, w0) ->
    target_connection fails
      (loader_body WF_KEY BATCH_LIMIT prepare Settings_init Settings_dict
         list_objs insert_obj Obj_lt Obj_dict fails) w0 = (Ok tt, w1) ->
    fails (steps w1) = true ->
    exists w',
      loader_run WF_KEY BATCH_LIMIT prepare Settings_init Settings_dict
        list_objs insert_obj Obj_lt Obj_dict fails (start src d) =
      (Raise (DatabaseError (steps w1)), w') /\
      after_run WF_KEY BATCH_LIMIT prepare Settings_init Settings_dict
        list_objs insert_obj Obj_lt Obj_dict src d = Some (committed w').
Proof.
  intros S Row Obj Settings WF_KEY BATCH_LIMIT prepare Settings_init
    Settings_dict list_objs insert_obj Obj_lt Obj_dict fails src d w0 w1
    Hc Ht Hf.
  eexists; split.
  - unfold loader_run; eapply with_connections_source_commit_fails; eassumption.
  - cbn [committed]; apply connect_start_ok in Hc; subst w0.
    eapply target_connection_effect; [apply loader_body_effect|exact Ht].
Qed.

(** The commit of the source connection is the ninth call of a run that
    writes two orders. *)
Definition source_commit_fails : nat -> bool := fun n => Nat.eqb n 8.

(** The run of [two_orders_source] when the destination scope has ended. *)
Definition destination_scope_ended :
  world DmOrders.Source (dest DmOrders.DmOrder) :=
  snd (target_connection source_commit_fails
         (DmOrders.run_body source_commit_fails)
         (mk_world two_orders_source empty_dest empty_dest 1)).

Lemma run_raises_after_destination_commit_witness :
  exists w',
    loader_run DmOrders.WF_KEY DmOrders.BATCH_LIMIT (fun d => d)
      DmOrders.OrderSettings_init DmOrders.OrderSettings_dict
      DmOrders.list_orders DmOrders.insert_order DmOrders.OrderObj_lt
      DmOrders.OrderObj_dict source_commit_fails
      (start two_orders_source empty_dest) =
    (Raise (DatabaseError (steps destination_scope_ended)), w') /\
    after_run DmOrders.WF_KEY DmOrders.BATCH_LIMIT (fun d => d)
      DmOrders.OrderSettings_init DmOrders.OrderSettings_dict
      DmOrders.list_orders DmOrders.insert_order DmOrders.OrderObj_lt
      DmOrders.OrderObj_dict two_orders_source empty_dest =
    Some (committed w').
Proof.
  apply (@run_raises_after_destination_commit _ _ _ _ DmOrders.WF_KEY
           DmOrders.BATCH_LIMIT (fun d => d) DmOrders.OrderSettings_init
           DmOrders.OrderSettings_dict DmOrders.list_orders
           DmOrders.insert_order DmOrders.OrderObj_lt DmOrders.OrderObj_dict
           source_commit_fails two_orders_source empty_dest
           (mk_world two_orders_source empty_dest empty_dest 1)
           destination_scope_ended).
  - reflexivity.
  - vm_compute; reflexivity.
  - vm_compute; reflexivity.
Defined.

Example source_commit_is_the_ninth_call :
  steps destination_scope_ended = 8%nat /\
  fst (DmOrders.run source_commit_fails (start two_orders_source empty_dest)) =
  Raise (DatabaseError 8).
Proof. split; vm_compute; reflexivity. Qed.

(** [MongoConnect.connection] and [HttpConnect.connection]:
<<
    conn = self.client()
    try:
        yield conn
    except Exception as e:
        raise e
    finally:
        conn.close()
>>
    The end of the scope commits nothing and rolls nothing back. *)
Definition origin_connection {S T A} (fails : nat -> bool) (body : M S T A) :
  M S T A :=
  fun w =>
    match connect fails w with
    | (Raise e, w0) => (Raise e, w0)
    | (Ok _, w0) => body w0
    end.

Lemma origin_connection_outcome {S T A} (fails : nat -> bool) (body : M S T A)
  (eff : S -> T -> option T) (src : S) (d : T) (r : result A) (w' : world S T) :
  keeps_committed body -> body_effect src body eff ->
  origin_connection fails (target_connection fails body) (start src d) = (r, w') ->
  match r with
  | Ok _ => eff src d = Some (committed w')
  | Raise _ => committed w' = d
  end.
Proof.
  intros Hk He; unfold origin_connection.
  destruct (connect fails (start src d)) as [[[]|e0] w0] eqn:Ec.
  - apply connect_start_ok in Ec; subst w0.
    destruct r as [a|e]; intros Ht.
    + eapply target_connection_effect; eassumption.
    + apply target_connection_raise in Ht; assumption.
  - unfold connect, db_call in Ec; simpl in Ec.
    destruct (fails _); inversion Ec; subst.
    intros [= <- <-]; reflexivity.
Qed.

(** *** [dwh/stg/stg_2/order_system_orders_loader.py]: writer and run *)

Module StgOrdersLoader.

(** A row of [stg.ordersystem_orders]. *)
Record StgOrder := mk_StgOrder {
  so_id : Z;
  so_object_id : string;
  so_object_value : pyval;
  so_update_ts : datetime
}.

(** [order.json(by_alias=True)]: the fields under their aliases, sent
    through [json2str] by the model configuration. *)
Definition OrderObj_json (order : StgOrders.OrderObj) : pyval :=
  json2str
    (PyDict (("_id", PyObjectId (StgOrders.object_id order)) ::
             ("update_ts", PyDatetime (StgOrders.update_ts order)) ::
             StgOrders.extra order)).

Definition insert_order (order : StgOrders.OrderObj) (t : table StgOrder) :
  table StgOrder :=
  insert_on_conflict
    (fun r => String.eqb (so_object_id r) (oid_str (StgOrders.object_id order)))
    (fun r => mk_StgOrder (so_id r) (so_object_id r) (OrderObj_json order)
                (StgOrders.update_ts order))
    (fun i => mk_StgOrder i (oid_str (StgOrders.object_id order))
                (OrderObj_json order) (StgOrders.update_ts order))
    t.

Definition BATCH_LIMIT : nat := 5000.

Definition run_body (start_date : datetime) (fails : nat -> bool) :
  M StgOrders.Source (dest StgOrder) unit :=
  loader_body StgOrders.WF_KEY BATCH_LIMIT (StgOrders.with_start_date start_date)
    StgOrders.OrderSettings_init StgOrders.OrderSettings_dict
    StgOrders.list_orders insert_order StgOrders.OrderObj_lt
    StgOrders.OrderObj_dict fails.

(** [OrdersLoader.run(start_date)]. *)
Definition run (start_date : datetime) (fails : nat -> bool) :
  M StgOrders.Source (dest StgOrder) unit :=
  origin_connection fails (target_connection fails (run_body start_date fails)).

(** What a run that returns has committed. *)
Definition loaded (start_date : datetime) (src : StgOrders.Source)
  (d : dest StgOrder) : option (dest StgOrder) :=
  after_run StgOrders.WF_KEY BATCH_LIMIT (StgOrders.with_start_date start_date)
    StgOrders.OrderSettings_init StgOrders.OrderSettings_dict
    StgOrders.list_orders insert_order StgOrders.OrderObj_lt
    StgOrders.OrderObj_dict src d.

End StgOrdersLoader.

(** *** [dwh/stg/stg_3/delivery_system_deliveries_loader.py]: the run *)

Module DeliveriesLoader.

Definition run_body (start_date : datetime) (fails : nat -> bool) :
  M Deliveries.Source (dest Deliveries.StgDelivery) unit :=
  loader_body Deliveries.WF_KEY Deliveries.BATCH_LIMIT
    (Deliveries.with_start_date start_date) Deliveries.DeliverySettings_init
    Deliveries.DeliverySettings_dict Deliveries.list_deliveries
    Deliveries.insert_delivery Deliveries.DeliveryObj_lt
    Deliveries.DeliveryObj_dict fails.

(** [DeliveriesLoader.run(start_date)]. *)
Definition run (start_date : datetime) (fails : nat -> bool) :
  M Deliveries.Source (dest Deliveries.StgDelivery) unit :=
  origin_connection fails (target_connection fails (run_body start_date fails)).

Definition loaded (start_date : datetime) (src : Deliveries.Source)
  (d : dest Deliveries.StgDelivery) : option (dest Deliveries.StgDelivery) :=
  after_run Deliveries.WF_KEY Deliveries.BATCH_LIMIT
    (Deliveries.with_start_date start_date) Deliveries.DeliverySettings_init
    Deliveries.DeliverySettings_dict Deliveries.list_deliveries
    Deliveries.insert_delivery Deliveries.DeliveryObj_lt
    Deliveries.DeliveryObj_dict src d.

End DeliveriesLoader.

(** X13. The two loaders that read an origin system (the document store,
    the delivery service) end their source scope without a commit: a run
    that raises — at whatever call — has left the durable destination as it
    was, and a run that returns has committed the whole batch with its
    watermark. *)
Theorem origin_run_raises_only_before_commit :
  (forall start_date fails src d r w',
     StgOrdersLoader.run start_date fails (start src d) = (r, w') ->
     match r with
     | Ok _ => StgOrdersLoader.loaded start_date src d = Some (committed w')
     | Raise _ => committed w' = d
     end) /\
  (forall start_date fails src d r w',
     DeliveriesLoader.run start_date fails (start src d) = (r, w') ->
     match r with
     | Ok _ => DeliveriesLoader.loaded start_date src d = Some (committed w')
     | Raise _ => committed w' = d
     end).
Proof.
  split; intros start_date fails src d r w'.
  - apply origin_connection_outcome;
      [apply loader_body_keeps|apply loader_body_effect].
  - apply origin_connection_outcome;
      [apply loader_body_keeps|apply loader_body_effect].
Qed.

(** The third call of a run is the read of the checkpoint. *)
Definition checkpoint_read_fails : nat -> bool := fun n => Nat.eqb n 2.

Lemma origin_run_raises_only_before_commit_witness :
  committed (snd (StgOrdersLoader.run (day_at 1) checkpoint_read_fails
                    (start three_documents empty_dest))) = empty_dest.
Proof.
  apply (proj1 origin_run_raises_only_before_commit (day_at 1)
           checkpoint_read_fails three_documents empty_dest
           (Raise (DatabaseError 2))).
  vm_compute; reflexivity.
Defined.

(** *** The [start_date] of the origin loaders *)

Lemma stored_setting_advance {Row Settings} (Settings_dict : Settings -> dict)
  (wf_key : string) (st : Settings) (d : dest Row) (items : dict) :
  json2str (PyModel (Settings_dict st)) = PyDict items ->
  exists i,
    stored_setting wf_key (advance Settings_dict wf_key st d) =
    Some (mk_EtlSetting i wf_key items).
Proof.
  intros Hj; unfold stored_setting, advance; cbn [srv_wf_settings].
  rewrite select_upsert_setting, Hj; eexists; reflexivity.
Qed.

Lemma after_run_prepare {S Row Obj Settings} (WF_KEY : string)
  (BATCH_LIMIT : nat) (prepare1 prepare2 : dict -> dict)
  (Settings_init : dict -> option Settings) (Settings_dict : Settings -> dict)
  (list_objs : Settings -> nat -> S -> list Obj)
  (insert_obj : Obj -> table Row -> table Row) (Obj_lt : Obj -> Obj -> bool)
  (Obj_dict : Obj -> dict) (src : S) (d : dest Row) (e : EtlSetting) :
  stored_setting WF_KEY d = Some e ->
  prepare1 (workflow_settings e) = prepare2 (workflow_settings e) ->
  after_run WF_KEY BATCH_LIMIT prepare1 Settings_init Settings_dict list_objs
    insert_obj Obj_lt Obj_dict src d =
  after_run WF_KEY BATCH_LIMIT prepare2 Settings_init Settings_dict list_objs
    insert_obj Obj_lt Obj_dict src d.
Proof. intros He Hp; unfold after_run; now rewrite He, Hp. Qed.

Lemma Deliveries_blob (st : Deliveries.DeliverySettings) :
  json2str (PyModel (Deliveries.DeliverySettings_dict st)) =
  PyDict [("last_loaded_oid", PyStr (Deliveries.last_loaded_oid st));
          ("last_loaded_ts",
           PyStr (strftime_datetime (Deliveries.last_loaded_ts st)))].
Proof. reflexivity. Qed.

(** X14. The [start_date] of the two origin loaders counts only until a
    checkpoint is stored: once a run has returned with something written,
    every later run — over any state of the source — does the same whatever
    [start_date] it is given. *)
Theorem start_date_counts_until_first_checkpoint :
  (forall start_date later other src d d' src',
     StgOrdersLoader.loaded start_date src d = Some d' -> d' <> d ->
     StgOrdersLoader.loaded later src' d' =
     StgOrdersLoader.loaded other src' d') /\
  (forall start_date later other src d d' src',
     DeliveriesLoader.loaded start_date src d = Some d' -> d' <> d ->
     DeliveriesLoader.loaded later src' d' =
     DeliveriesLoader.loaded other src' d').
Proof.
  split; intros start_date later other src d d' src' Hl Hd.
  - apply after_run_cases in Hl; destruct Hl as (st & _ & Hq).
    destruct (StgOrders.list_orders st StgOrdersLoader.BATCH_LIMIT src);
      [contradiction|].
    destruct Hq as (m & st' & _ & _ & ->).
    destruct (stored_setting_advance StgOrders.OrderSettings_dict
                StgOrders.WF_KEY st'
                (write_all StgOrdersLoader.insert_order (o :: l) d)
                (StgOrders_blob st')) as [i Hs].
    eapply after_run_prepare; [exact Hs|reflexivity].
  - apply after_run_cases in Hl; destruct Hl as (st & _ & Hq).
    destruct (Deliveries.list_deliveries st Deliveries.BATCH_LIMIT src);
      [contradiction|].
    destruct Hq as (m & st' & _ & _ & ->).
    destruct (stored_setting_advance Deliveries.DeliverySettings_dict
                Deliveries.WF_KEY st'
                (write_all Deliveries.insert_delivery (d0 :: l) d)
                (Deliveries_blob st')) as [i Hs].
    eapply after_run_prepare; [exact Hs|reflexivity].
Qed.

Definition new_year_eve : datetime := mk_datetime 2021 12 31 0 0 0 0.

(** The staging destination after a first run over [three_documents]. *)
Definition stg_orders_after_first_run : dest StgOrdersLoader.StgOrder :=
  match StgOrdersLoader.loaded new_year_eve three_documents empty_dest with
  | Some d => d
  | None => empty_dest
  end.

Lemma start_date_counts_until_first_checkpoint_witness :
  StgOrdersLoader.loaded (day_at 2) three_documents stg_orders_after_first_run =
  StgOrdersLoader.loaded (day_at 3) three_documents stg_orders_after_first_run.
Proof.
  apply (proj1 start_date_counts_until_first_checkpoint new_year_eve
           (day_at 2) (day_at 3) three_documents empty_dest
           stg_orders_after_first_run three_documents).
  - vm_compute; reflexivity.
  - intros H.
    apply (f_equal (fun d => length (rows (dest_table d)))) in H.
    vm_compute in H; discriminate H.
Defined.

(** ** Progress of the keyset readers: nothing is skipped *)

Lemma NoDup_map_inj {A B} (f : A -> B) (l : list A) (x y : A) :
  NoDup (map f l) -> In x l -> In y l -> f x = f y -> x = y.
Proof.
  induction l as [|a l IH]; simpl; [intros _ []|].
  intros Hn Hx Hy E; inversion Hn as [|? ? Ha Hl]; subst.
  destruct Hx as [->|Hx], Hy as [->|Hy]; auto.
  - exfalso; apply Ha; rewrite E; now apply in_map.
  - exfalso; apply Ha; rewrite <- E; now apply in_map.
Qed.

Lemma In_firstn_or_skipn {A} (j : nat) (l : list A) (c : A) :
  In c l -> In c (firstn j l) \/ In c (skipn j l).
Proof. rewrite <- (firstn_skipn j l) at 1; apply in_app_or. Qed.

Lemma firstn_nil_inv {A} (n : nat) (l : list A) :
  firstn (Datatypes.S n) l = [] -> l = [].
Proof. destruct l; [reflexivity|discriminate]. Qed.

Lemma ltb_Z (a b : Z) : ltb a b = true <-> a < b.
Proof.
  unfold ltb; simpl; rewrite <- Z.compare_lt_iff.
  destruct (a ?= b); split; congruence.
Qed.

Lemma leb_Z (a b : Z) : leb a b = true <-> a <= b.
Proof.
  unfold leb; simpl; unfold Z.le.
  destruct (a ?= b); split; congruence.
Qed.

Section Progress.
Context {R K : Type} `{Ord K}.
Variable key : R -> K.

(** In a sorted list, what a page leaves behind is not below the page. *)
Lemma sorted_prefix_le (l : list R) :
  StronglySorted (key_le key) l ->
  forall j p c, In p (firstn j l) -> In c (skipn j l) ->
                leb (key p) (key c) = true.
Proof.
  induction 1 as [|x l Hs IH Hx]; intros [|j] p c; simpl; try tauto.
  intros [<-|Hp] Hc.
  - rewrite Forall_forall in Hx; apply Hx; now apply In_skipn in Hc.
  - now apply (IH j).
Qed.

Lemma page_or_later (l : list R) (j : nat) (c m : R) :
  StronglySorted (key_le key) l -> In c l -> In m (firstn j l) ->
  In c (firstn j l) \/ leb (key m) (key c) = true.
Proof.
  intros Hs Hc Hm; destruct (In_firstn_or_skipn j l c Hc) as [Hp|Hr]; [auto|].
  right; now apply (sorted_prefix_le Hs j).
Qed.

Lemma leb_ltb_trans (x y z : K) :
  leb x y = true -> ltb y z = true -> ltb x z = true.
Proof.
  intros Hxy Hyz; destruct (ltb x z) eqn:E; [reflexivity|].
  assert (Hzx : leb z x = true) by now rewrite leb_ltb, E.
  assert (Hzy : leb z y = true) by (eapply leb_trans; eassumption).
  rewrite leb_ltb, Hyz in Hzy; discriminate.
Qed.

Lemma leb_neq_ltb (x y : K) : leb x y = true -> x <> y -> ltb x y = true.
Proof.
  intros Hxy Hn; destruct (ltb x y) eqn:E; [reflexivity|].
  exfalso; apply Hn, leb_antisym; [assumption|now rewrite leb_ltb, E].
Qed.

End Progress.

(** The rows of a batch are in the table once the batch is written. *)
Section WrittenRows.
Context {Obj Row : Type}.
Variable conflict : Obj -> Row -> bool.
Variable update : Obj -> Row -> Row.
Variable new : Obj -> Z -> Row.
Hypothesis conflict_new : forall o i, conflict o (new o i) = true.
Hypothesis conflict_update :
  forall o o' r, conflict o r = true -> conflict o (update o' r) = true.

Let insert (o : Obj) (t : table Row) : table Row :=
  insert_on_conflict (conflict o) (update o) (new o) t.

Lemma written_row_stays (l : list Obj) (t : table Row) (o : Obj) :
  existsb (conflict o) (rows t) = true ->
  existsb (conflict o) (rows (fold_left (fun t o => insert o t) l t)) = true.
Proof.
  revert t; induction l as [|o' l IH]; intros t Ht; simpl; [assumption|].
  apply IH; unfold insert, insert_on_conflict; cbn [rows].
  apply existsb_upsert_rows_mono; auto.
Qed.

Lemma written_row_found (l : list Obj) (t : table Row) (o : Obj) :
  In o l ->
  existsb (conflict o) (rows (fold_left (fun t o => insert o t) l t)) = true.
Proof.
  revert t; induction l as [|o' l IH]; intros t; simpl; [intros []|].
  intros [->|Hin]; [|now apply IH].
  apply written_row_stays; unfold insert, insert_on_conflict; cbn [rows].
  apply existsb_upsert_rows; auto.
Qed.

End WrittenRows.

(** *** [dwh/dds/dm_couriers_loader.py] *)

(** What a run of the couriers loader that returns has committed. *)
Definition DmCouriers_loaded (src : DmCouriers.Source)
  (d : dest DmCouriers.DmCourier) : option (dest DmCouriers.DmCourier) :=
  after_run DmCouriers.WF_KEY DmCouriers.BATCH_LIMIT (fun kw => kw)
    DmCouriers.CourierSettings_init DmCouriers.CourierSettings_dict
    DmCouriers.list_couriers DmCouriers.insert_courier DmCouriers.CourierObj_lt
    DmCouriers.CourierObj_dict src d.

Lemma DmCouriers_loaded_cases (src : DmCouriers.Source)
  (d d' : dest DmCouriers.DmCourier) (st : DmCouriers.CourierSettings) :
  DmCouriers.stored_checkpoint d = Some st ->
  DmCouriers_loaded src d = Some d' ->
  let page := DmCouriers.list_couriers st DmCouriers.BATCH_LIMIT src in
  (page = [] /\ d' = d) \/
  (exists m, In m page /\
             Forall (fun c => DmCouriers.id c <= DmCouriers.id m) page /\
             dest_table d' =
               fold_left (fun t c => DmCouriers.insert_courier c t) page
                 (dest_table d) /\
             DmCouriers.stored_checkpoint d' =
               Some (DmCouriers.mk_CourierSettings (DmCouriers.id m))).
Proof.
  intros Hc Hl; apply after_run_cases in Hl; destruct Hl as (st0 & Hc0 & Hq).
  unfold DmCouriers.stored_checkpoint in Hc.
  assert (st0 = st) by congruence; subst st0; cbv zeta.
  destruct (DmCouriers.list_couriers st DmCouriers.BATCH_LIMIT src)
    as [|o l] eqn:Ep; [auto|right].
  destruct Hq as (m & st' & Hm & Hs & ->); exists m.
  destruct (py_max_spec DmCouriers.id _ Hm) as [Hin Hall].
  injection Hs as <-.
  repeat split.
  - exact Hin.
  - eapply Forall_impl; [|exact Hall]; intros c; apply leb_Z.
  - unfold advance; cbn [dest_table]; apply write_all_table.
  - unfold DmCouriers.stored_checkpoint; rewrite checkpoint_advance.
    apply DmCouriers_round_trip.
Qed.

(** X15. No courier is skipped: after a run of the couriers loader that
    returns, every row of the staging table (ids without repeats) that was
    beyond the stored watermark either has its row in [dds.dm_couriers] or
    is still beyond the new watermark, where the next run reads it. *)
Theorem no_courier_is_skipped :
  forall (src : DmCouriers.Source) (d d' : dest DmCouriers.DmCourier)
         (st : DmCouriers.CourierSettings) (c : DmCouriers.CourierObj),
    NoDup (map DmCouriers.id src) ->
    DmCouriers.stored_checkpoint d = Some st ->
    DmCouriers_loaded src d = Some d' ->
    In c src -> DmCouriers.last_loaded_id st < DmCouriers.id c ->
    existsb (fun r => String.eqb (DmCouriers.courier_id r)
                        (DmCouriers.object_id c))
            (rows (dest_table d')) = true \/
    exists st', DmCouriers.stored_checkpoint d' = Some st' /\
                DmCouriers.last_loaded_id st' < DmCouriers.id c.
Proof.
  intros src d d' st c Hn Hc Hl Hin Hwm.
  set (sorted := order_by DmCouriers.id
                   (filter (fun c => ltb (DmCouriers.last_loaded_id st)
                                         (DmCouriers.id c)) src)).
  assert (Hcs : In c sorted).
  { apply order_by_In, filter_In; split; [assumption|now apply ltb_Z]. }
  assert (Hsub : forall x, In x sorted -> In x src).
  { intros x Hx; apply order_by_In, filter_In in Hx; tauto. }
  destruct (@DmCouriers_loaded_cases src d d' st Hc Hl) as [[He _]|(m & Hm & _ & Ht & Hs)].
  - unfold DmCouriers.list_couriers in He; fold sorted in He.
    apply firstn_nil_inv in He; rewrite He in Hcs; destruct Hcs.
  - unfold DmCouriers.list_couriers in Hm, Ht; fold sorted in Hm, Ht.
    assert (Hfound : In c (firstn DmCouriers.BATCH_LIMIT sorted) ->
                     existsb (fun r => String.eqb (DmCouriers.courier_id r)
                                         (DmCouriers.object_id c))
                             (rows (dest_table d')) = true).
    { intros Hp; rewrite Ht.
      apply (written_row_found
               (fun c r => String.eqb (DmCouriers.courier_id r)
                             (DmCouriers.object_id c))
               (fun c r => DmCouriers.mk_DmCourier (DmCouriers.dmc_id r)
                             (DmCouriers.courier_id r) (DmCouriers.name c))
               (fun c i => DmCouriers.mk_DmCourier i (DmCouriers.object_id c)
                             (DmCouriers.name c)));
        cbn; auto using String.eqb_refl. }
    destruct (@page_or_later _ _ _ DmCouriers.id sorted DmCouriers.BATCH_LIMIT
                c m (order_by_strongly_sorted _ _) Hcs Hm) as [Hp|Hle];
      [left; auto|].
    apply leb_Z in Hle.
    destruct (Z.eq_dec (DmCouriers.id m) (DmCouriers.id c)) as [E|E].
    + left; apply Hfound.
      rewrite <- (@NoDup_map_inj _ _ DmCouriers.id src m c Hn); auto.
      apply Hsub; now apply In_firstn in Hm.
    + right; eexists; split; [exact Hs|simpl; lia].
Qed.

Lemma no_courier_is_skipped_witness :
  existsb (fun r => String.eqb (DmCouriers.courier_id r) "03")
          (rows (dest_table
                   (committed (snd (DmCouriers.run no_fault
                                      (start three_couriers empty_dest)))))) = true \/
  exists st',
    DmCouriers.stored_checkpoint
      (committed (snd (DmCouriers.run no_fault
                         (start three_couriers empty_dest)))) = Some st' /\
    DmCouriers.last_loaded_id st' < 3.
Proof.
  apply (@no_courier_is_skipped three_couriers empty_dest
           (committed (snd (DmCouriers.run no_fault
                              (start three_couriers empty_dest))))
           (DmCouriers.mk_CourierSettings (-1)) (courier_example 3)).
  - vm_compute; repeat constructor; simpl; intuition discriminate.
  - reflexivity.
  - vm_compute; reflexivity.
  - right; left; reflexivity.
  - simpl; lia.
Defined.

(** X16. The watermark of the couriers loader never moves back: after a
    run that returns it is the old one when the batch was empty, and a
    greater one — the greatest id of the batch — when it was not. *)
Theorem courier_watermark_moves_forward :
  forall (src : DmCouriers.Source) (d d' : dest DmCouriers.DmCourier)
         (st : DmCouriers.CourierSettings),
    DmCouriers.stored_checkpoint d = Some st ->
    DmCouriers_loaded src d = Some d' ->
    match DmCouriers.list_couriers st DmCouriers.BATCH_LIMIT src with
    | [] => DmCouriers.stored_checkpoint d' = Some st
    | page =>
        exists st', DmCouriers.stored_checkpoint d' = Some st' /\
                    DmCouriers.last_loaded_id st < DmCouriers.last_loaded_id st' /\
                    Forall (fun c => DmCouriers.id c <=
                                     DmCouriers.last_loaded_id st') page
    end.
Proof.
  intros src d d' st Hc Hl.
  destruct (@DmCouriers_loaded_cases src d d' st Hc Hl) as [[He ->]|(m & Hm & Hall & _ & Hs)].
  - now rewrite He.
  - destruct (DmCouriers.list_couriers st DmCouriers.BATCH_LIMIT src)
      as [|o l] eqn:Ep; [destruct Hm|].
    eexists; split; [exact Hs|]; split; [|exact Hall].
    rewrite <- Ep in Hm; unfold DmCouriers.list_couriers in Hm.
    apply In_firstn, order_by_In, filter_In in Hm.
    destruct Hm as [_ Hm]; now apply ltb_Z in Hm.
Qed.

Lemma courier_watermark_moves_forward_witness :
  exists st',
    DmCouriers.stored_checkpoint
      (committed (snd (DmCouriers.run no_fault
                         (start three_couriers empty_dest)))) = Some st' /\
    -1 < DmCouriers.last_loaded_id st'.
Proof.
  destruct (@courier_watermark_moves_forward three_couriers empty_dest
              (committed (snd (DmCouriers.run no_fault
                                 (start three_couriers empty_dest))))
              (DmCouriers.mk_CourierSettings (-1)) eq_refl)
    as (st' & Hs & Hlt & _).
  - vm_compute; reflexivity.
  - exists st'; split; [exact Hs|exact Hlt].
Defined.

(** *** [dwh/dds/dm_orders_loader.py]: progress under gaps *)

Lemma whole_seconds_leb (t : datetime) :
  0 <= microsecond t -> leb (whole_seconds t) t = true.
Proof.
  destruct t as [y mo d h mi s us]; unfold leb; simpl; intros Hus.
  rewrite !Z.compare_refl; simpl.
  destruct us; try reflexivity; lia.
Qed.

Lemma leb_pair_fst {A B} `{Ord A} `{Ord B} (a a' : A) (b : B) :
  leb a a' = true -> leb (a, b) (a', b) = true.
Proof.
  unfold leb; simpl; unfold lex; rewrite cmp_refl.
  now destruct (cmp a a').
Qed.

(** A batch cut by the gap filter is still a first part of the sorted rows
    beyond the watermark. *)
Lemma kept_prefix_of_page {A} (ok : A -> bool) (limit : nat) (l : list A) :
  exists j, kept_prefix ok (firstn limit l) = firstn j l.
Proof.
  exists (Nat.min (length (kept_prefix ok (firstn limit l))) limit).
  rewrite <- firstn_firstn; apply kept_prefix_firstn.
Qed.

Lemma DmOrders_list_orders_prefix (st : DmOrders.OrderSettings) (limit : nat)
  (src : DmOrders.Source) :
  exists j,
    DmOrders.list_orders st limit src =
    firstn j
      (order_by DmOrders.OrderObj_key
         (filter (fun r => ltb (DmOrders.last_loaded_ts st,
                                DmOrders.last_loaded_oid st)
                               (DmOrders.OrderObj_key r))
                 (map (DmOrders.joined src) (DmOrders.ordersystem_orders src)))).
Proof.
  unfold DmOrders.list_orders, DmOrders.gap_filter.
  rewrite truncate_at_gap_prefix, DmOrders.select_orders_keyset.
  apply kept_prefix_of_page.
Qed.

Lemma DmOrders_loaded_cases (src : DmOrders.Source)
  (d d' : dest DmOrders.DmOrder) (st : DmOrders.OrderSettings) :
  checkpoint DmOrders.WF_KEY (fun kw => kw) DmOrders.OrderSettings_init d =
    Some st ->
  DmOrders.loaded src d = Some d' ->
  let page := DmOrders.list_orders st DmOrders.BATCH_LIMIT src in
  (page = [] /\ d' = d) \/
  (exists m, In m page /\
             dest_table d' =
               fold_left (fun t o => DmOrders.insert_order o t) page
                 (dest_table d) /\
             (valid_datetime (DmOrders.update_ts m) ->
              checkpoint DmOrders.WF_KEY (fun kw => kw)
                DmOrders.OrderSettings_init d' =
              Some (DmOrders.mk_OrderSettings
                      (whole_seconds (DmOrders.update_ts m))
                      (DmOrders.object_id m)))).
Proof.
  intros Hc Hl; apply after_run_cases in Hl; destruct Hl as (st0 & Hc0 & Hq).
  assert (st0 = st) by congruence; subst st0; cbv zeta.
  destruct (DmOrders.list_orders st DmOrders.BATCH_LIMIT src)
    as [|o l] eqn:Ep; [auto|right].
  destruct Hq as (m & st' & Hm & Hs & ->); exists m.
  destruct (py_max_spec DmOrders.OrderObj_key _ Hm) as [Hin _].
  injection Hs as <-.
  repeat split.
  - exact Hin.
  - unfold advance; cbn [dest_table]; apply write_all_table.
  - intros Hv; rewrite checkpoint_advance.
    exact (DmOrders_round_trip DmOrders.WF_KEY _
             (DmOrders.mk_OrderSettings (DmOrders.update_ts m)
                (DmOrders.object_id m)) Hv).
Qed.

(** X17. No order is lost to a gap or to the batch limit: after a run of
    the orders loader that returns, every staged order (object ids without
    repeats, valid timestamps) that was beyond the stored watermark either
    has its row in [dds.dm_orders] or is still beyond the new watermark —
    so an order that the gap filter refused, and every order after it, is
    read again by the next run. *)
Theorem no_order_is_skipped :
  forall (src : DmOrders.Source) (d d' : dest DmOrders.DmOrder)
         (st : DmOrders.OrderSettings) (oo : DmOrders.StgOrder),
    NoDup (map DmOrders.so_object_id (DmOrders.ordersystem_orders src)) ->
    Forall (fun oo => valid_datetime (DmOrders.so_update_ts oo))
           (DmOrders.ordersystem_orders src) ->
    checkpoint DmOrders.WF_KEY (fun kw => kw) DmOrders.OrderSettings_init d =
      Some st ->
    DmOrders.loaded src d = Some d' ->
    In oo (DmOrders.ordersystem_orders src) ->
    ltb (DmOrders.last_loaded_ts st, DmOrders.last_loaded_oid st)
        (DmOrders.so_update_ts oo, DmOrders.so_object_id oo) = true ->
    existsb (fun r => String.eqb (DmOrders.order_key r)
                        (DmOrders.so_object_id oo))
            (rows (dest_table d')) = true \/
    exists st',
      checkpoint DmOrders.WF_KEY (fun kw => kw) DmOrders.OrderSettings_init d' =
        Some st' /\
      ltb (DmOrders.last_loaded_ts st', DmOrders.last_loaded_oid st')
          (DmOrders.so_update_ts oo, DmOrders.so_object_id oo) = true.
Proof.
  intros src d d' st oo Hn Hv Hc Hl Hin Hwm.
  destruct (@DmOrders_loaded_cases src d d' st Hc Hl)
    as [[_ ->]|(m & Hm & Ht & Hs)]; [right; eauto|].
  destruct (DmOrders_list_orders_prefix st DmOrders.BATCH_LIMIT src) as [j Hj].
  rewrite Hj in Hm, Ht; clear Hj.
  remember (order_by DmOrders.OrderObj_key
              (filter (fun r => ltb (DmOrders.last_loaded_ts st,
                                     DmOrders.last_loaded_oid st)
                                    (DmOrders.OrderObj_key r))
                      (map (DmOrders.joined src)
                         (DmOrders.ordersystem_orders src))))
    as sorted eqn:Es.
  remember (DmOrders.joined src oo) as c eqn:Ec.
  assert (Hkey : DmOrders.OrderObj_key c =
                 (DmOrders.so_update_ts oo, DmOrders.so_object_id oo))
    by now subst c.
  assert (Hcs : In c sorted).
  { subst sorted; apply order_by_In, filter_In.
    split; [subst c; now apply in_map|now rewrite Hkey]. }
  assert (Hsub : forall x, In x sorted ->
            exists a, In a (DmOrders.ordersystem_orders src) /\
                      x = DmOrders.joined src a).
  { subst sorted; intros x Hx.
    apply order_by_In, filter_In in Hx; destruct Hx as [Hx _].
    apply in_map_iff in Hx; destruct Hx as (a & <- & Ha); eauto. }
  assert (Hss : StronglySorted (key_le DmOrders.OrderObj_key) sorted)
    by (subst sorted; apply order_by_strongly_sorted).
  clear Es.
  assert (Hfound : In c (firstn j sorted) ->
                   existsb (fun r => String.eqb (DmOrders.order_key r)
                                       (DmOrders.so_object_id oo))
                           (rows (dest_table d')) = true).
  { intros Hp; rewrite Ht.
    replace (DmOrders.so_object_id oo) with (DmOrders.object_id c)
      by now subst c.
    apply (written_row_found
             (fun o r => String.eqb (DmOrders.order_key r) (DmOrders.object_id o))
             (fun o r => DmOrders.mk_DmOrder (DmOrders.dmo_id r)
                           (DmOrders.order_key r) (DmOrders.final_status o)
                           (DmOrders.user_fk o) (DmOrders.restaurant_fk o)
                           (DmOrders.timestamp_fk o))
             (fun o i => DmOrders.mk_DmOrder i (DmOrders.object_id o)
                           (DmOrders.final_status o) (DmOrders.user_fk o)
                           (DmOrders.restaurant_fk o) (DmOrders.timestamp_fk o))
             (fun o i => String.eqb_refl _) (fun o o' r Hr => Hr)
             (firstn j sorted) (dest_table d) c Hp). }
  destruct (@page_or_later _ _ _ DmOrders.OrderObj_key sorted j c m Hss Hcs Hm)
    as [Hp|Hle]; [left; auto|].
  destruct (Hsub m (In_firstn _ _ _ Hm)) as (a & Ha & Em).
  rewrite Forall_forall in Hv; pose proof (Hv a Ha) as Hva.
  destruct (ltb (DmOrders.OrderObj_key m) (DmOrders.OrderObj_key c)) eqn:E.
  - right; eexists; split.
    + apply Hs; now rewrite Em.
    + cbn [DmOrders.last_loaded_ts DmOrders.last_loaded_oid].
      rewrite <- Hkey; eapply leb_ltb_trans; [|exact E].
      apply leb_pair_fst, whole_seconds_leb.
      rewrite Em; apply Hva.
  - left; apply Hfound.
    assert (Ek : DmOrders.OrderObj_key m = DmOrders.OrderObj_key c).
    { apply leb_antisym; [assumption|now rewrite leb_ltb, E]. }
    rewrite Hkey, Em in Ek; injection Ek as _ Eo.
    rewrite (@NoDup_map_inj _ _ DmOrders.so_object_id _ a oo Hn Ha Hin Eo) in Em.
    now rewrite Ec, <- Em.
Qed.

(** Three staged orders; the user of the second is not in [dds.dm_users]. *)
Definition order_of_unknown_user : DmOrders.StgOrder :=
  DmOrders.mk_StgOrder "633a8d4e5b1c2d3e4f506172"
    (mk_datetime 2022 10 3 12 30 16 0) "CLOSED" "u9" "r1"
    (mk_datetime 2022 10 3 12 0 0 0).

Definition gap_source : DmOrders.Source :=
  orders_source
    [stg_order "633a8d4e5b1c2d3e4f506171" (mk_datetime 2022 10 3 12 30 15 0);
     order_of_unknown_user;
     stg_order "633a8d4e5b1c2d3e4f506173" (mk_datetime 2022 10 3 12 30 17 0)].

Definition after_gap_run : dest DmOrders.DmOrder :=
  committed (snd (DmOrders.run no_fault (start gap_source empty_dest))).

Lemma no_order_is_skipped_witness :
  existsb (fun r => String.eqb (DmOrders.order_key r)
                      "633a8d4e5b1c2d3e4f506172")
          (rows (dest_table after_gap_run)) = true \/
  exists st',
    checkpoint DmOrders.WF_KEY (fun kw => kw) DmOrders.OrderSettings_init
      after_gap_run = Some st' /\
    ltb (DmOrders.last_loaded_ts st', DmOrders.last_loaded_oid st')
        (mk_datetime 2022 10 3 12 30 16 0, "633a8d4e5b1c2d3e4f506172") = true.
Proof.
  apply (@no_order_is_skipped gap_source empty_dest after_gap_run
           (DmOrders.mk_OrderSettings datetime_min zero_oid)
           order_of_unknown_user).
  - repeat constructor; simpl; intuition discriminate.
  - repeat constructor; simpl; lia.
  - reflexivity.
  - vm_compute; reflexivity.
  - right; left; reflexivity.
  - vm_compute; reflexivity.
Defined.

(** The run over [gap_source] writes the first order only and stops the
    watermark there. *)
Example gap_run_stops_before_the_gap :
  map DmOrders.order_key (rows (dest_table after_gap_run)) =
    ["633a8d4e5b1c2d3e4f506171"] /\
  checkpoint DmOrders.WF_KEY (fun kw => kw) DmOrders.OrderSettings_init
    after_gap_run =
  Some (DmOrders.mk_OrderSettings (mk_datetime 2022 10 3 12 30 15 0)
          "633a8d4e5b1c2d3e4f506171").
Proof. split; vm_compute; reflexivity. Qed.

(** *** What the gap filter guarantees of the rows written *)

Section WrittenRowsKeep.
Context {Obj Row : Type}.
Variable conflict : Obj -> Row -> bool.
Variable update : Obj -> Row -> Row.
Variable new : Obj -> Z -> Row.
Variable Q : Obj -> Prop.
Variable P : Row -> Prop.
Hypothesis P_new : forall o i, Q o -> P (new o i).
Hypothesis P_update : forall o r, Q o -> P r -> P (update o r).

Lemma written_rows_keep (l : list Obj) (t : table Row) :
  Forall Q l -> Forall P (rows t) ->
  Forall P (rows (fold_left
                    (fun t o => insert_on_conflict (conflict o) (update o)
                                  (new o) t) l t)).
Proof.
  intros Hl; revert t; induction Hl as [|o l Ho Hl IH]; intros t Ht; simpl;
    [assumption|].
  apply IH; unfold insert_on_conflict; cbn [rows].
  apply Forall_upsert_rows; auto.
Qed.

End WrittenRowsKeep.

(** A row of [dds.dm_orders] with its three references, and a row of
    [dds.fct_product_sales] with its two. *)
Definition DmOrder_has_references (r : DmOrders.DmOrder) : bool :=
  truthy_int (DmOrders.user_id r) && truthy_int (DmOrders.restaurant_id r) &&
  truthy_int (DmOrders.timestamp_id r).

Definition ProductSale_has_references (r : FctProductSales.ProductSale) : bool :=
  truthy_str (FctProductSales.fps_product_id r) &&
  truthy_str (FctProductSales.fps_order_id r).

(** What a run of the product-sales loader that returns has committed. *)
Definition FctProductSales_loaded (src : FctProductSales.Source)
  (d : dest FctProductSales.ProductSale) :
  option (dest FctProductSales.ProductSale) :=
  after_run FctProductSales.WF_KEY FctProductSales.BATCH_LIMIT (fun kw => kw)
    FctProductSales.ProductSaleSettings_init
    FctProductSales.ProductSaleSettings_dict FctProductSales.list_sales
    FctProductSales.insert_sale FctProductSales.ProductSaleObj_lt
    FctProductSales.ProductSaleObj_dict src d.

Lemma after_run_table {S Row Obj Settings} (WF_KEY : string)
  (BATCH_LIMIT : nat) (prepare : dict -> dict)
  (Settings_init : dict -> option Settings) (Settings_dict : Settings -> dict)
  (list_objs : Settings -> nat -> S -> list Obj)
  (insert_obj : Obj -> table Row -> table Row) (Obj_lt : Obj -> Obj -> bool)
  (Obj_dict : Obj -> dict) (src : S) (d d' : dest Row) :
  after_run WF_KEY BATCH_LIMIT prepare Settings_init Settings_dict list_objs
    insert_obj Obj_lt Obj_dict src d = Some d' ->
  exists st,
    checkpoint WF_KEY prepare Settings_init d = Some st /\
    dest_table d' =
    fold_left (fun t o => insert_obj o t) (list_objs st BATCH_LIMIT src)
      (dest_table d).
Proof.
  intros Ha; apply after_run_cases in Ha; destruct Ha as (st & Hc & Hq).
  exists st; split; [exact Hc|].
  destruct (list_objs st BATCH_LIMIT src) as [|o l]; [now subst|].
  destruct Hq as (m & st' & _ & _ & ->).
  unfold advance; cbn [dest_table]; apply write_all_table.
Qed.

(** X18. The loaders behind the gap filter never write a row with a
    missing reference: when every row of [dds.dm_orders] has its user,
    restaurant and timestamp ids (not NULL, not 0) before a run, every row
    has them after it; the same holds of the product and order ids of
    [dds.fct_product_sales]. *)
Theorem rows_written_have_their_references :
  (forall src d d',
     Forall (fun r => DmOrder_has_references r = true) (rows (dest_table d)) ->
     DmOrders.loaded src d = Some d' ->
     Forall (fun r => DmOrder_has_references r = true) (rows (dest_table d'))) /\
  (forall src d d',
     Forall (fun r => ProductSale_has_references r = true)
            (rows (dest_table d)) ->
     FctProductSales_loaded src d = Some d' ->
     Forall (fun r => ProductSale_has_references r = true)
            (rows (dest_table d'))).
Proof.
  split; intros src d d' Hd Hl.
  - apply after_run_table in Hl; destruct Hl as (st & _ & ->).
    apply written_rows_keep
      with (Q := fun o => DmOrders.has_all_fks o = true); try assumption.
    + intros o i Ho; unfold DmOrders.has_all_fks, all in Ho; cbn in Ho.
      unfold DmOrder_has_references; cbn.
      now rewrite andb_true_r, andb_assoc in Ho.
    + intros o r Ho _; unfold DmOrders.has_all_fks, all in Ho; cbn in Ho.
      unfold DmOrder_has_references; cbn.
      now rewrite andb_true_r, andb_assoc in Ho.
    + unfold DmOrders.list_orders, DmOrders.gap_filter.
      rewrite truncate_at_gap_prefix.
      apply Forall_forall, forallb_forall, kept_prefix_ok.
  - apply after_run_table in Hl; destruct Hl as (st & _ & ->).
    apply written_rows_keep
      with (Q := fun o => FctProductSales.has_all_fks o = true);
      try assumption.
    + intros o i Ho; unfold FctProductSales.has_all_fks, all in Ho; cbn in Ho.
      unfold ProductSale_has_references; cbn.
      rewrite andb_true_r in Ho; apply andb_true_iff in Ho.
      apply andb_true_iff; tauto.
    + auto.
    + unfold FctProductSales.list_sales, FctProductSales.gap_filter.
      rewrite truncate_at_gap_prefix.
      apply Forall_forall, forallb_forall, kept_prefix_ok.
Qed.

Lemma rows_written_have_their_references_witness :
  Forall (fun r => DmOrder_has_references r = true)
         (rows (dest_table after_gap_run)).
Proof.
  apply (proj1 rows_written_have_their_references gap_source empty_dest
           after_gap_run).
  - constructor.
  - vm_compute; reflexivity.
Defined.

(** ** [dwh/dds/dm_timestamps_loader.py] *)

Module DmTimestamps.

(** The class [date], written [date_] where a field named [date] is in scope. *)
Local Abbreviation date_ := date (only parsing).

Record OrderObj := mk_OrderObj { date : datetime }.

(** [OrderObj.__lt__]. *)
Definition OrderObj_lt (self other : OrderObj) : bool :=
  ltb (date self) (date other).

Definition OrderObj_dict (o : OrderObj) : dict := [("date", PyDatetime (date o))].

Record OrderSettings := mk_OrderSettings { last_loaded_ts : datetime }.

Definition OrderSettings_init (kwargs : dict) : option OrderSettings :=
  match field "date" "last_loaded_ts" as_datetime (Some datetime_min) kwargs with
  | Some ts => Some (mk_OrderSettings ts)
  | None => None
  end.

Definition OrderSettings_dict (st : OrderSettings) : dict :=
  [("last_loaded_ts", PyDatetime (last_loaded_ts st))].

(** [stg.ordersystem_orders], each row with the fields that
    [json_to_record] takes out of [object_value]. *)
Definition Source := list DmOrders.StgOrder.

(** ["order".final_status IN ('CLOSED', 'CANCELLED')]. *)
Definition closed_or_cancelled (final_status : string) : bool :=
  String.eqb final_status "CLOSED" || String.eqb final_status "CANCELLED".

(** [SELECT "order".date ... WHERE "order".date > threshold AND
    "order".final_status IN (...) ORDER BY "order".date LIMIT limit]. *)
Definition list_orders (order_settings : OrderSettings) (limit : nat)
  (src : Source) : list OrderObj :=
  firstn limit
    (order_by date
       (map (fun oo => mk_OrderObj (DmOrders.so_date oo))
          (filter (fun oo =>
                     ltb (last_loaded_ts order_settings) (DmOrders.so_date oo) &&
                     closed_or_cancelled (DmOrders.so_final_status oo))
                  src))).

(** A row of [dds.dm_timestamps]; [ts_time] is [order_ts.time()] as hour,
    minute, second and microsecond. *)
Record DmTimestamp := mk_DmTimestamp {
  dt_id : Z;
  ts : datetime;
  ts_year : Z;
  ts_month : Z;
  ts_day : Z;
  ts_time : Z * Z * Z * Z;
  ts_date : date_
}.

Definition insert_order_ts (order_ts : datetime) (t : table DmTimestamp) :
  table DmTimestamp :=
  insert_on_conflict
    (fun r => datetime_eqb (ts r) order_ts)
    (fun r => r)
    (fun i => mk_DmTimestamp i order_ts (year order_ts) (month order_ts)
                (day order_ts)
                (hour order_ts, minute order_ts, second order_ts,
                 microsecond order_ts)
                (mk_date (year order_ts) (month order_ts) (day order_ts)))
    t.

Definition WF_KEY : string := "timestamps_stg_to_dds_workflow".
Definition BATCH_LIMIT : nat := 5000.

(** [TimestampsLoader.run]. *)
Definition run (fails : nat -> bool) : M Source (dest DmTimestamp) unit :=
  loader_run WF_KEY BATCH_LIMIT (fun kw => kw) OrderSettings_init
    OrderSettings_dict list_orders (fun order => insert_order_ts (date order))
    OrderObj_lt OrderObj_dict fails.

(** What a run that returns has committed. *)
Definition loaded (src : Source) (d : dest DmTimestamp) :
  option (dest DmTimestamp) :=
  after_run WF_KEY BATCH_LIMIT (fun kw => kw) OrderSettings_init
    OrderSettings_dict list_orders (fun order => insert_order_ts (date order))
    OrderObj_lt OrderObj_dict src d.

Definition stored_checkpoint (d : dest DmTimestamp) : option OrderSettings :=
  checkpoint WF_KEY (fun kw => kw) OrderSettings_init d.

End DmTimestamps.

Lemma DmTimestamps_blob (st : DmTimestamps.OrderSettings) :
  json2str (PyModel (DmTimestamps.OrderSettings_dict st)) =
  PyDict [("last_loaded_ts",
           PyStr (strftime_datetime (DmTimestamps.last_loaded_ts st)))].
Proof. reflexivity. Qed.

Lemma DmTimestamps_round_trip (wf_key : string) (t : table SettingsRow)
  (st : DmTimestamps.OrderSettings) :
  valid_datetime (DmTimestamps.last_loaded_ts st) ->
  save_then_load DmTimestamps.OrderSettings_dict DmTimestamps.OrderSettings_init
    wf_key st t =
  Some (DmTimestamps.mk_OrderSettings
          (whole_seconds (DmTimestamps.last_loaded_ts st))).
Proof.
  intros Hv; rewrite (save_then_load_blob _ _ _ _ _ (DmTimestamps_blob st)).
  unfold DmTimestamps.OrderSettings_init, field.
  cbn -[parse_datetime strftime_datetime].
  now rewrite parse_strftime_datetime.
Qed.

Lemma DmTimestamps_loaded_cases (src : DmTimestamps.Source)
  (d d' : dest DmTimestamps.DmTimestamp) (st : DmTimestamps.OrderSettings) :
  DmTimestamps.stored_checkpoint d = Some st ->
  DmTimestamps.loaded src d = Some d' ->
  let page := DmTimestamps.list_orders st DmTimestamps.BATCH_LIMIT src in
  (page = [] /\ d' = d) \/
  (exists m, In m page /\
             dest_table d' =
               fold_left (fun t o => DmTimestamps.insert_order_ts
                                       (DmTimestamps.date o) t)
                 page (dest_table d) /\
             (valid_datetime (DmTimestamps.date m) ->
              DmTimestamps.stored_checkpoint d' =
              Some (DmTimestamps.mk_OrderSettings
                      (whole_seconds (DmTimestamps.date m))))).
Proof.
  intros Hc Hl; apply after_run_cases in Hl; destruct Hl as (st0 & Hc0 & Hq).
  unfold DmTimestamps.stored_checkpoint in Hc.
  assert (st0 = st) by congruence; subst st0; cbv zeta.
  destruct (DmTimestamps.list_orders st DmTimestamps.BATCH_LIMIT src)
    as [|o l] eqn:Ep; [auto|right].
  destruct Hq as (m & st' & Hm & Hs & ->); exists m.
  destruct (py_max_spec DmTimestamps.date _ Hm) as [Hin _].
  injection Hs as <-.
  repeat split.
  - exact Hin.
  - unfold advance; cbn [dest_table]; apply write_all_table.
  - intros Hv; unfold DmTimestamps.stored_checkpoint.
    rewrite checkpoint_advance.
    exact (DmTimestamps_round_trip DmTimestamps.WF_KEY _
             (DmTimestamps.mk_OrderSettings (DmTimestamps.date m)) Hv).
Qed.

(** X19. The timestamps loader pages by the order date alone, which
    repeats, and still loses no timestamp: after a run that returns, the
    date of every closed or cancelled staged order beyond the stored
    watermark either has its row in [dds.dm_timestamps] or is still beyond
    the new watermark. (Orders that share the date at which the batch ends
    are not read again; their timestamp is the one just written.) *)
Theorem no_timestamp_is_skipped :
  forall (src : DmTimestamps.Source) (d d' : dest DmTimestamps.DmTimestamp)
         (st : DmTimestamps.OrderSettings) (oo : DmOrders.StgOrder),
    Forall (fun oo => valid_datetime (DmOrders.so_date oo)) src ->
    DmTimestamps.stored_checkpoint d = Some st ->
    DmTimestamps.loaded src d = Some d' ->
    In oo src ->
    DmTimestamps.closed_or_cancelled (DmOrders.so_final_status oo) = true ->
    ltb (DmTimestamps.last_loaded_ts st) (DmOrders.so_date oo) = true ->
    existsb (fun r => datetime_eqb (DmTimestamps.ts r) (DmOrders.so_date oo))
            (rows (dest_table d')) = true \/
    exists st', DmTimestamps.stored_checkpoint d' = Some st' /\
                ltb (DmTimestamps.last_loaded_ts st') (DmOrders.so_date oo) = true.
Proof.
  intros src d d' st oo Hv Hc Hl Hin Hst Hwm.
  set (sorted :=
         order_by DmTimestamps.date
           (map (fun oo => DmTimestamps.mk_OrderObj (DmOrders.so_date oo))
              (filter (fun oo =>
                         ltb (DmTimestamps.last_loaded_ts st)
                             (DmOrders.so_date oo) &&
                         DmTimestamps.closed_or_cancelled
                           (DmOrders.so_final_status oo)) src))).
  set (c := DmTimestamps.mk_OrderObj (DmOrders.so_date oo)).
  assert (Hcs : In c sorted).
  { apply order_by_In, in_map_iff; exists oo; split; [reflexivity|].
    apply filter_In; split; [assumption|now rewrite Hwm, Hst]. }
  assert (Hsub : forall x, In x sorted -> valid_datetime (DmTimestamps.date x)).
  { intros x Hx; apply order_by_In, in_map_iff in Hx.
    destruct Hx as (a & <- & Ha); apply filter_In in Ha.
    rewrite Forall_forall in Hv; apply Hv, Ha. }
  destruct (@DmTimestamps_loaded_cases src d d' st Hc Hl)
    as [[_ ->]|(m & Hm & Ht & Hs)]; [right; eauto|].
  unfold DmTimestamps.list_orders in Hm, Ht; fold sorted in Hm, Ht.
  assert (Hfound : forall x, In x (firstn DmTimestamps.BATCH_LIMIT sorted) ->
                   existsb (fun r => datetime_eqb (DmTimestamps.ts r)
                                       (DmTimestamps.date x))
                           (rows (dest_table d')) = true).
  { intros x Hp; rewrite Ht.
    apply (written_row_found
             (fun o r => datetime_eqb (DmTimestamps.ts r) (DmTimestamps.date o))
             (fun (o : DmTimestamps.OrderObj) (r : DmTimestamps.DmTimestamp) => r)
             (fun o i =>
                DmTimestamps.mk_DmTimestamp i (DmTimestamps.date o)
                  (year (DmTimestamps.date o)) (month (DmTimestamps.date o))
                  (day (DmTimestamps.date o))
                  (hour (DmTimestamps.date o), minute (DmTimestamps.date o),
                   second (DmTimestamps.date o),
                   microsecond (DmTimestamps.date o))
                  (mk_date (year (DmTimestamps.date o))
                     (month (DmTimestamps.date o)) (day (DmTimestamps.date o))))
             (fun o i => proj2 (eqb_true _ _) eq_refl) (fun o o' r Hr => Hr)
             (firstn DmTimestamps.BATCH_LIMIT sorted) (dest_table d) x Hp). }
  destruct (@page_or_later _ _ _ DmTimestamps.date sorted
              DmTimestamps.BATCH_LIMIT c m (order_by_strongly_sorted _ _)
              Hcs Hm) as [Hp|Hle]; [left; exact (Hfound c Hp)|].
  destruct (ltb (DmTimestamps.date m) (DmTimestamps.date c)) eqn:E.
  - right; eexists; split.
    + apply Hs, Hsub; now apply In_firstn in Hm.
    + cbn [DmTimestamps.last_loaded_ts].
      eapply leb_ltb_trans; [|exact E].
      apply whole_seconds_leb.
      apply Hsub; now apply In_firstn in Hm.
  - left.
    assert (Ek : DmTimestamps.date m = DmTimestamps.date c).
    { apply leb_antisym; [assumption|now rewrite leb_ltb, E]. }
    change (DmOrders.so_date oo) with (DmTimestamps.date c).
    rewrite <- Ek; now apply Hfound.
Qed.

Definition timestamps_after_run : dest DmTimestamps.DmTimestamp :=
  committed (snd (DmTimestamps.run no_fault
                    (start (DmOrders.ordersystem_orders two_orders_source)
                       empty_dest))).

Lemma no_timestamp_is_skipped_witness :
  existsb (fun r => datetime_eqb (DmTimestamps.ts r)
                      (mk_datetime 2022 10 3 12 0 0 0))
          (rows (dest_table timestamps_after_run)) = true \/
  exists st',
    DmTimestamps.stored_checkpoint timestamps_after_run = Some st' /\
    ltb (DmTimestamps.last_loaded_ts st') (mk_datetime 2022 10 3 12 0 0 0) = true.
Proof.
  apply (@no_timestamp_is_skipped
           (DmOrders.ordersystem_orders two_orders_source) empty_dest
           timestamps_after_run (DmTimestamps.mk_OrderSettings datetime_min)
           (stg_order "633a8d4e5b1c2d3e4f506171"
              (mk_datetime 2022 10 3 12 30 15 0))).
  - repeat constructor; simpl; lia.
  - reflexivity.
  - vm_compute; reflexivity.
  - right; left; reflexivity.
  - reflexivity.
  - vm_compute; reflexivity.
Defined.

(** Two orders of one date give one row of [dds.dm_timestamps]. *)
Example timestamps_of_two_orders :
  map DmTimestamps.ts (rows (dest_table timestamps_after_run)) =
    [mk_datetime 2022 10 3 12 0 0 0] /\
  DmTimestamps.stored_checkpoint timestamps_after_run =
    Some (DmTimestamps.mk_OrderSettings (mk_datetime 2022 10 3 12 0 0 0)).
Proof. split; vm_compute; reflexivity. Qed.

(** ** [dwh/dds/dm_restaurants_loader.py]: the reader *)

Module RestaurantsLoader.

(** A row of [stg.ordersystem_restaurants], with the name that
    [object_value::JSON ->> 'name'] takes out. *)
Record StgRestaurant := mk_StgRestaurant {
  os_object_id : string;
  os_name : string;
  os_update_ts : datetime
}.

(** The two staging tables; of [stg.deliverysystem_restaurants] the query
    reads [object_id] only. *)
Record Source := mk_Source {
  ordersystem_restaurants : list StgRestaurant;
  deliverysystem_restaurants : list string
}.

Record RestaurantSettings := mk_RestaurantSettings {
  last_loaded_ts : datetime;
  last_loaded_oid : string
}.

Definition RestaurantSettings_init (kwargs : dict) : option RestaurantSettings :=
  match field "update_ts" "last_loaded_ts" as_datetime (Some datetime_min) kwargs,
        field "object_id" "last_loaded_oid" as_str (Some zero_oid) kwargs with
  | Some ts, Some oid => Some (mk_RestaurantSettings ts oid)
  | _, _ => None
  end.

(** [os LEFT JOIN dr ON dr.object_id = os.object_id]: a row of [os] with
    each of its partners, or once with NULL when it has none. *)
Definition left_join (src : Source) (os : StgRestaurant) :
  list (StgRestaurant * option string) :=
  match filter (fun dr => String.eqb dr (os_object_id os))
               (deliverysystem_restaurants src) with
  | [] => [(os, None)]
  | partners => map (fun dr => (os, Some dr)) partners
  end.

(** The query: WHERE and ORDER BY read the columns of [os], the SELECT
    list takes [dr.object_id]. *)
Definition select_restaurants (ts_threshold : datetime) (oid_threshold : string)
  (limit : nat) (src : Source) : list DmRestaurants.RestaurantObj :=
  map (fun p => DmRestaurants.mk_RestaurantObj (snd p) (os_name (fst p))
                  (os_update_ts (fst p)))
    (firstn limit
       (order_by (fun p => (os_update_ts (fst p), os_object_id (fst p)))
          (filter (fun p =>
                     ltb ts_threshold (os_update_ts (fst p)) ||
                     (eqb (os_update_ts (fst p)) ts_threshold &&
                      ltb oid_threshold (os_object_id (fst p))))
                  (flat_map (left_join src) (ordersystem_restaurants src))))).

(** [list_restaurants]: the query, then the loop that stops at the first
    restaurant for which [not restaurant.object_id]. *)
Definition list_restaurants (rest_settings : RestaurantSettings) (limit : nat)
  (src : Source) : list DmRestaurants.RestaurantObj :=
  truncate_at_gap (fun restaurant => truthy_str (DmRestaurants.object_id restaurant))
    (select_restaurants (last_loaded_ts rest_settings)
       (last_loaded_oid rest_settings) limit src).

Definition WF_KEY : string := "restaurants_stg_to_dds_workflow".
Definition BATCH_LIMIT : nat := 2.

End RestaurantsLoader.

(** X20. [list_restaurants] returns only restaurants that both systems
    know: every record of its result comes from a row of the order
    system's staging table beyond the watermark, with that row's name and
    [update_ts], and its [object_id] is that row's id, not empty, and an id
    of the delivery system's staging table. The result has at most [limit]
    records. *)
Theorem list_restaurants_known_to_both_systems :
  forall (st : RestaurantsLoader.RestaurantSettings) (limit : nat)
         (src : RestaurantsLoader.Source),
    (forall r, In r (RestaurantsLoader.list_restaurants st limit src) ->
       exists os,
         In os (RestaurantsLoader.ordersystem_restaurants src) /\
         DmRestaurants.object_id r = Some (RestaurantsLoader.os_object_id os) /\
         RestaurantsLoader.os_object_id os <> "" /\
         In (RestaurantsLoader.os_object_id os)
            (RestaurantsLoader.deliverysystem_restaurants src) /\
         DmRestaurants.name r = RestaurantsLoader.os_name os /\
         DmRestaurants.update_ts r = RestaurantsLoader.os_update_ts os /\
         ltb (RestaurantsLoader.last_loaded_ts st,
              RestaurantsLoader.last_loaded_oid st)
             (RestaurantsLoader.os_update_ts os,
              RestaurantsLoader.os_object_id os) = true) /\
    (length (RestaurantsLoader.list_restaurants st limit src) <= limit)%nat.
Proof.
  intros st limit src; unfold RestaurantsLoader.list_restaurants.
  rewrite truncate_at_gap_prefix; split.
  - intros r Hr.
    assert (Hok : truthy_str (DmRestaurants.object_id r) = true).
    { generalize (kept_prefix_ok
                    (fun x => truthy_str (DmRestaurants.object_id x))
                    (RestaurantsLoader.select_restaurants
                       (RestaurantsLoader.last_loaded_ts st)
                       (RestaurantsLoader.last_loaded_oid st) limit src)).
      rewrite forallb_forall; auto. }
    apply In_kept_prefix in Hr; unfold RestaurantsLoader.select_restaurants in Hr.
    apply in_map_iff in Hr; destruct Hr as ([os dr] & <- & Hp).
    apply In_firstn, order_by_In, filter_In in Hp; destruct Hp as [Hj Hw].
    cbn [fst snd] in *; cbn [DmRestaurants.object_id] in Hok.
    apply in_flat_map in Hj; destruct Hj as (os' & Hos & Hj).
    unfold RestaurantsLoader.left_join in Hj.
    destruct (filter _ _) as [|x partners] eqn:Ef.
    + destruct Hj as [[= <- <-]|[]]; discriminate.
    + apply in_map_iff in Hj; destruct Hj as (y & [= <- <-] & Hy).
      rewrite <- Ef in Hy; apply filter_In in Hy; destruct Hy as [Hy Ey].
      apply String.eqb_eq in Ey; subst y.
      exists os'; cbn; repeat split; auto.
      * intros E; rewrite E in Hok; discriminate.
      * now rewrite ltb_pair.
  - etransitivity; [apply kept_prefix_length|].
    unfold RestaurantsLoader.select_restaurants.
    rewrite length_map, length_firstn; lia.
Qed.

(** Two restaurants of the order system; the delivery system knows the
    first only. *)
Definition both_systems : RestaurantsLoader.Source :=
  RestaurantsLoader.mk_Source
    [RestaurantsLoader.mk_StgRestaurant "r1" "Cafe" (day_at 1);
     RestaurantsLoader.mk_StgRestaurant "r2" "Bar" (day_at 2)]
    ["r1"].

Lemma list_restaurants_known_to_both_systems_witness :
  exists os,
    In os (RestaurantsLoader.ordersystem_restaurants both_systems) /\
    DmRestaurants.object_id (cafe "Cafe" 1) =
      Some (RestaurantsLoader.os_object_id os) /\
    RestaurantsLoader.os_object_id os <> "" /\
    In (RestaurantsLoader.os_object_id os)
       (RestaurantsLoader.deliverysystem_restaurants both_systems) /\
    DmRestaurants.name (cafe "Cafe" 1) = RestaurantsLoader.os_name os /\
    DmRestaurants.update_ts (cafe "Cafe" 1) =
      RestaurantsLoader.os_update_ts os /\
    ltb (datetime_min, zero_oid)
        (RestaurantsLoader.os_update_ts os,
         RestaurantsLoader.os_object_id os) = true.
Proof.
  apply (proj1 (list_restaurants_known_to_both_systems
                  (RestaurantsLoader.mk_RestaurantSettings datetime_min zero_oid)
                  RestaurantsLoader.BATCH_LIMIT both_systems)
           (cafe "Cafe" 1)).
  left; reflexivity.
Defined.

Example list_restaurants_stops_at_unknown :
  RestaurantsLoader.list_restaurants
    (RestaurantsLoader.mk_RestaurantSettings datetime_min zero_oid)
    RestaurantsLoader.BATCH_LIMIT both_systems = [cafe "Cafe" 1].
Proof. reflexivity. Qed.

(** ** [dwh/dds/dm_products_loader.py]: the reader *)

Module ProductsLoader.

Definition ProductObj_key (o : DmProducts.ProductObj) :
  datetime * (string * string) :=
  (DmProducts.update_ts o, (DmProducts.restaurant_id o, DmProducts.product_id o)).

(** [ProductObj.__lt__]: the order of the triples
    [(update_ts, restaurant_id, product_id)]. *)
Definition ProductObj_lt (self other : DmProducts.ProductObj) : bool :=
  ltb (DmProducts.update_ts self,
       (DmProducts.restaurant_id self, DmProducts.product_id self))
      (DmProducts.update_ts other,
       (DmProducts.restaurant_id other, DmProducts.product_id other)).

Record ProductSettings := mk_ProductSettings {
  last_loaded_ts : datetime;
  last_loaded_restaurant_id : string;
  last_loaded_product_id : string
}.

Definition ProductSettings_init (kwargs : dict) : option ProductSettings :=
  match field "update_ts" "last_loaded_ts" as_datetime (Some datetime_min) kwargs,
        field "restaurant_id" "last_loaded_restaurant_id" as_str (Some zero_oid)
          kwargs,
        field "product_id" "last_loaded_product_id" as_str (Some zero_oid) kwargs
  with
  | Some ts, Some rid, Some pid => Some (mk_ProductSettings ts rid pid)
  | _, _, _ => None
  end.

Definition ProductSettings_dict (st : ProductSettings) : dict :=
  [("last_loaded_ts", PyDatetime (last_loaded_ts st));
   ("last_loaded_restaurant_id", PyStr (last_loaded_restaurant_id st));
   ("last_loaded_product_id", PyStr (last_loaded_product_id st))].

(** [product.dict()], without the price, which no settings field reads. *)
Definition ProductObj_dict (o : DmProducts.ProductObj) : dict :=
  [("product_id", PyStr (DmProducts.product_id o));
   ("restaurant_id", PyStr (DmProducts.restaurant_id o));
   ("name", PyStr (DmProducts.name o));
   ("update_ts", PyDatetime (DmProducts.update_ts o));
   ("restaurant_fk", PyInt (DmProducts.restaurant_fk o))].

(** The grouped join of the query is taken as given: [products_view] is
    what SELECT ... CROSS JOIN json_to_recordset(menu) INNER JOIN
    dds.dm_restaurants ... GROUP BY yields before WHERE, ORDER BY and LIMIT
    act (the WHERE clause reads grouping columns only). *)
Record Source := mk_Source { products_view : list DmProducts.ProductObj }.

(** [WHERE update_ts > ts OR (update_ts = ts AND (restaurant_id > rid OR
    (restaurant_id = rid AND _id > pid)))
    ORDER BY update_ts, restaurant_id, _id LIMIT limit]. *)
Definition list_products (product_settings : ProductSettings) (limit : nat)
  (src : Source) : list DmProducts.ProductObj :=
  firstn limit
    (order_by ProductObj_key
       (filter (fun p =>
                  ltb (last_loaded_ts product_settings) (DmProducts.update_ts p) ||
                  (eqb (DmProducts.update_ts p) (last_loaded_ts product_settings) &&
                   (ltb (last_loaded_restaurant_id product_settings)
                        (DmProducts.restaurant_id p) ||
                    (eqb (DmProducts.restaurant_id p)
                         (last_loaded_restaurant_id product_settings) &&
                     ltb (last_loaded_product_id product_settings)
                         (DmProducts.product_id p)))))
               (products_view src))).

Definition WF_KEY : string := "products_stg_to_dds_workflow".
Definition BATCH_LIMIT : nat := 100.

(** [ProductsLoader.run]. *)
Definition run (fails : nat -> bool) : M Source (dest DmProducts.DmProduct) unit :=
  loader_run WF_KEY BATCH_LIMIT (fun kw => kw) ProductSettings_init
    ProductSettings_dict list_products DmProducts.insert_product ProductObj_lt
    ProductObj_dict fails.

End ProductsLoader.

Lemma list_products_keyset (st : ProductsLoader.ProductSettings) (limit : nat)
  (src : ProductsLoader.Source) :
  ProductsLoader.list_products st limit src =
  keyset_page ProductsLoader.ProductObj_key
    (ProductsLoader.last_loaded_ts st,
     (ProductsLoader.last_loaded_restaurant_id st,
      ProductsLoader.last_loaded_product_id st))
    limit (ProductsLoader.products_view src).
Proof.
  unfold ProductsLoader.list_products, keyset_page.
  do 2 f_equal; apply filter_ext; intros p.
  unfold ProductsLoader.ProductObj_key; now rewrite !ltb_pair.
Qed.

(** X21. The three-column WHERE clause of [list_products] is the order of
    [ProductObj.__lt__]: the reader returns products greater than the
    watermark triple [(update_ts, restaurant_id, product_id)] in that
    order, sorted ascending by it, at most [limit] of them — and all of
    them when they are fewer than [limit]. *)
Theorem list_products_pages_by_triple :
  forall (st : ProductsLoader.ProductSettings) (limit : nat)
         (src : ProductsLoader.Source),
    let watermark :=
      DmProducts.mk_ProductObj (ProductsLoader.last_loaded_product_id st)
        (ProductsLoader.last_loaded_restaurant_id st) "" 0
        (ProductsLoader.last_loaded_ts st) 0 in
    let page := ProductsLoader.list_products st limit src in
    Forall (fun p => ProductsLoader.ProductObj_lt watermark p = true) page /\
    Sorted (fun p q => ProductsLoader.ProductObj_lt q p = false) page /\
    (length page <= limit)%nat /\
    ((length page < limit)%nat ->
     forall p, In p (ProductsLoader.products_view src) ->
               ProductsLoader.ProductObj_lt watermark p = true -> In p page).
Proof.
  intros st limit src watermark page; subst watermark page.
  rewrite list_products_keyset; repeat split.
  - apply Forall_forall; intros p Hp.
    apply keyset_page_after in Hp; apply Hp.
  - generalize (keyset_page_sorted ProductsLoader.ProductObj_key
                  (ProductsLoader.last_loaded_ts st,
                   (ProductsLoader.last_loaded_restaurant_id st,
                    ProductsLoader.last_loaded_product_id st))
                  limit (ProductsLoader.products_view src)).
    apply Sorted_ind; [constructor|].
    intros a l _ IH Hhd; constructor; [exact IH|].
    destruct Hhd as [|b l' Hab]; constructor.
    unfold key_le in Hab; rewrite leb_ltb in Hab.
    unfold ProductsLoader.ProductObj_lt; fold (ProductsLoader.ProductObj_key a).
    fold (ProductsLoader.ProductObj_key b).
    now destruct (ltb _ _).
  - apply keyset_page_length.
  - unfold keyset_page; intros Hlt p Hin Hp.
    rewrite firstn_all2.
    + apply order_by_In, filter_In; split; assumption.
    + rewrite length_firstn in Hlt; lia.
Qed.

Lemma list_products_pages_by_triple_witness :
  In (pizza (450#1) 2)
     (ProductsLoader.list_products
        (ProductsLoader.mk_ProductSettings datetime_min zero_oid zero_oid)
        ProductsLoader.BATCH_LIMIT
        (ProductsLoader.mk_Source [pizza (450#1) 2])).
Proof.
  apply (proj2 (proj2 (proj2 (list_products_pages_by_triple
                  (ProductsLoader.mk_ProductSettings datetime_min zero_oid
                     zero_oid)
                  ProductsLoader.BATCH_LIMIT
                  (ProductsLoader.mk_Source [pizza (450#1) 2]))))).
  - simpl; unfold ProductsLoader.BATCH_LIMIT; lia.
  - left; reflexivity.
  - reflexivity.
Defined.

(** ** Sorting rows with distinct keys *)

Section SortedUnique.
Context {R K : Type} `{Ord K}.
Variable key : R -> K.

Lemma sorted_head_least (a : R) (l : list R) (x : R) :
  StronglySorted (key_le key) (a :: l) -> In x (a :: l) ->
  leb (key a) (key x) = true.
Proof.
  intros Hs [<-|Hx]; [apply leb_refl|].
  inversion Hs as [|? ? _ Hf]; subst.
  rewrite Forall_forall in Hf; now apply Hf.
Qed.

(** Two sorted lists with the same rows, no two of them under one key, are
    the same list. *)
Lemma sorted_permutation_eq (l1 l2 : list R) :
  StronglySorted (key_le key) l1 -> StronglySorted (key_le key) l2 ->
  Permutation l1 l2 ->
  (forall x y, In x l1 -> In y l1 -> key x = key y -> x = y) ->
  l1 = l2.
Proof.
  revert l2; induction l1 as [|a l1 IH]; intros l2 H1 H2 Hp Hinj.
  - apply Permutation_nil in Hp; now subst.
  - destruct l2 as [|b l2];
      [apply Permutation_sym, Permutation_nil in Hp; discriminate|].
    assert (Ha : In a (b :: l2)) by (eapply Permutation_in; [exact Hp|now left]).
    assert (Hb : In b (a :: l1)).
    { eapply Permutation_in; [apply Permutation_sym, Hp|now left]. }
    assert (E : a = b).
    { apply Hinj; [now left|assumption|].
      apply leb_antisym; eapply sorted_head_least; eassumption. }
    subst b; f_equal; apply IH.
    + now inversion H1.
    + now inversion H2.
    + eapply Permutation_cons_inv; eassumption.
    + intros x y Hx Hy; apply Hinj; now right.
Qed.

(** ORDER BY (and [list.sort]) over rows with distinct keys does not
    depend on the order in which the rows come. *)
Lemma order_by_permutation (l l' : list R) :
  Permutation l l' ->
  (forall x y, In x l -> In y l -> key x = key y -> x = y) ->
  order_by key l = order_by key l'.
Proof.
  intros Hp Hinj; apply sorted_permutation_eq.
  - apply order_by_strongly_sorted.
  - apply order_by_strongly_sorted.
  - rewrite <- (order_by_perm key l), <- (order_by_perm key l'); exact Hp.
  - intros x y Hx Hy; apply order_by_In in Hx, Hy; now apply Hinj.
Qed.

End SortedUnique.

(** ** [lib/schema_init.py] *)

Module SchemaDdl.

(** A file of the scripts directory: its name, the time of its last
    modification, and what executing its text does to the database. *)
Record script_file (T Time : Type) := mk_script_file {
  name : string;
  getmtime : Time;
  script : T -> T
}.

Arguments mk_script_file {T Time}.
Arguments name {T Time}.
Arguments getmtime {T Time}.
Arguments script {T Time}.

Section Init.
Context {T Time : Type} `{Ord Time}.
Variable fails : nat -> bool.

(** The time that [DateTime.min.timestamp()] gives. *)
Variable DateTime_min : Time.

(** The files that [init] applies, in the order in which it applies them;
    [iterdir] is the directory as [path.iterdir()] lists it,
    [prev_execution_date] the time of the previous run, if there was one. *)
Definition file_paths (iterdir : list (script_file T Time))
  (prev_execution_date : option Time) : list (script_file T Time) :=
  let prev_execution_date :=
    match prev_execution_date with
    | Some t => t
    | None => DateTime_min
    end in
  order_by name
    (filter (fun file => ltb prev_execution_date (getmtime file)) iterdir).

(** The body of the loop: the script is executed in a connection scope of
    its own. *)
Definition apply_file (fp : script_file T Time) : M unit T unit :=
  target_connection fails (target_insert fails (script fp)).

Definition init (iterdir : list (script_file T Time))
  (prev_execution_date : option Time) : M unit T unit :=
  for_each apply_file (file_paths iterdir prev_execution_date).

(** The database after the scripts of [l], one after the other. *)
Definition applied (l : list (script_file T Time)) (db : T) : T :=
  fold_left (fun db fp => script fp db) l db.

Lemma apply_file_outcome (fp : script_file T Time) (w w' : world unit T)
  (r : result unit) :
  working w = committed w -> apply_file fp w = (r, w') ->
  working w' = committed w' /\
  match r with
  | Ok _ => committed w' = script fp (committed w)
  | Raise _ => committed w' = committed w
  end.
Proof.
  intros Hw; unfold apply_file, target_connection.
  destruct (connect fails w) as [[[]|e0] w0] eqn:Ec.
  - apply db_call_ok in Ec; destruct Ec as [_ [= <-]].
    destruct (target_insert fails (script fp) _) as [[[]|e1] w1] eqn:Ei.
    + apply target_insert_ok in Ei; destruct Ei as (_ & Hc & Hwk).
      cbn [committed working] in Hc, Hwk.
      destruct (target_commit fails w1) as [[[]|e2] w2] eqn:Em.
      * apply db_call_ok in Em; destruct Em as [_ [= <-]].
        intros [= <- <-]; cbn [committed working]; rewrite Hwk, Hw; auto.
      * unfold target_commit, db_call in Em.
        destruct (fails (steps w1)); [|discriminate]; injection Em as _ <-.
        intros [= <- <-]; cbn [target_rollback committed working]; auto.
    + generalize (@keeps_target_insert unit T fails (script fp)
                    (mk_world (source w) (committed w) (working w)
                       (Datatypes.S (steps w)))).
      rewrite Ei; cbn [snd committed]; intros Hk.
      intros [= <- <-]; cbn [target_rollback committed working]; auto.
  - unfold connect, db_call in Ec.
    destruct (fails (steps w)); inversion Ec; subst.
    intros [= <- <-]; cbn [committed working]; auto.
Qed.

Lemma for_each_apply_file (l : list (script_file T Time)) :
  forall (w w' : world unit T) (r : result unit),
    working w = committed w ->
    for_each apply_file l w = (r, w') ->
    exists j,
      committed w' = applied (firstn j l) (committed w) /\
      match r with
      | Ok _ => j = length l
      | Raise _ => (j < length l)%nat
      end.
Proof.
  induction l as [|fp l IH]; intros w w' r Hw; simpl.
  - unfold ret; intros [= <- <-]; exists 0%nat; auto.
  - unfold bind; destruct (apply_file fp w) as [[[]|e] w1] eqn:Ea.
    + destruct (@apply_file_outcome fp w w1 (Ok tt) Hw Ea) as [Hw1 Hc1].
      intros Hl; destruct (IH w1 w' r Hw1 Hl) as (j & Hj & Hr).
      exists (Datatypes.S j); split.
      * rewrite Hj, Hc1; reflexivity.
      * destruct r; simpl; lia.
    + destruct (@apply_file_outcome fp w w1 (Raise e) Hw Ea) as [_ Hc1].
      intros [= <- <-]; exists 0%nat; split; [exact Hc1|simpl; lia].
Qed.

End Init.

End SchemaDdl.

(** X22. [SchemaDdl.init] does not depend on the order in which the
    directory lists its files: with file names that differ (as in a
    directory they do), the files applied and their order — ascending by
    name, the files modified after the previous run only — are the same
    for every listing, and so is the whole run. *)
Theorem schema_init_ignores_listing_order :
  forall (T Time : Type) (O : Ord Time) (fails : nat -> bool)
         (DateTime_min : Time)
         (iterdir iterdir' : list (SchemaDdl.script_file T Time))
         (prev_execution_date : option Time),
    NoDup (map SchemaDdl.name iterdir) ->
    Permutation iterdir iterdir' ->
    SchemaDdl.file_paths DateTime_min iterdir prev_execution_date =
    SchemaDdl.file_paths DateTime_min iterdir' prev_execution_date /\
    SchemaDdl.init fails DateTime_min iterdir prev_execution_date =
    SchemaDdl.init fails DateTime_min iterdir' prev_execution_date /\
    StronglySorted (fun f g => leb (SchemaDdl.name f) (SchemaDdl.name g) = true)
      (SchemaDdl.file_paths DateTime_min iterdir prev_execution_date) /\
    (forall file,
       In file (SchemaDdl.file_paths DateTime_min iterdir prev_execution_date)
       <->
       In file iterdir /\
       ltb match prev_execution_date with
           | Some t => t
           | None => DateTime_min
           end (SchemaDdl.getmtime file) = true).
Proof.
  intros T Time O fails DateTime_min iterdir iterdir' prev Hn Hp.
  assert (E : SchemaDdl.file_paths DateTime_min iterdir prev =
              SchemaDdl.file_paths DateTime_min iterdir' prev).
  { unfold SchemaDdl.file_paths; apply order_by_permutation.
    - now apply Permutation_filter.
    - intros x y Hx Hy; apply filter_In in Hx, Hy.
      apply (NoDup_map_inj SchemaDdl.name iterdir); tauto. }
  split; [exact E|]; split; [unfold SchemaDdl.init; now rewrite E|].
  split; [apply order_by_strongly_sorted|].
  intros file; unfold SchemaDdl.file_paths.
  rewrite order_by_In; apply filter_In.
Qed.

(** X23. [SchemaDdl.init] is not one transaction: every script is
    committed on its own. When [init] raises, the scripts before the
    failing one are applied and stay applied, the failing one is rolled
    back and no later one is run; when it returns, all are applied. *)
Theorem schema_init_commits_script_by_script :
  forall (T Time : Type) (O : Ord Time) (fails : nat -> bool)
         (DateTime_min : Time) (iterdir : list (SchemaDdl.script_file T Time))
         (prev_execution_date : option Time) (db : T) (r : result unit)
         (w' : world unit T),
    SchemaDdl.init fails DateTime_min iterdir prev_execution_date (start tt db) =
      (r, w') ->
    let files := SchemaDdl.file_paths DateTime_min iterdir prev_execution_date in
    exists j,
      committed w' = SchemaDdl.applied (firstn j files) db /\
      match r with
      | Ok _ => j = length files
      | Raise _ => (j < length files)%nat
      end.
Proof.
  intros T Time O fails DateTime_min iterdir prev db r w' Hi.
  apply (SchemaDdl.for_each_apply_file fails _ (start tt db)); [reflexivity|exact Hi].
Qed.

(** Two scripts that record their names in the order of their execution. *)
Definition script_a : SchemaDdl.script_file (list string) Z :=
  SchemaDdl.mk_script_file "2022-10-01-a.sql" 10 (fun db => db ++ ["a"]).

Definition script_b : SchemaDdl.script_file (list string) Z :=
  SchemaDdl.mk_script_file "2022-10-02-b.sql" 20 (fun db => db ++ ["b"]).

Lemma schema_init_ignores_listing_order_witness :
  SchemaDdl.file_paths 0 [script_b; script_a] (Some 5) =
  SchemaDdl.file_paths 0 [script_a; script_b] (Some 5).
Proof.
  apply (@schema_init_ignores_listing_order (list string) Z Ord_Z no_fault 0
           [script_b; script_a] [script_a; script_b] (Some 5)).
  - repeat constructor; simpl; intuition discriminate.
  - apply perm_swap.
Defined.

(** The execution of the second script is the fifth call of [init]. *)
Definition second_script_fails : nat -> bool := fun n => Nat.eqb n 4.

Lemma schema_init_commits_script_by_script_witness :
  exists j,
    committed (snd (SchemaDdl.init second_script_fails 0 [script_b; script_a]
                      None (start tt []))) =
    SchemaDdl.applied
      (firstn j (SchemaDdl.file_paths 0 [script_b; script_a] None)) [] /\
    (j < length (SchemaDdl.file_paths 0%Z [script_b; script_a] None))%nat.
Proof.
  apply (@schema_init_commits_script_by_script (list string) Z Ord_Z
           second_script_fails 0 [script_b; script_a] None []
           (Raise (DatabaseError 4))).
  vm_compute; reflexivity.
Defined.

Example schema_init_keeps_first_script :
  let r := SchemaDdl.init second_script_fails 0 [script_b; script_a] None
             (start tt []) in
  fst r = Raise (DatabaseError 4) /\ committed (snd r) = ["a"].
Proof. split; vm_compute; reflexivity. Qed.

(** ** [lib/utils.py]: what [to_dict] and [json2str] return *)

(** The values that [json.dumps] writes without the help of a [default]:
    [None], numbers, strings, and lists and dicts of such. *)
Fixpoint json_value (v : pyval) : bool :=
  match v with
  | PyNone | PyInt _ | PyStr _ => true
  | PyDatetime _ | PyDate _ | PyObjectId _ | PyModel _ => false
  | PyDict items => forallb (fun kv => json_value (snd kv)) items
  | PyList items => forallb json_value items
  end.

(** Induction on values, with the values inside a dict, a model or a list
    as induction hypotheses. *)
Section PyvalInduction.
Variable P : pyval -> Prop.
Hypothesis P_none : P PyNone.
Hypothesis P_int : forall n, P (PyInt n).
Hypothesis P_str : forall s, P (PyStr s).
Hypothesis P_datetime : forall t, P (PyDatetime t).
Hypothesis P_date : forall d, P (PyDate d).
Hypothesis P_oid : forall o, P (PyObjectId o).
Hypothesis P_dict :
  forall items, Forall (fun kv => P (snd kv)) items -> P (PyDict items).
Hypothesis P_model :
  forall fields, Forall (fun kv => P (snd kv)) fields -> P (PyModel fields).
Hypothesis P_list : forall items, Forall P items -> P (PyList items).

Fixpoint pyval_induction (v : pyval) : P v :=
  match v with
  | PyNone => P_none
  | PyInt n => P_int n
  | PyStr s => P_str s
  | PyDatetime t => P_datetime t
  | PyDate d => P_date d
  | PyObjectId o => P_oid o
  | PyDict items =>
      P_dict
        ((fix go (l : list (string * pyval)) : Forall (fun kv => P (snd kv)) l :=
            match l with
            | [] => Forall_nil _
            | kv :: l' => Forall_cons kv (pyval_induction (snd kv)) (go l')
            end) items)
  | PyModel fields =>
      P_model
        ((fix go (l : list (string * pyval)) : Forall (fun kv => P (snd kv)) l :=
            match l with
            | [] => Forall_nil _
            | kv :: l' => Forall_cons kv (pyval_induction (snd kv)) (go l')
            end) fields)
  | PyList items =>
      P_list
        ((fix go (l : list pyval) : Forall P l :=
            match l with
            | [] => Forall_nil _
            | x :: l' => Forall_cons x (pyval_induction x) (go l')
            end) items)
  end.

End PyvalInduction.

Lemma to_dict_items_json (items : list (string * pyval)) :
  Forall (fun kv => json_value (to_dict (snd kv)) = true /\
                    to_dict (to_dict (snd kv)) = to_dict (snd kv)) items ->
  forallb (fun kv => json_value (snd kv))
          (map (fun kv => (fst kv, to_dict (snd kv))) items) = true /\
  map (fun kv => (fst kv, to_dict (snd kv)))
      (map (fun kv => (fst kv, to_dict (snd kv))) items) =
  map (fun kv => (fst kv, to_dict (snd kv))) items.
Proof.
  induction 1 as [|kv items [Hj Hi] _ [IHj IHi]]; simpl; [auto|].
  now rewrite Hj, IHj, Hi, IHi.
Qed.

(** X24. Whatever [to_dict] is given — timestamps, dates, object ids,
    models, dicts and lists of them, to any depth — it returns a value made
    of [None], numbers, strings, lists and dicts only, so that [json.dumps]
    never meets a value it cannot write; and on such a value [to_dict]
    changes nothing. *)
Theorem to_dict_returns_json_values :
  forall obj : pyval,
    json_value (to_dict obj) = true /\
    to_dict (to_dict obj) = to_dict obj.
Proof.
  induction obj as [| | | | | |items IH|fields IH|items IH]
    using pyval_induction; try (split; reflexivity).
  - destruct (to_dict_items_json IH) as [Hj Hi]; cbn [to_dict json_value].
    now rewrite Hj, Hi.
  - destruct (to_dict_items_json IH) as [Hj Hi]; cbn [to_dict json_value].
    now rewrite Hj, Hi.
  - cbn [to_dict json_value]; induction IH as [|x items [Hj Hi] _ [IHj IHi]];
      simpl; [auto|].
    injection IHi as IHi; now rewrite Hj, IHj, Hi, IHi.
Qed.

Lemma to_dict_keeps_keys (fields : list (string * pyval)) :
  map fst (map (fun kv => (fst kv, sort_keys (snd kv)))
             (map (fun kv => (fst kv, to_dict (snd kv))) fields)) =
  map fst fields.
Proof. rewrite !map_map; reflexivity. Qed.

Lemma json2str_fields (fields : list (string * pyval)) :
  json2str (PyModel fields) =
  PyDict (order_by fst
            (map (fun kv => (fst kv, sort_keys (snd kv)))
               (map (fun kv => (fst kv, to_dict (snd kv))) fields))) /\
  json2str (PyDict fields) = json2str (PyModel fields).
Proof. split; reflexivity. Qed.

(** X25. [json2str] writes one text for one content: for a model or a
    dict (no key twice), the value written does not depend on the order of
    the fields, and its keys come in ascending order. *)
Theorem json2str_ignores_field_order :
  forall fields fields' : list (string * pyval),
    NoDup (map fst fields) ->
    Permutation fields fields' ->
    json2str (PyModel fields) = json2str (PyModel fields') /\
    json2str (PyDict fields) = json2str (PyDict fields') /\
    exists items,
      json2str (PyModel fields) = PyDict items /\
      StronglySorted (fun a b => leb (fst a) (fst b) = true) items /\
      Permutation (map fst items) (map fst fields).
Proof.
  intros fields fields' Hn Hp.
  assert (E : json2str (PyModel fields) = json2str (PyModel fields')).
  { rewrite (proj1 (json2str_fields fields)), (proj1 (json2str_fields fields')).
    f_equal; apply order_by_permutation.
    - now do 2 apply Permutation_map.
    - intros x y Hx Hy Ek.
      apply in_map_iff in Hx, Hy.
      destruct Hx as (x1 & <- & Hx), Hy as (y1 & <- & Hy).
      apply in_map_iff in Hx, Hy.
      destruct Hx as (x0 & <- & Hx), Hy as (y0 & <- & Hy).
      cbn [fst snd] in *.
      now rewrite (@NoDup_map_inj _ _ fst fields x0 y0 Hn Hx Hy Ek). }
  split; [exact E|]; split;
    [now rewrite (proj2 (json2str_fields fields)),
       (proj2 (json2str_fields fields'))|].
  eexists; split; [apply json2str_fields|]; split.
  - apply order_by_strongly_sorted.
  - rewrite <- (to_dict_keeps_keys fields).
    apply Permutation_map, Permutation_sym, order_by_perm.
Qed.

Lemma json2str_ignores_field_order_witness :
  json2str (PyModel [("last_loaded_ts", PyDatetime half_past);
                     ("last_loaded_oid", PyStr zero_oid)]) =
  json2str (PyModel [("last_loaded_oid", PyStr zero_oid);
                     ("last_loaded_ts", PyDatetime half_past)]).
Proof.
  apply (@json2str_ignores_field_order
           [("last_loaded_ts", PyDatetime half_past);
            ("last_loaded_oid", PyStr zero_oid)]
           [("last_loaded_oid", PyStr zero_oid);
            ("last_loaded_ts", PyDatetime half_past)]).
  - repeat constructor; simpl; intuition discriminate.
  - apply perm_swap.
Defined.

(** ** [dwh/cdm/dm_settlement_report_loader.py]: the drain loop reads on *)

(** X26. A run of the settlement report that returns is not held to
    [BATCH_LIMIT]: it has made as many upserts as the view has reports
    dated on or after the stored watermark, each of such a report. When
    the executions of the query within the run return the reports in one
    and the same order, the pages are the consecutive parts of that order:
    every such report has been written, in date order, and has its row in
    [cdm.dm_settlement_report] afterwards. *)
Theorem settlement_run_loads_every_pending_report :
  forall (fails : nat -> bool) (fuel : nat)
         (view : list SettlementReport.RestaurantReportObj)
         (execs : SettlementReport.Executions)
         (d : dest SettlementReport.DmSettlementReport)
         (w' : world SettlementReport.Executions
                 (dest SettlementReport.DmSettlementReport)),
    (forall n, Permutation (SettlementReport.reports_view (execs n)) view) ->
    (length view < fuel)%nat ->
    SettlementReport.run fails fuel (start execs d) = (Ok tt, w') ->
    exists st,
      checkpoint SettlementReport.WF_KEY (fun kw => kw)
        SettlementReport.RestaurantReportSettings_init d = Some st /\
      (exists written,
         dest_table (committed w') =
           fold_left (fun t report => SettlementReport.insert_report report t)
             written (dest_table d) /\
         length written =
           length (filter (fun r => leb (SettlementReport.last_loaded_date st)
                                        (SettlementReport.date r)) view) /\
         forall report,
           In report written ->
           In report view /\
           leb (SettlementReport.last_loaded_date st)
               (SettlementReport.date report) = true) /\
      ((forall n m, SettlementReport.pending st (execs n) =
                    SettlementReport.pending st (execs m)) ->
       dest_table (committed w') =
         fold_left (fun t report => SettlementReport.insert_report report t)
           (SettlementReport.pending st (execs 0%nat)) (dest_table d) /\
       forall report,
         In report view ->
         leb (SettlementReport.last_loaded_date st)
             (SettlementReport.date report) = true ->
         existsb (fun r => eqb (SettlementReport.row_key r)
                               (SettlementReport.report_key report))
                 (rows (dest_table (committed w'))) = true).
Proof.
  intros fails fuel view execs d w' Hp Hf Hr.
  apply SettlementReport_run_ok in Hr.
  unfold SettlementReport.loaded in Hr; unfold checkpoint.
  destruct (stored_setting SettlementReport.WF_KEY d) as [e|]; [|discriminate].
  destruct (SettlementReport.RestaurantReportSettings_init _) as [st|];
    [|discriminate].
  exists st; split; [reflexivity|].
  cbv zeta in Hr.
  remember (concat (SettlementReport.pages_read fuel st 0 3 execs)) as W eqn:EW.
  assert (Ht : dest_table (committed w') =
               fold_left (fun t report => SettlementReport.insert_report report t)
                 W (dest_table d)).
  { destruct (py_max _ _); injection Hr as <-;
      exact (write_all_table SettlementReport.insert_report W d). }
  assert (Hn : (length (filter (fun r => leb (SettlementReport.last_loaded_date st)
                                             (SettlementReport.date r)) view) <=
                length view)%nat) by apply filter_length_le.
  split.
  - exists W; split; [exact Ht|]; split.
    + subst W; rewrite (@SettlementReport_pages_length st view execs Hp) by lia.
      lia.
    + intros report Hin; subst W.
      now apply (@SettlementReport_pages_members st view execs Hp) in Hin.
  - intros Hsame.
    assert (EV : W = SettlementReport.pending st (execs 0%nat)).
    { subst W.
      rewrite (@SettlementReport_pages_agree st execs
                 (SettlementReport.pending st (execs 0%nat)));
        [reflexivity|intros n; apply Hsame|].
      rewrite (@SettlementReport_pending_length st view execs Hp); lia. }
    rewrite <- EV; split; [exact Ht|].
    intros report Hin Hwm; rewrite Ht.
    apply (written_row_found
             (fun o r => eqb (SettlementReport.row_key r)
                             (SettlementReport.report_key o))
             SettlementReport.update_report SettlementReport.new_report
             (fun o i => proj2 (eqb_true _ _) eq_refl) (fun o o' r Hk => Hk)).
    rewrite EV; apply (@SettlementReport_pending_In st view execs Hp).
    now split.
Qed.

Lemma settlement_run_loads_every_pending_report_witness :
  exists st,
    checkpoint SettlementReport.WF_KEY (fun kw => kw)
      SettlementReport.RestaurantReportSettings_init
      (@empty_dest SettlementReport.DmSettlementReport) = Some st /\
    length (SettlementReport.pending st two_reports) = 2%nat.
Proof.
  destruct (@settlement_run_loads_every_pending_report no_fault 3
              (SettlementReport.reports_view two_reports)
              (every_time two_reports) empty_dest
              (snd (SettlementReport.run no_fault 3
                      (start (every_time two_reports) empty_dest))))
    as (st & Hc & _).
  - intros n; reflexivity.
  - simpl; lia.
  - vm_compute; reflexivity.
  - exists st; split; [exact Hc|].
    vm_compute in Hc; injection Hc as <-; reflexivity.
Defined.

(** ** The timestamp of the orders watermark *)

Lemma whole_seconds_mono (a b : datetime) :
  leb a b = true -> leb (whole_seconds a) (whole_seconds b) = true.
Proof.
  destruct a as [y1 mo1 d1 h1 mi1 s1 us1], b as [y2 mo2 d2 h2 mi2 s2 us2].
  unfold leb; simpl; unfold lex.
  destruct (y1 ?= y2); try tauto.
  destruct (mo1 ?= mo2); try tauto.
  destruct (d1 ?= d2); try tauto.
  destruct (h1 ?= h2); try tauto.
  destruct (mi1 ?= mi2); try tauto.
  destruct (s1 ?= s2); tauto.
Qed.

Lemma ltb_pair_fst {A B} `{Ord A} `{Ord B} (a a' : A) (b b' : B) :
  ltb (a, b) (a', b') = true -> leb a a' = true.
Proof.
  unfold ltb, leb; simpl; unfold lex.
  destruct (cmp a a'); [reflexivity|reflexivity|discriminate].
Qed.

(** X27. The timestamp of the orders watermark never moves back: when the
    stored timestamp has whole seconds — as every timestamp that
    [save_setting] has written has, and the default — then after a run that
    returns the stored timestamp has whole seconds again and is not before
    the old one. *)
Theorem order_watermark_timestamp_never_moves_back :
  forall (src : DmOrders.Source) (d d' : dest DmOrders.DmOrder)
         (st st' : DmOrders.OrderSettings),
    Forall (fun oo => valid_datetime (DmOrders.so_update_ts oo))
           (DmOrders.ordersystem_orders src) ->
    microsecond (DmOrders.last_loaded_ts st) = 0 ->
    checkpoint DmOrders.WF_KEY (fun kw => kw) DmOrders.OrderSettings_init d =
      Some st ->
    DmOrders.loaded src d = Some d' ->
    checkpoint DmOrders.WF_KEY (fun kw => kw) DmOrders.OrderSettings_init d' =
      Some st' ->
    leb (DmOrders.last_loaded_ts st) (DmOrders.last_loaded_ts st') = true /\
    microsecond (DmOrders.last_loaded_ts st') = 0.
Proof.
  intros src d d' st st' Hv Hus Hc Hl Hc'.
  destruct (@DmOrders_loaded_cases src d d' st Hc Hl)
    as [[_ ->]|(m & Hm & _ & Hs)].
  - assert (st' = st) by congruence; subst st'.
    split; [apply leb_refl|exact Hus].
  - destruct (DmOrders_list_orders_prefix st DmOrders.BATCH_LIMIT src)
      as [j Hj].
    rewrite Hj in Hm; clear Hj.
    apply In_firstn, order_by_In, filter_In in Hm; destruct Hm as [Hm Hwm].
    apply in_map_iff in Hm; destruct Hm as (a & Em & Ha).
    rewrite Forall_forall in Hv; pose proof (Hv a Ha) as Hva.
    assert (Et : DmOrders.update_ts m = DmOrders.so_update_ts a)
      by now rewrite <- Em.
    rewrite <- Et in Hva; rewrite (Hs Hva) in Hc'; injection Hc' as <-.
    cbn [DmOrders.last_loaded_ts]; split; [|reflexivity].
    rewrite <- (whole_seconds_id _ Hus).
    apply whole_seconds_mono.
    exact (@ltb_pair_fst _ _ _ _ _ _ _ _ Hwm).
Qed.

Lemma order_watermark_timestamp_never_moves_back_witness :
  leb datetime_min (mk_datetime 2022 10 3 12 30 15 0) = true /\
  microsecond (mk_datetime 2022 10 3 12 30 15 0) = 0.
Proof.
  apply (@order_watermark_timestamp_never_moves_back gap_source empty_dest
           after_gap_run (DmOrders.mk_OrderSettings datetime_min zero_oid)
           (DmOrders.mk_OrderSettings (mk_datetime 2022 10 3 12 30 15 0)
              "633a8d4e5b1c2d3e4f506171")).
  - repeat constructor; simpl; lia.
  - reflexivity.
  - reflexivity.
  - vm_compute; reflexivity.
  - vm_compute; reflexivity.
Defined.

(** ** Runs that return

    With no failing call, a run over a destination whose checkpoint can be
    read comes to its end. *)

Lemma no_fault_false : forall n, no_fault n = false.
Proof. reflexivity. Qed.

Lemma after_run_some {S Row Obj Settings} (WF_KEY : string)
  (BATCH_LIMIT : nat) (prepare : dict -> dict)
  (Settings_init : dict -> option Settings) (Settings_dict : Settings -> dict)
  (list_objs : Settings -> nat -> S -> list Obj)
  (insert_obj : Obj -> table Row -> table Row) (Obj_lt : Obj -> Obj -> bool)
  (Obj_dict : Obj -> dict) (src : S) (d : dest Row) (st : Settings) :
  checkpoint WF_KEY prepare Settings_init d = Some st ->
  (forall o, Settings_init (Obj_dict o) <> None) ->
  after_run WF_KEY BATCH_LIMIT prepare Settings_init Settings_dict list_objs
    insert_obj Obj_lt Obj_dict src d <> None.
Proof.
  unfold checkpoint, after_run; intros Hc Hd.
  destruct (stored_setting WF_KEY d) as [e|]; [|discriminate].
  rewrite Hc; destruct (list_objs st BATCH_LIMIT src) as [|o l];
    [discriminate|].
  cbn [py_max]; specialize (Hd (fold_left
    (fun best item => if Obj_lt best item then item else best) l o)).
  destruct (Settings_init (Obj_dict _)); [discriminate|now elim Hd].
Qed.

(** X28. The couriers and the orders loader return when no call fails and
    the stored checkpoint can be read: the run ends without an exception —
    no validator refuses the settings made from the last record of a batch
    — and has committed the batch with its watermark. *)
Theorem run_returns_when_no_call_fails :
  (forall (src : DmCouriers.Source) (d : dest DmCouriers.DmCourier)
          (st : DmCouriers.CourierSettings),
     DmCouriers.stored_checkpoint d = Some st ->
     exists w',
       DmCouriers.run no_fault (start src d) = (Ok tt, w') /\
       DmCouriers_loaded src d = Some (committed w')) /\
  (forall (src : DmOrders.Source) (d : dest DmOrders.DmOrder)
          (st : DmOrders.OrderSettings),
     checkpoint DmOrders.WF_KEY (fun kw => kw) DmOrders.OrderSettings_init d =
       Some st ->
     exists w',
       DmOrders.run no_fault (start src d) = (Ok tt, w') /\
       DmOrders.loaded src d = Some (committed w')).
Proof.
  split; intros src d st Hc.
  - generalize (loader_run_total DmCouriers.WF_KEY DmCouriers.BATCH_LIMIT
                  (fun kw => kw) DmCouriers.CourierSettings_init
                  DmCouriers.CourierSettings_dict DmCouriers.list_couriers
                  DmCouriers.insert_courier DmCouriers.CourierObj_lt
                  DmCouriers.CourierObj_dict no_fault src d no_fault_false).
    fold (DmCouriers_loaded src d).
    destruct (DmCouriers_loaded src d) as [d'|] eqn:El.
    + intros (w' & Hr & <-); eauto.
    + exfalso; revert El; unfold DmCouriers_loaded.
      apply after_run_some with (st := st); [exact Hc|].
      intros o; vm_compute; discriminate.
  - generalize (loader_run_total DmOrders.WF_KEY DmOrders.BATCH_LIMIT
                  (fun kw => kw) DmOrders.OrderSettings_init
                  DmOrders.OrderSettings_dict DmOrders.list_orders
                  DmOrders.insert_order DmOrders.OrderObj_lt
                  DmOrders.OrderObj_dict no_fault src d no_fault_false).
    fold (DmOrders.loaded src d).
    destruct (DmOrders.loaded src d) as [d'|] eqn:El.
    + intros (w' & Hr & <-); eauto.
    + exfalso; revert El; unfold DmOrders.loaded.
      apply after_run_some with (st := st); [exact Hc|].
      intros o; vm_compute; discriminate.
Qed.

Lemma run_returns_when_no_call_fails_witness :
  exists w',
    DmCouriers.run no_fault (start three_couriers empty_dest) = (Ok tt, w') /\
    DmCouriers_loaded three_couriers empty_dest = Some (committed w').
Proof.
  apply (proj1 run_returns_when_no_call_fails three_couriers empty_dest
           (DmCouriers.mk_CourierSettings (-1))).
  reflexivity.
Defined.

(** A monadic step that returns, whatever the world it starts in. *)
Definition returns {S T A} (m : M S T A) : Prop :=
  forall w, exists a w', m w = (Ok a, w').

Lemma returns_ret {S T A} (a : A) : returns (@ret S T A a).
Proof. intros w; unfold ret; eauto. Qed.

Lemma returns_bind {S T A B} (m : M S T A) (k : A -> M S T B) :
  returns m -> (forall a, returns (k a)) -> returns (bind m k).
Proof.
  intros Hm Hk w; unfold bind.
  destruct (Hm w) as (a & w1 & ->); apply Hk.
Qed.

Lemma returns_db_call {S T A} (f : world S T -> A * world S T) :
  returns (db_call no_fault f).
Proof. intros w; rewrite db_call_run by reflexivity; eauto. Qed.

Lemma returns_for_each {S T A} (f : A -> M S T unit) (l : list A) :
  (forall x, returns (f x)) -> returns (for_each f l).
Proof.
  intros Hf; induction l as [|x l IH]; cbn [for_each];
    [apply returns_ret|].
  apply returns_bind; [apply Hf|intros _; exact IH].
Qed.

Lemma returns_lift {S T A} (e : exn) (o : option A) :
  o <> None -> returns (@lift S T A e o).
Proof.
  destruct o as [a|]; [intros _|intros H; now elim H].
  apply returns_ret.
Qed.

Lemma with_connections_returns {S T A} (body : M S T A) (src : S) (d : T)
  (a : A) (w1 : world S T) :
  body (mk_world src d d 2) = (Ok a, w1) ->
  exists w', with_connections no_fault body (start src d) = (Ok a, w').
Proof.
  intros Hb; unfold with_connections, source_connection.
  unfold connect at 1; rewrite db_call_run by reflexivity; cbn [fst snd].
  unfold target_connection, connect, target_commit, source_commit.
  rewrite db_call_run by reflexivity; cbn [fst snd].
  match goal with
  | |- context [body ?x] => change x with (mk_world src d d 2)
  end.
  rewrite Hb, !db_call_run by reflexivity; cbn [fst snd]; eauto.
Qed.

Lemma SettlementReport_drain_returns (fuel : nat) :
  forall st offset last_loaded,
    returns (SettlementReport.drain no_fault fuel st offset last_loaded).
Proof.
  induction fuel as [|fuel IH]; intros st offset last_loaded;
    cbn [SettlementReport.drain]; [apply returns_ret|].
  apply returns_bind; [apply returns_db_call|].
  intros [|r l]; [apply returns_ret|].
  apply returns_bind;
    [apply returns_for_each; intros x; apply returns_db_call|intros _].
  apply returns_bind; [apply returns_lift; discriminate|intros m; apply IH].
Qed.

Lemma SettlementReport_body_returns (fuel : nat)
  (w : world SettlementReport.Executions
         (dest SettlementReport.DmSettlementReport))
  (st : SettlementReport.RestaurantReportSettings) :
  checkpoint SettlementReport.WF_KEY (fun kw => kw)
    SettlementReport.RestaurantReportSettings_init (working w) = Some st ->
  exists w', SettlementReport.run_body no_fault fuel w = (Ok tt, w').
Proof.
  unfold checkpoint, stored_setting; intros Hc.
  unfold SettlementReport.run_body, get_setting.
  unfold bind at 1 2; unfold target_retrieve.
  rewrite db_call_run by reflexivity; cbn [fst snd working].
  match goal with
  | |- context [?g ?x] =>
      match g with
      | match select_setting _ _ with _ => _ end =>
          assert (Hg : exists e, g x = (Ok e, x) /\
                    SettlementReport.RestaurantReportSettings_init
                      (workflow_settings e) = Some st)
      end
  end.
  { destruct (select_setting _ _) as [r|];
      [destruct (EtlSetting_of_row r) as [e|]; [|discriminate Hc]|];
      eexists; (split; [reflexivity|exact Hc]). }
  destruct Hg as (e & -> & He).
  unfold bind at 1; rewrite He; cbn [lift ret].
  match goal with
  | |- exists w', ?m ?x = _ =>
      assert (Hm : returns m); [|destruct (Hm x) as ([] & w' & ->); eauto]
  end.
  apply returns_bind; [apply SettlementReport_drain_returns|].
  intros [report|]; [|apply returns_ret].
  apply returns_bind; [apply returns_lift; vm_compute; discriminate|].
  intros st'; unfold save_setting, target_insert; apply returns_db_call.
Qed.

(** X29. With no failing call and a checkpoint that can be read, a run of
    the settlement report returns, and its loop ends on an empty page
    within one round more than the view has reports: to allow it more
    rounds changes nothing of what it commits — in whatever order the
    database returns the reports of one date. *)
Theorem settlement_run_returns_with_enough_rounds :
  forall (fuel1 fuel2 : nat)
         (view : list SettlementReport.RestaurantReportObj)
         (execs : SettlementReport.Executions)
         (d : dest SettlementReport.DmSettlementReport)
         (st : SettlementReport.RestaurantReportSettings),
    (forall n, Permutation (SettlementReport.reports_view (execs n)) view) ->
    (length view < fuel1)%nat ->
    (length view < fuel2)%nat ->
    checkpoint SettlementReport.WF_KEY (fun kw => kw)
      SettlementReport.RestaurantReportSettings_init d = Some st ->
    exists w1 w2,
      SettlementReport.run no_fault fuel1 (start execs d) = (Ok tt, w1) /\
      SettlementReport.run no_fault fuel2 (start execs d) = (Ok tt, w2) /\
      committed w1 = committed w2.
Proof.
  intros fuel1 fuel2 view execs d st Hp Hf1 Hf2 Hc.
  destruct (@SettlementReport_body_returns fuel1 (mk_world execs d d 2) st Hc)
    as (v1 & Hb1).
  destruct (@SettlementReport_body_returns fuel2 (mk_world execs d d 2) st Hc)
    as (v2 & Hb2).
  destruct (with_connections_returns _ _ _ Hb1) as (w1 & Hr1).
  destruct (with_connections_returns _ _ _ Hb2) as (w2 & Hr2).
  exists w1, w2; split; [exact Hr1|]; split; [exact Hr2|].
  apply SettlementReport_run_ok in Hr1, Hr2.
  assert (He : SettlementReport.loaded fuel1 execs d =
               SettlementReport.loaded fuel2 execs d).
  { unfold SettlementReport.loaded, checkpoint in *.
    destruct (stored_setting SettlementReport.WF_KEY d) as [e|]; [|reflexivity].
    rewrite Hc; cbv zeta.
    assert (Hn : (length (filter (fun r => leb (SettlementReport.last_loaded_date st)
                                               (SettlementReport.date r)) view) <=
                  length view)%nat) by apply filter_length_le.
    now rewrite (@SettlementReport_pages_fuel st view execs Hp fuel1 fuel2 0 3)
      by lia. }
  congruence.
Qed.

Lemma settlement_run_returns_with_enough_rounds_witness :
  exists w1 w2,
    SettlementReport.run no_fault 3 (start (every_time two_reports) empty_dest) =
      (Ok tt, w1) /\
    SettlementReport.run no_fault 7 (start (every_time two_reports) empty_dest) =
      (Ok tt, w2) /\
    committed w1 = committed w2.
Proof.
  apply (@settlement_run_returns_with_enough_rounds 3 7
           (SettlementReport.reports_view two_reports)
           (every_time two_reports) empty_dest
           (SettlementReport.mk_RestaurantReportSettings date_min)).
  - intros n; reflexivity.
  - vm_compute; lia.
  - vm_compute; lia.
  - vm_compute; reflexivity.
Defined.

(** ** [dwh/cdm/dm_courier_ledger_loader.py]: the reader *)

Module CourierLedger.

Section Reader.

(** The amounts are Python floats; the reader hands them on as the query
    gives them, whatever their type [F]. *)
Variable F : Type.

Record CourierReportObj := mk_CourierReportObj {
  courier_id : string;
  courier_name : string;
  year : Z;
  month : Z;
  orders_count : Z;
  orders_total_sum : F;
  rate_avg : F;
  courier_order_sum : F;
  courier_tips_sum : F
}.

(** [CourierReportObj.__lt__]. *)
Definition CourierReportObj_lt (self other : CourierReportObj) : bool :=
  ltb (year self, month self) (year other, month other).

Record CourierReportSettings := mk_CourierReportSettings {
  last_loaded_year : Z;
  last_loaded_month : Z
}.

(** The grouped join is taken as given: [reports_view] is what SELECT ...
    GROUP BY dt.year, dt.month, dc.courier_id, dc.courier_name yields; the
    WHERE clause reads grouping columns only and is applied to the groups. *)
Record Source := mk_Source { reports_view : list CourierReportObj }.

(** [WHERE dt.year >= year_threshold AND dt.month >= month_threshold
     ORDER BY dt.year, dt.month OFFSET offset LIMIT limit], executed once
    on the groups in the order in which this execution meets them. *)
Definition list_reports (report_settings : CourierReportSettings)
  (offset limit : nat) (src : Source) : list CourierReportObj :=
  firstn limit
    (skipn offset
       (order_by (fun r => (year r, month r))
          (filter (fun r => leb (last_loaded_year report_settings) (year r) &&
                            leb (last_loaded_month report_settings) (month r))
                  (reports_view src)))).

End Reader.

End CourierLedger.

Lemma In_some_page {A} (limit : nat) (l : list A) (x : A) :
  limit <> 0%nat ->
  In x l -> exists offset, In x (firstn limit (skipn offset l)).
Proof.
  intros Hl Hin; apply in_split in Hin; destruct Hin as (l1 & l2 & ->).
  exists (length l1).
  rewrite skipn_app, skipn_all, Nat.sub_diag; cbn [app skipn].
  destruct limit as [|n]; [now elim Hl|now left].
Qed.

(** X30. The courier ledger reader compares the year and the month of a
    report with the watermark one by one: over all its pages it returns
    exactly the reports of the view whose year is not before the watermark
    year and whose month number is not below the watermark month. So a
    report of a later year with a lower month number is on no page, though
    it is greater, in the order [max] uses to pick the watermark, than the
    report the watermark was taken from. *)
Theorem ledger_reader_takes_year_and_month_apart :
  (forall (F : Type) (st : CourierLedger.CourierReportSettings)
          (limit : nat) (src : CourierLedger.Source F)
          (r : CourierLedger.CourierReportObj F),
     limit <> 0%nat ->
     ((exists offset, In r (CourierLedger.list_reports st offset limit src)) <->
      In r (CourierLedger.reports_view src) /\
      CourierLedger.last_loaded_year st <= CourierLedger.year r /\
      CourierLedger.last_loaded_month st <= CourierLedger.month r)) /\
  (forall (F : Type) (st : CourierLedger.CourierReportSettings)
          (offset limit : nat) (src : CourierLedger.Source F)
          (r last_loaded : CourierLedger.CourierReportObj F),
     CourierLedger.year last_loaded = CourierLedger.last_loaded_year st ->
     CourierLedger.month last_loaded = CourierLedger.last_loaded_month st ->
     CourierLedger.last_loaded_year st < CourierLedger.year r ->
     CourierLedger.month r < CourierLedger.last_loaded_month st ->
     CourierLedger.CourierReportObj_lt last_loaded r = true /\
     ~ In r (CourierLedger.list_reports st offset limit src)).
Proof.
  split.
  - intros F st limit src r Hl; unfold CourierLedger.list_reports; split.
    + intros [offset H].
      apply In_firstn, In_skipn, order_by_In, filter_In in H.
      destruct H as [Hin Hb]; apply andb_true_iff in Hb.
      now rewrite !leb_Z in Hb.
    + intros (Hin & Hy & Hm); apply In_some_page; [exact Hl|].
      apply order_by_In, filter_In; split; [exact Hin|].
      apply andb_true_iff; now rewrite !leb_Z.
  - intros F st offset limit src r w Hy Hm Hlt Hlow; split.
    + unfold CourierLedger.CourierReportObj_lt; rewrite Hy.
      rewrite ltb_pair; apply orb_true_iff; left; now apply ltb_Z.
    + unfold CourierLedger.list_reports; intros H.
      apply In_firstn, In_skipn, order_by_In, filter_In in H.
      destruct H as [_ Hb]; apply andb_true_iff in Hb.
      rewrite !leb_Z in Hb; lia.
Qed.

Definition december_2022 : CourierLedger.CourierReportObj unit :=
  CourierLedger.mk_CourierReportObj "c1" "Ivan" 2022 12 7 tt tt tt tt.

Definition january_2023 : CourierLedger.CourierReportObj unit :=
  CourierLedger.mk_CourierReportObj "c1" "Ivan" 2023 1 4 tt tt tt tt.

Lemma ledger_reader_takes_year_and_month_apart_witness :
  (exists offset,
     In december_2022
        (CourierLedger.list_reports
           (CourierLedger.mk_CourierReportSettings 2022 12) offset 100%nat
           (CourierLedger.mk_Source [december_2022; january_2023]))) /\
  CourierLedger.CourierReportObj_lt december_2022 january_2023 = true /\
  ~ In january_2023
       (CourierLedger.list_reports
          (CourierLedger.mk_CourierReportSettings 2022 12) 0%nat 100%nat
          (CourierLedger.mk_Source [december_2022; january_2023])).
Proof.
  split.
  - apply (proj1 ledger_reader_takes_year_and_month_apart unit
             (CourierLedger.mk_CourierReportSettings 2022 12) 100%nat
             (CourierLedger.mk_Source [december_2022; january_2023])
             december_2022); [lia|].
    split; [now left|simpl; lia].
  - apply (proj2 ledger_reader_takes_year_and_month_apart unit
             (CourierLedger.mk_CourierReportSettings 2022 12) 0%nat 100%nat
             (CourierLedger.mk_Source [december_2022; january_2023])
             january_2023 december_2022); simpl; (reflexivity || lia).
Defined.
